(** * The task store of [taskManager.js]

    A shallow embedding of the [TaskManager] class of [taskManager.js]: the
    in-memory task list, its persistence to [localStorage] and the query
    functions. The repository also keeps an older variant of the class with
    the same methods; it is embedded in [Legacy] and compared with the
    newer one where the two differ.

    JavaScript values are embedded as an inductive type of primitives, task
    records as finite maps from property names to values (so that the
    spread [{...task, ...updates}] is a map union), and the methods as
    computations in a state-and-exception monad over the task list, the
    storage and the console. What the environment decides is an input: the
    two clock readings of [addTask] are arguments, and the storage carries
    whether it can be read and written. A method has made all its reads
    and writes of the list and the storage when it first suspends (the
    [await] of a promise that is already settled), so a call is one step
    of the world.

    The user interface of both files, [TaskManagerUI], is embedded after
    the store: its handlers as computations over the store and the part
    of the document they write. *)

From Stdlib Require Import ZArith NArith Ascii String List Lia.
From stdpp Require Import base option list strings pretty gmap.

Local Open Scope Z_scope.

(** ** JavaScript strings

    A string is a sequence of code units. The store is embedded over
    strings of code units below 256 (Latin-1), for which [toLowerCase]
    maps one unit to one unit whatever stands next to it. Text beyond
    Latin-1 does not fit this type; the search is embedded once more
    over sequences of UTF-16 code units in [UTF16], where [toLowerCase]
    reads the neighbours of a letter, and the two are compared on
    Latin-1. *)

Module JSString.

Definition code (c : ascii) : N := N_of_ascii c.

(** White space and line terminators removed by [String.prototype.trim]:
    TAB, LF, VT, FF, CR, SP and NBSP. *)
Definition is_white (c : ascii) : bool :=
  let n := code c in
  ((9 <=? n) && (n <=? 13) || (n =? 32) || (n =? 160))%N.

Fixpoint trimStart (s : string) : string :=
  match s with
  | EmptyString => EmptyString
  | String c s' => if is_white c then trimStart s' else s
  end.

Fixpoint trimEnd (s : string) : string :=
  match s with
  | EmptyString => EmptyString
  | String c s' =>
      match trimEnd s' with
      | EmptyString => if is_white c then EmptyString else String c EmptyString
      | r => String c r
      end
  end.

Definition trim (s : string) : string := trimEnd (trimStart s).

(** The text consists of white space only. *)
Fixpoint all_white (s : string) : bool :=
  match s with
  | EmptyString => true
  | String c s' => is_white c && all_white s'
  end.

(** The text starts, or ends, with white space. *)
Definition starts_white (s : string) : bool :=
  match s with
  | String c _ => is_white c
  | EmptyString => false
  end.

Fixpoint ends_white (s : string) : bool :=
  match s with
  | EmptyString => false
  | String c EmptyString => is_white c
  | String _ s' => ends_white s'
  end.

(** Upper-case letters of Latin-1: A-Z, and the accented capitals
    U+00C0..U+00DE without the multiplication sign U+00D7. *)
Definition is_upper (n : N) : bool :=
  ((65 <=? n) && (n <=? 90) || (192 <=? n) && (n <=? 222) && negb (n =? 215))%N.

Definition lower_code (n : N) : N := if is_upper n then (n + 32)%N else n.

Definition lower_char (c : ascii) : ascii := ascii_of_N (lower_code (code c)).

(** [s.toLowerCase()] for a string of code units below 256. *)
Fixpoint toLowerCase (s : string) : string :=
  match s with
  | EmptyString => EmptyString
  | String c s' => String (lower_char c) (toLowerCase s')
  end.

Fixpoint startsWith (s t : string) : bool :=
  match t, s with
  | EmptyString, _ => true
  | String _ _, EmptyString => false
  | String b t', String a s' => bool_decide (a = b) && startsWith s' t'
  end.

(** [s.includes(t)]: [t] occurs in [s] at some position. *)
Fixpoint includes (s t : string) : bool :=
  startsWith s t ||
  match s with
  | EmptyString => false
  | String _ s' => includes s' t
  end.

End JSString.

(** ** Strings of UTF-16 code units

    [toLowerCase] is the default case conversion of Unicode. One of its
    rules reads the neighbours of a letter: the Greek capital sigma
    becomes the final small sigma at the end of a word (after a cased
    letter, case-ignorable characters apart, and not before one) and the
    small sigma elsewhere. The module covers Latin-1 and the twenty-four
    letters of the Greek alphabet, capital and small; on a string with a
    code unit outside of these, [toLowerCase] has no value here. *)

Module UTF16.

Definition text : Type := list N.


(** U+03A3, U+03C2 and U+03C3. *)
Definition capital_sigma : N := 931.
Definition final_sigma : N := 962.
Definition small_sigma : N := 963.

(** The Greek capitals other than sigma, U+0391..U+03A1 and
    U+03A4..U+03A9, and the Greek small letters U+03B1..U+03C9. *)
Definition is_greek_upper (c : N) : bool :=
  ((913 <=? c) && (c <=? 929) || (932 <=? c) && (c <=? 937))%N.

Definition is_greek_lower (c : N) : bool := ((945 <=? c) && (c <=? 969))%N.

(** The property Cased of Unicode on Latin-1 and the Greek letters. *)
Definition cased (c : N) : bool :=
  ((65 <=? c) && (c <=? 90) || (97 <=? c) && (c <=? 122)
   || (c =? 170) || (c =? 181) || (c =? 186)
   || (192 <=? c) && (c <=? 214) || (216 <=? c) && (c <=? 246)
   || (248 <=? c) && (c <=? 255)
   || (c =? capital_sigma) || is_greek_upper c || is_greek_lower c)%N.

(** The property Case_Ignorable of Unicode on Latin-1: apostrophe, full
    stop, colon, circumflex, grave, diaeresis, soft hyphen, macron,
    acute, middle dot and cedilla. No Greek letter has it. *)
Definition case_ignorable (c : N) : bool :=
  bool_decide (c ∈ [39; 46; 58; 94; 96; 168; 173; 175; 180; 183; 184]%N).

(** The nearest code unit that is not case-ignorable is a cased letter. *)
Fixpoint cased_next (s : text) : bool :=
  match s with
  | [] => false
  | c :: s' => if case_ignorable c then cased_next s' else cased c
  end.

(** The lower case of one code unit; [before] holds the units that
    precede it, the nearest first, [after] those that follow. *)
Definition lower_unit (before after : text) (c : N) : option N :=
  if (c <? 256)%N then Some (JSString.lower_code c)
  else if (c =? capital_sigma)%N then
    Some (if cased_next before && negb (cased_next after)
          then final_sigma else small_sigma)
  else if is_greek_upper c then Some (c + 32)%N
  else if is_greek_lower c then Some c
  else None.

Fixpoint lower_from (before s : text) : option text :=
  match s with
  | [] => Some []
  | c :: s' =>
      c' ← lower_unit before s' c;
      r ← lower_from (c :: before) s';
      Some (c' :: r)
  end.

(** [s.toLowerCase()] *)
Definition toLowerCase (s : text) : option text := lower_from [] s.

Fixpoint startsWith (s t : text) : bool :=
  match t, s with
  | [], _ => true
  | _ :: _, [] => false
  | b :: t', a :: s' => bool_decide (a = b) && startsWith s' t'
  end.

(** [s.includes(t)] *)
Fixpoint includes (s t : text) : bool :=
  startsWith s t ||
  match s with
  | [] => false
  | _ :: s' => includes s' t
  end.

(** A task as far as the search reads it. *)
Record task : Type := mkTask { title : text; description : text }.

(** [title.toLowerCase().includes(term) || description.toLowerCase().includes(term)] *)
Definition search_callback (term : text) (t : task) : option bool :=
  title' ← toLowerCase (title t);
  if includes title' term then Some true
  else description' ← toLowerCase (description t);
       Some (includes description' term).

Fixpoint Array_filter (f : task -> option bool) (ts : list task)
    : option (list task) :=
  match ts with
  | [] => Some []
  | t :: ts' =>
      keep ← f t;
      r ← Array_filter f ts';
      Some (if keep : bool then t :: r else r)
  end.

(** [searchTasks(searchTerm)] on a term that is a string and tasks whose
    title and description are strings. *)
Definition searchTasks (searchTerm : text) (ts : list task) : option (list task) :=
  term ← toLowerCase searchTerm;
  Array_filter (search_callback term) ts.

(** Two code units are the same letter up to case: the same unit, or a
    capital and its small letter; the capital sigma has two. *)
Definition small_of (c : N) : list N :=
  if (c <? 256)%N then [JSString.lower_code c]
  else if (c =? capital_sigma)%N then [small_sigma; final_sigma]
  else if is_greek_upper c then [(c + 32)%N]
  else [].

Definition same_letter (a b : N) : Prop :=
  a = b \/ b ∈ small_of a \/ a ∈ small_of b.

(** [term] occurs in [s] as a substring, up to case. *)
Definition ci_substring (term s : text) : Prop :=
  exists pre mid post, s = pre ++ mid ++ post /\ Forall2 same_letter mid term.

(** The Greek word for street in capitals, as the title of a task. *)
Definition odos : task := mkTask [927; 916; 927; 931]%N [].

End UTF16.

(** ** JavaScript values and objects *)

Inductive value : Type :=
  | VUndef
  | VNull
  | VBool (b : bool)
  | VNum (n : Z)
  | VStr (s : string).

Global Instance value_eq_dec : EqDecision value.
Proof. solve_decision. Defined.

Global Instance value_inhabited : Inhabited value := populate VUndef.

(** ToBoolean. *)
Definition truthy (v : value) : bool :=
  match v with
  | VUndef | VNull => false
  | VBool b => b
  | VNum n => negb (n =? 0)
  | VStr s => negb (bool_decide (s = EmptyString))
  end.

(** [a === b] on primitive values. *)
Definition strict_eq (a b : value) : bool := bool_decide (a = b).

(** [a ?? b]. *)
Definition nullish_coalesce (a b : value) : value :=
  match a with
  | VUndef | VNull => b
  | _ => a
  end.

(** A plain object: a finite map from property names to values. *)
Abbreviation obj := (gmap string value).

(** Property read [o.k]: a missing property reads as [undefined]. *)
Definition get (o : obj) (k : string) : value := default VUndef (o !! k).

(** Thrown values. *)
Inductive exn : Type :=
  | Error (message : string)
  | TypeError (message : string)
  | SyntaxError (message : string)
  | DOMException (name : string).

Global Instance exn_eq_dec : EqDecision exn.
Proof. solve_decision. Defined.

(** What a call comes to: a value returned, an exception thrown, or a
    state that the types of this embedding cannot hold (a task list that
    is not an array of records, a task whose prototype was replaced).
    Nothing is said about the code once a run is [Outside]. *)
Inductive result (A : Type) : Type :=
  | Return (a : A)
  | Throw (e : exn)
  | Outside.
Arguments Return {A} a.
Arguments Throw {A} e.
Arguments Outside {A}.

(** [v.trim()] *)
Definition call_trim (v : value) : result value :=
  match v with
  | VStr s => Return (VStr (JSString.trim s))
  | VUndef | VNull => Throw (TypeError "Cannot read properties of undefined")
  | _ => Throw (TypeError "trim is not a function")
  end.

(** [v?.trim()] *)
Definition optional_trim (v : value) : result value :=
  match v with
  | VUndef | VNull => Return VUndef
  | _ => call_trim v
  end.

(** [v.toLowerCase()] *)
Definition call_toLowerCase (v : value) : result string :=
  match v with
  | VStr s => Return (JSString.toLowerCase s)
  | VUndef | VNull => Throw (TypeError "Cannot read properties of undefined")
  | _ => Throw (TypeError "toLowerCase is not a function")
  end.

(** ** The environment: storage, console, and the manager's task list *)

(** [localStorage]: the stored items, and whether the browser lets the page
    read from it and write to it (a write fails when the quota is exceeded
    or storage is disabled). *)
Record Storage : Type := mkStorage {
  items : gmap string string;
  readable : bool;
  writable : bool
}.

Record world : Type := mkWorld {
  tasks : list obj;                  (* this.tasks *)
  localStorage : Storage;
  console : list (string * exn)      (* console.error(label, error) calls *)
}.

Definition with_tasks (ts : list obj) (w : world) : world :=
  mkWorld ts (localStorage w) (console w).

Definition with_storage (st : Storage) (w : world) : world :=
  mkWorld (tasks w) st (console w).

Definition with_log (label : string) (e : exn) (w : world) : world :=
  mkWorld (tasks w) (localStorage w) (console w ++ [(label, e)]).

(** Computations that read and write the world and may throw. *)
Definition M (A : Type) : Type := world -> result A * world.

Definition ret {A} (a : A) : M A := fun w => (Return a, w).

Definition throw {A} (e : exn) : M A := fun w => (Throw e, w).

Definition bind {A B} (m : M A) (k : A -> M B) : M B :=
  fun w =>
    match m w with
    | (Return a, w') => k a w'
    | (Throw e, w') => (Throw e, w')
    | (Outside, w') => (Outside, w')
    end.

(** [try { body } catch (error) { handler }]: effects of [body] before the
    throw stay in place. *)
Definition try_catch {A} (body : M A) (handler : exn -> M A) : M A :=
  fun w =>
    match body w with
    | (Return a, w') => (Return a, w')
    | (Throw e, w') => handler e w'
    | (Outside, w') => (Outside, w')
    end.

Definition lift {A} (r : result A) : M A := fun w => (r, w).

Declare Scope js_scope.
Delimit Scope js_scope with js.
Notation "x <- m ;; k" := (bind m (fun x => k))
  (at level 100, m at next level, right associativity) : js_scope.
Notation "m ;;; k" := (bind m (fun _ => k))
  (at level 100, right associativity) : js_scope.
Local Open Scope js_scope.

Definition get_tasks : M (list obj) := fun w => (Return (tasks w), w).

Definition set_tasks (ts : list obj) : M unit :=
  fun w => (Return tt, with_tasks ts w).

Definition console_error (label : string) (e : exn) : M unit :=
  fun w => (Return tt, with_log label e w).

(** [localStorage.getItem(key)]: [None] is JavaScript's [null]. *)
Definition localStorage_getItem (key : string) : M (option string) :=
  fun w =>
    if readable (localStorage w)
    then (Return (items (localStorage w) !! key), w)
    else (Throw (DOMException "SecurityError"), w).

Definition localStorage_setItem (key v : string) : M unit :=
  fun w =>
    let st := localStorage w in
    if writable st
    then (Return tt,
          with_storage (mkStorage (<[key := v]> (items st)) (readable st) (writable st)) w)
    else (Throw (DOMException "QuotaExceededError"), w).

(** [Array.prototype.filter] with a callback that may throw; the callback's
    result is read through ToBoolean. *)
Fixpoint Array_filter (f : obj -> result bool) (l : list obj) : result (list obj) :=
  match l with
  | [] => Return []
  | x :: l' =>
      match f x with
      | Throw e => Throw e
      | Outside => Outside
      | Return b =>
          match Array_filter f l' with
          | Throw e => Throw e
          | Outside => Outside
          | Return r => Return (if b then x :: r else r)
          end
      end
  end.

(** [{...a, ...b}]: the properties of [b] win. *)
Definition spread (a b : obj) : obj := b ∪ a.

(** [Object.fromEntries(Object.entries(o).filter(([_, value]) => value !== undefined))] *)
Definition defined_entries (o : obj) : obj :=
  filter (fun kv : string * value => kv.2 <> VUndef) o.

(** [task.id === taskId] *)
Definition has_id (taskId : value) (task : obj) : Prop := get task "id" = taskId.

Global Instance has_id_dec taskId task : Decision (has_id taskId task).
Proof. unfold has_id. apply _. Defined.

(** ** What [JSON.parse] makes of a text *)

(** The task list of the world is a list of flat records of primitive
    values, so that is the one kind of parsed value that is spelled out.
    Of the other values only what the code asks of them is kept: whether
    the value is falsy. *)
Inductive parsed : Type :=
  | TaskList (ts : list obj)   (* an array of flat records *)
  | SyntaxErr                  (* [JSON.parse] throws a [SyntaxError] *)
  | Falsy                      (* [null], [false], [0] or the empty string *)
  | Other.                     (* any other value *)

(** ** The [TaskManager] class of [taskManager.js] *)

Section TaskManager.

(** The browser's JSON codec. The written text is used only as the
    argument of [JSON_parse]. *)
Variable JSON_stringify : list obj -> string.
Variable JSON_parse : string -> parsed.

(** [this.tasks = JSON.parse(storedTasks)]: whatever value the text
    stands for becomes the task list; only an array of flat records is a
    list that the world can hold. *)
Definition call_JSON_parse (s : string) : M (list obj) :=
  match JSON_parse s with
  | TaskList ts => ret ts
  | SyntaxErr => throw (SyntaxError "Unexpected token in JSON")
  | Falsy | Other => lift Outside
  end.

Definition init : M unit :=
  try_catch
    (storedTasks <- localStorage_getItem "tasks" ;;
     match storedTasks with
     | Some s =>
         if truthy (VStr s)
         then (ts <- call_JSON_parse s ;; set_tasks ts)
         else set_tasks []
     | None => set_tasks []
     end)
    (fun error =>
       console_error "Failed to initialize tasks:" error ;;;
       set_tasks []).

(** [new TaskManager()]: [init] has no [await], so it has run to its end
    when the constructor returns. *)
Definition constructor : M unit :=
  set_tasks [] ;;; init.

Definition saveTasks : M unit :=
  try_catch
    (ts <- get_tasks ;;
     localStorage_setItem "tasks" (JSON_stringify ts))
    (fun error =>
       console_error "Failed to save tasks:" error ;;;
       throw (Error "Failed to save tasks")).

(** The object literal built by [addTask]; [now] is the value of
    [Date.now()] and [createdAt] that of [new Date().toISOString()]. *)
Definition newTask (now : Z) (createdAt : string)
    (title description priority : value) : obj :=
  {[ "id" := VNum now;
     "title" := title;
     "description" := description;
     "priority" := priority;
     "completed" := VBool false;
     "createdAt" := VStr createdAt ]}.

Definition addTask (now : Z) (createdAt : string)
    (title description priority : value) : M obj :=
  t <- lift (optional_trim title) ;;
  if negb (truthy t) then throw (Error "Task title cannot be empty") else
  title' <- lift (call_trim title) ;;
  d <- lift (optional_trim description) ;;
  let task := newTask now createdAt title' (nullish_coalesce d (VStr "")) priority in
  try_catch
    (ts <- get_tasks ;;
     set_tasks (ts ++ [task]) ;;;
     saveTasks ;;;
     ret task)
    (fun error =>
       console_error "Failed to add task:" error ;;;
       throw (Error "Failed to add task")).

Definition deleteTask (taskId : value) : M bool :=
  try_catch
    (ts <- get_tasks ;;
     match list_find (has_id taskId) ts with
     | None => ret false
     | Some _ =>
         set_tasks (filter (fun task => ~ has_id taskId task) ts) ;;;
         saveTasks ;;;
         ret true
     end)
    (fun error =>
       console_error "Failed to delete task:" error ;;;
       throw (Error "Failed to delete task")).

(** [this.tasks.map((task) => task.id === taskId ? updatedTask : task)] *)
Definition replace_by_id (taskId : value) (updatedTask : obj) (ts : list obj)
    : list obj :=
  map (fun task => if decide (has_id taskId task) then updatedTask else task) ts.

Definition updateTask (taskId : value) (updates : obj) : M obj :=
  try_catch
    (ts <- get_tasks ;;
     match list_find (has_id taskId) ts with
     | None => throw (Error "Task not found")
     | Some (_, taskToUpdate) =>
         let updatedTask := spread taskToUpdate (defined_entries updates) in
         set_tasks (replace_by_id taskId updatedTask ts) ;;;
         saveTasks ;;;
         ret updatedTask
     end)
    (fun error =>
       console_error "Failed to update task:" error ;;;
       throw (Error "Failed to update task")).

Definition toggleTaskCompletion (taskId : value) : M obj :=
  try_catch
    (ts <- get_tasks ;;
     match list_find (has_id taskId) ts with
     | None => throw (Error "Task not found")
     | Some (_, task) =>
         let updatedTask :=
           spread task {[ "completed" := VBool (negb (truthy (get task "completed"))) ]} in
         set_tasks (replace_by_id taskId updatedTask ts) ;;;
         saveTasks ;;;
         ret updatedTask
     end)
    (fun error =>
       console_error "Failed to toggle task completion:" error ;;;
       throw (Error "Failed to toggle task completion")).

(** *** Queries *)

(** What [filters[filterType]] can evaluate to: a function, or an object
    that is not callable. *)
Inductive property : Type :=
  | Callable (f : obj -> result bool)
  | NotCallable.

(** Properties that an object literal inherits from [Object.prototype],
    as they behave when [Array.prototype.filter] calls them with [this]
    undefined and a task as first argument: [Object(task)] is the task
    and [toString] gives "[object Undefined]", both truthy; the methods
    that start with ToObject(this) throw; [__proto__] is the prototype
    object itself. *)
Definition Object_prototype (k : string) : option property :=
  if bool_decide (k ∈ ["constructor"; "toString"])
  then Some (Callable (fun _ => Return true))
  else if bool_decide (k ∈ ["toLocaleString"; "valueOf"; "hasOwnProperty";
                            "isPrototypeOf"; "propertyIsEnumerable";
                            "__defineGetter__"; "__defineSetter__";
                            "__lookupGetter__"; "__lookupSetter__"])
  then Some (Callable (fun _ =>
               Throw (TypeError "Cannot convert undefined or null to object")))
  else if bool_decide (k = "__proto__") then Some NotCallable
  else None.

(** The [filters] object literal of [filterTasks], read at key [k]: its
    own five properties, then the prototype chain. *)
Definition filters (k : string) : option property :=
  if bool_decide (k = "completed")
  then Some (Callable (fun task => Return (truthy (get task "completed"))))
  else if bool_decide (k = "incomplete")
  then Some (Callable (fun task => Return (negb (truthy (get task "completed")))))
  else if bool_decide (k = "high-priority")
  then Some (Callable (fun task => Return (strict_eq (get task "priority") (VStr "high"))))
  else if bool_decide (k = "medium-priority")
  then Some (Callable (fun task => Return (strict_eq (get task "priority") (VStr "medium"))))
  else if bool_decide (k = "low-priority")
  then Some (Callable (fun task => Return (strict_eq (get task "priority") (VStr "low"))))
  else Object_prototype k.

Definition filterTasks (filterType : string) : M (list obj) :=
  ts <- get_tasks ;;
  match filters filterType with
  | Some (Callable f) => lift (Array_filter f ts)
  | Some NotCallable => throw (TypeError "object is not a function")
  | None => ret ts
  end.

(** [title.toLowerCase().includes(term) || description.toLowerCase().includes(term)] *)
Definition search_callback (term : string) (task : obj) : result bool :=
  match call_toLowerCase (get task "title") with
  | Throw e => Throw e
  | Outside => Outside
  | Return t =>
      if JSString.includes t term then Return true
      else match call_toLowerCase (get task "description") with
           | Throw e => Throw e
           | Outside => Outside
           | Return d => Return (JSString.includes d term)
           end
  end.

Definition searchTasks (searchTerm : value) : M (list obj) :=
  let searchTerm := match searchTerm with VUndef => VStr "" | v => v end in
  term <- lift (call_toLowerCase searchTerm) ;;
  ts <- get_tasks ;;
  lift (Array_filter (search_callback term) ts).

End TaskManager.

(** ** The older [TaskManager] class kept next to [taskManager.js]

    Same interface; it mutates the task objects and the array in place,
    uses string identifiers, and has no [try]/[catch] around its steps. *)

Module Legacy.
Section TaskManager.

Variable JSON_stringify : list obj -> string.
Variable JSON_parse : string -> parsed.

(** [this.tasks = JSON.parse(localStorage.getItem("tasks")) || []]:
    nothing stored is [null], which parses to [null]; a falsy value
    gives way to the empty list, any other value becomes the task
    list. *)
Definition constructor : M unit :=
  storedTasks <- localStorage_getItem "tasks" ;;
  match storedTasks with
  | None => set_tasks []
  | Some s =>
      match JSON_parse s with
      | TaskList ts => set_tasks ts
      | SyntaxErr => throw (SyntaxError "Unexpected token in JSON")
      | Falsy => set_tasks []
      | Other => lift Outside
      end
  end.

Definition saveTasks : M unit :=
  ts <- get_tasks ;;
  localStorage_setItem "tasks" (JSON_stringify ts).

Definition addTask (now : Z) (createdAt : string)
    (title description priority : value) : M obj :=
  if negb (truthy title) then throw (Error "Task title cannot be empty") else
  t <- lift (call_trim title) ;;
  if strict_eq t (VStr "") then throw (Error "Task title cannot be empty") else
  title' <- lift (call_trim title) ;;
  description' <- lift (call_trim description) ;;
  let task : obj :=
    {[ "id" := VStr (pretty now);
       "title" := title';
       "description" := description';
       "priority" := priority;
       "completed" := VBool false;
       "createdAt" := VStr createdAt ]} in
  ts <- get_tasks ;;
  set_tasks (ts ++ [task]) ;;;
  saveTasks ;;;
  ret task.

(** [this.tasks.splice(taskIndex, 1)] at the first match. *)
Definition deleteTask (taskId : value) : M bool :=
  ts <- get_tasks ;;
  match list_find (has_id taskId) ts with
  | Some (taskIndex, _) =>
      set_tasks (delete taskIndex ts) ;;;
      saveTasks ;;;
      ret true
  | None => ret false
  end.

(** [taskToUpdate[key] = updates[key]] for every own key of [updates]
    whose value is not [undefined]. An assignment writes the task's own
    property or makes one, except under the key ["__proto__"] when the
    task has no own property of that name: there it calls the setter
    that every object inherits, which makes no property, ignores a
    primitive value other than [null], and on [null] takes the prototype
    of the task away. *)
Definition assign_defined (taskToUpdate updates : obj) : result obj :=
  let entries := defined_entries updates in
  match entries !! "__proto__", taskToUpdate !! "__proto__" with
  | Some v, None =>
      if decide (v = VNull) then Outside
      else Return (spread taskToUpdate (delete "__proto__" entries))
  | _, _ => Return (spread taskToUpdate entries)
  end.

(** The matching object is changed in place, so the array holds the
    changed object at the same index. *)
Definition updateTask (taskId : value) (updates : obj) : M obj :=
  ts <- get_tasks ;;
  match list_find (has_id taskId) ts with
  | None => throw (Error "Task not found")
  | Some (i, taskToUpdate) =>
      task <- lift (assign_defined taskToUpdate updates) ;;
      set_tasks (<[i := task]> ts) ;;;
      saveTasks ;;;
      ret task
  end.

Definition toggleTaskCompletion (taskId : value) : M obj :=
  ts <- get_tasks ;;
  match list_find (has_id taskId) ts with
  | None => throw (Error "Task not found")
  | Some (i, task) =>
      let task' := <["completed" := VBool (negb (truthy (get task "completed")))]> task in
      set_tasks (<[i := task']> ts) ;;;
      saveTasks ;;;
      ret task'
  end.

(** The [switch] of the older [filterTasks]: only the five literal cases
    filter, everything else takes the [default] branch. *)
Definition filterTasks (filterType : string) : M (list obj) :=
  ts <- get_tasks ;;
  if bool_decide (filterType = "completed")
  then ret (filter (fun task => truthy (get task "completed") = true) ts)
  else if bool_decide (filterType = "incomplete")
  then ret (filter (fun task => truthy (get task "completed") = false) ts)
  else if bool_decide (filterType = "high-priority")
  then ret (filter (fun task => get task "priority" = VStr "high") ts)
  else if bool_decide (filterType = "medium-priority")
  then ret (filter (fun task => get task "priority" = VStr "medium") ts)
  else if bool_decide (filterType = "low-priority")
  then ret (filter (fun task => get task "priority" = VStr "low") ts)
  else ret ts.

(** [searchTasks(searchTerm)] without a default for the parameter. *)
Definition searchTasks (searchTerm : value) : M (list obj) :=
  term <- lift (call_toLowerCase searchTerm) ;;
  ts <- get_tasks ;;
  lift (Array_filter (search_callback term) ts).

End TaskManager.
End Legacy.

(** ** A JSON text codec for task lists

    The codec of the browser is a parameter of the classes above. This is
    one implementation of it for arrays of flat records: the printer omits
    properties whose value is [undefined], as [JSON.stringify] does, and the
    parser rejects text that is not such an array. It instantiates the
    parameter in the examples. *)

Module JSONText.

Definition dquote : ascii := ascii_of_N 34.
Definition backslash : ascii := ascii_of_N 92.

Definition hex_char (n : N) : ascii :=
  if (n <? 10)%N then ascii_of_N (48 + n) else ascii_of_N (87 + n).

Definition hex_value (c : ascii) : option N :=
  let n := N_of_ascii c in
  if ((48 <=? n) && (n <=? 57))%N then Some (n - 48)%N
  else if ((97 <=? n) && (n <=? 102))%N then Some (n - 87)%N
  else if ((65 <=? n) && (n <=? 70))%N then Some (n - 55)%N
  else None.

(** *** Printer *)

Definition escape_char (c : ascii) : string :=
  let n := N_of_ascii c in
  if Ascii.eqb c dquote then String backslash (String dquote "")
  else if Ascii.eqb c backslash then String backslash (String backslash "")
  else if (n =? 8)%N then String backslash "b"
  else if (n =? 9)%N then String backslash "t"
  else if (n =? 10)%N then String backslash "n"
  else if (n =? 12)%N then String backslash "f"
  else if (n =? 13)%N then String backslash "r"
  else if (n <? 32)%N
  then String backslash
         (String "u" (String "0" (String "0"
            (String (hex_char (n / 16)) (String (hex_char (n mod 16)) "")))))
  else String c "".

Fixpoint escape (s : string) : string :=
  match s with
  | EmptyString => EmptyString
  | String c s' => escape_char c +:+ escape s'
  end.

Definition print_string (s : string) : string :=
  String dquote (escape s +:+ String dquote "").

(** [None] for [undefined], which has no JSON text. *)
Definition print_value (v : value) : option string :=
  match v with
  | VUndef => None
  | VNull => Some "null"
  | VBool true => Some "true"
  | VBool false => Some "false"
  | VNum n => Some (pretty n)
  | VStr s => Some (print_string s)
  end.

Fixpoint join (sep : string) (l : list string) : string :=
  match l with
  | [] => ""
  | [x] => x
  | x :: l' => x +:+ sep +:+ join sep l'
  end.

Definition print_member (kv : string * value) : option string :=
  match print_value kv.2 with
  | Some t => Some (print_string kv.1 +:+ ":" +:+ t)
  | None => None
  end.

Definition print_object (o : obj) : string :=
  "{" +:+ join "," (omap print_member (map_to_list o)) +:+ "}".

Definition stringify (ts : list obj) : string :=
  "[" +:+ join "," (print_object <$> ts) +:+ "]".

(** *** Parser *)

Definition is_ws (c : ascii) : bool :=
  let n := N_of_ascii c in
  ((n =? 32) || (n =? 9) || (n =? 10) || (n =? 13))%N.

Fixpoint skip_ws (s : string) : string :=
  match s with
  | String c s' => if is_ws c then skip_ws s' else s
  | EmptyString => EmptyString
  end.

Definition unescape (c : ascii) : option ascii :=
  if Ascii.eqb c dquote then Some dquote
  else if Ascii.eqb c backslash then Some backslash
  else if Ascii.eqb c "/"%char then Some "/"%char
  else if Ascii.eqb c "b"%char then Some (ascii_of_N 8)
  else if Ascii.eqb c "t"%char then Some (ascii_of_N 9)
  else if Ascii.eqb c "n"%char then Some (ascii_of_N 10)
  else if Ascii.eqb c "f"%char then Some (ascii_of_N 12)
  else if Ascii.eqb c "r"%char then Some (ascii_of_N 13)
  else None.

Definition hex4 (a b c d : ascii) : option ascii :=
  match hex_value a, hex_value b, hex_value c, hex_value d with
  | Some 0%N, Some 0%N, Some h, Some l => Some (ascii_of_N (16 * h + l))
  | _, _, _, _ => None
  end.

(** The text after an opening quote: the string it denotes, and the text
    after the closing quote. *)
Fixpoint parse_string_body (s : string) : option (string * string) :=
  match s with
  | EmptyString => None
  | String c s' =>
      if Ascii.eqb c dquote then Some (EmptyString, s')
      else if Ascii.eqb c backslash then
        match s' with
        | String "u" (String h1 (String h2 (String h3 (String h4 rest)))) =>
            match hex4 h1 h2 h3 h4, parse_string_body rest with
            | Some x, Some (r, rest') => Some (String x r, rest')
            | _, _ => None
            end
        | String e rest =>
            match unescape e, parse_string_body rest with
            | Some x, Some (r, rest') => Some (String x r, rest')
            | _, _ => None
            end
        | EmptyString => None
        end
      else if (N_of_ascii c <? 32)%N then None
      else match parse_string_body s' with
           | Some (r, rest') => Some (String c r, rest')
           | None => None
           end
  end.

Definition digit_value (c : ascii) : option N :=
  let n := N_of_ascii c in
  if ((48 <=? n) && (n <=? 57))%N then Some (n - 48)%N else None.

Fixpoint parse_digits (acc : N) (s : string) : N * string :=
  match s with
  | String c s' =>
      match digit_value c with
      | Some d => parse_digits (10 * acc + d) s'
      | None => (acc, s)
      end
  | EmptyString => (acc, s)
  end.

(** An integer without leading zeros. *)
Definition parse_nat (s : string) : option (N * string) :=
  match s with
  | String c s' =>
      match digit_value c with
      | Some 0%N =>
          match s' with
          | String c' _ =>
              match digit_value c' with
              | Some _ => None
              | None => Some (0%N, s')
              end
          | EmptyString => Some (0%N, s')
          end
      | Some d => Some (parse_digits d s')
      | None => None
      end
  | EmptyString => None
  end.

(** The text after the keyword [kw], if [s] starts with it. *)
Fixpoint expect (kw : string) (s : string) : option string :=
  match kw, s with
  | EmptyString, _ => Some s
  | String a kw', String b s' => if Ascii.eqb a b then expect kw' s' else None
  | String _ _, EmptyString => None
  end.

Definition parse_value (s : string) : option (value * string) :=
  match s with
  | String c s' =>
      if Ascii.eqb c dquote then
        match parse_string_body s' with
        | Some (r, rest) => Some (VStr r, rest)
        | None => None
        end
      else if Ascii.eqb c "-"%char then
        match parse_nat s' with
        | Some (n, rest) => Some (VNum (- Z.of_N n), rest)
        | None => None
        end
      else if Ascii.eqb c "n"%char then
        rest ← expect "null" s; Some (VNull, rest)
      else if Ascii.eqb c "t"%char then
        rest ← expect "true" s; Some (VBool true, rest)
      else if Ascii.eqb c "f"%char then
        rest ← expect "false" s; Some (VBool false, rest)
      else
        match parse_nat s with
        | Some (n, rest) => Some (VNum (Z.of_N n), rest)
        | None => None
        end
  | EmptyString => None
  end.

(** One member ["key" : value] of an object. *)
Definition parse_member (s : string) : option ((string * value) * string) :=
  match skip_ws s with
  | String c s1 =>
      if Ascii.eqb c dquote then
        match parse_string_body s1 with
        | Some (k, s2) =>
            match skip_ws s2 with
            | String ":" s3 =>
                match parse_value (skip_ws s3) with
                | Some (v, s4) => Some ((k, v), s4)
                | None => None
                end
            | _ => None
            end
        | None => None
        end
      else None
  | EmptyString => None
  end.

(** The members after the first one, up to the closing brace; a later
    member with the same key wins. *)
Fixpoint parse_members (fuel : nat) (o : obj) (s : string) : option (obj * string) :=
  match fuel with
  | O => None
  | S fuel' =>
      match skip_ws s with
      | String "}" rest => Some (o, rest)
      | String "," rest =>
          match parse_member rest with
          | Some ((k, v), rest') => parse_members fuel' (<[k := v]> o) rest'
          | None => None
          end
      | _ => None
      end
  end.

Definition parse_object (s : string) : option (obj * string) :=
  match skip_ws s with
  | String "{" s1 =>
      match skip_ws s1 with
      | String "}" rest => Some (∅, rest)
      | _ =>
          match parse_member s1 with
          | Some ((k, v), rest) => parse_members (S (String.length rest)) {[ k := v ]} rest
          | None => None
          end
      end
  | _ => None
  end.

Fixpoint parse_elements (fuel : nat) (acc : list obj) (s : string)
    : option (list obj * string) :=
  match fuel with
  | O => None
  | S fuel' =>
      match skip_ws s with
      | String "]" rest => Some (acc, rest)
      | String "," rest =>
          match parse_object rest with
          | Some (o, rest') => parse_elements fuel' (acc ++ [o]) rest'
          | None => None
          end
      | _ => None
      end
  end.

Definition parse_array (s : string) : option (list obj * string) :=
  match skip_ws s with
  | String "[" s1 =>
      match skip_ws s1 with
      | String "]" rest => Some ([], rest)
      | _ =>
          match parse_object s1 with
          | Some (o, rest) => parse_elements (S (String.length rest)) [o] rest
          | None => None
          end
      end
  | _ => None
  end.

Definition parse (s : string) : option (list obj) :=
  match parse_array s with
  | Some (ts, rest) =>
      match skip_ws rest with
      | EmptyString => Some ts
      | _ => None
      end
  | None => None
  end.

(** The codec as the classes take it. The parser reads task lists; of
    the other texts the codec knows the empty text, which is not JSON,
    and the JSON of three falsy values. Every other text is left to
    [Other], which no class goes on from. *)
Definition JSON_parse (s : string) : parsed :=
  match parse s with
  | Some ts => TaskList ts
  | None =>
      if bool_decide (s = "") then SyntaxErr
      else if bool_decide (s ∈ ["null"; "false"; "0"]) then Falsy
      else Other
  end.

(** *** The shape of the printed text *)

(** The text does not go on with a digit. *)
Definition no_digit (s : string) : Prop :=
  match s with
  | String c _ => digit_value c = None
  | EmptyString => True
  end.

(** The JSON text of a defined value. *)
Definition value_text (v : value) : string := default "" (print_value v).

(** The JSON text of one member. *)
Definition member_text (kv : string * value) : string :=
  print_string kv.1 +:+ ":" +:+ value_text kv.2.

(** A member that [JSON.stringify] writes. *)
Definition defined_member (kv : string * value) : Prop := kv.2 <> VUndef.

(** The text of the members after the first: each with its comma. *)
Fixpoint members_tail (l : list (string * value)) : string :=
  match l with
  | [] => ""
  | kv :: l' => "," +:+ member_text kv +:+ members_tail l'
  end.

(** The object with one more member; a repeated key is overwritten. *)
Definition put (o : obj) (kv : string * value) : obj := <[kv.1 := kv.2]> o.

(** The text of the array elements after the first: each with its comma. *)
Fixpoint elements_tail (ts : list obj) : string :=
  match ts with
  | [] => ""
  | o :: ts' => "," +:+ print_object o +:+ elements_tail ts'
  end.

End JSONText.

(** ** Vocabulary of the specification *)

(** The identifiers of the tasks of a list, in list order. *)
Definition ids (ts : list obj) : list value := (fun task => get task "id") <$> ts.

(** No two tasks of the list share an identifier. *)
Definition unique_ids (ts : list obj) : Prop := NoDup (ids ts).

(** A title that is missing, empty, or white space only. *)
Definition blank (title : value) : Prop :=
  match title with
  | VUndef | VNull => True
  | VStr s => JSString.trim s = ""
  | _ => False
  end.

(** The stored description for a given argument: trimmed text, or the
    empty string when the argument is missing. *)
Definition trimmed_or_empty (description : value) : option string :=
  match description with
  | VStr d => Some (JSString.trim d)
  | VUndef | VNull => Some ""
  | _ => None
  end.

(** Title and description of the task are text. *)
Definition has_text (task : obj) : Prop :=
  (exists s, get task "title" = VStr s) /\ (exists d, get task "description" = VStr d).

Definition text_of (v : value) : string :=
  match v with
  | VStr s => s
  | _ => ""
  end.

(** Two code units are the same letter up to case. *)
Definition same_letter (a b : ascii) : Prop :=
  a = b
  \/ (JSString.is_upper (JSString.code a) = true /\
      JSString.code b = (JSString.code a + 32)%N)
  \/ (JSString.is_upper (JSString.code b) = true /\
      JSString.code a = (JSString.code b + 32)%N).

(** Equality of strings up to the case of each letter. *)
Inductive ci_equal : string -> string -> Prop :=
  | ci_equal_nil : ci_equal "" ""
  | ci_equal_cons a b s t :
      same_letter a b -> ci_equal s t -> ci_equal (String a s) (String b t).

(** [term] occurs in [s] as a substring, up to case. *)
Definition ci_substring (term s : string) : Prop :=
  exists pre mid post, s = pre +:+ mid +:+ post /\ ci_equal mid term.

(** A task matches a search term when its title or its description
    contains the term up to case. *)
Definition matches (term : string) (task : obj) : Prop :=
  ci_substring term (text_of (get task "title")) \/
  ci_substring term (text_of (get task "description")).


(** The calls a client can make on the store; an [OpAdd] carries the two
    clock readings the call makes. *)
Inductive op : Type :=
  | OpAdd (now : Z) (createdAt : string) (title description priority : value)
  | OpDelete (taskId : value)
  | OpUpdate (taskId : value) (updates : obj)
  | OpToggle (taskId : value)
  | OpFilter (filterType : string)
  | OpSearch (searchTerm : value).

Section Runs.

Variable JSON_stringify : list obj -> string.

(** The world after one call, whether it returned or threw. *)
Definition step (o : op) (w : world) : world :=
  match o with
  | OpAdd now createdAt title description priority =>
      (addTask JSON_stringify now createdAt title description priority w).2
  | OpDelete taskId => (deleteTask JSON_stringify taskId w).2
  | OpUpdate taskId updates => (updateTask JSON_stringify taskId updates w).2
  | OpToggle taskId => (toggleTaskCompletion JSON_stringify taskId w).2
  | OpFilter filterType => (filterTasks filterType w).2
  | OpSearch searchTerm => (searchTasks searchTerm w).2
  end.

Fixpoint run (os : list op) (w : world) : world :=
  match os with
  | [] => w
  | o :: os' => run os' (step o w)
  end.

(** A call that cannot create a second task with an identifier already
    in the store: an add whose clock reading is not an identifier in
    use, an update whose record leaves [id] alone or sets it to an
    identifier not in use. *)
Definition id_safe (o : op) (w : world) : Prop :=
  match o with
  | OpAdd now _ _ _ _ => VNum now ∉ ids (tasks w)
  | OpUpdate taskId updates =>
      get updates "id" = VUndef \/ get updates "id" = taskId \/
      get updates "id" ∉ ids (tasks w)
  | _ => True
  end.

Fixpoint id_safe_run (os : list op) (w : world) : Prop :=
  match os with
  | [] => True
  | o :: os' => id_safe o w /\ id_safe_run os' (step o w)
  end.

(** An update that leaves the identifier of its task alone. *)
Definition keeps_id (o : op) : Prop :=
  match o with
  | OpUpdate taskId updates =>
      get updates "id" = VUndef \/ get updates "id" = taskId
  | _ => True
  end.


End Runs.

(** The world after the task list has been written to the storage. *)
Definition persisted (JSON_stringify : list obj -> string) (w : world) : world :=
  with_storage
    (mkStorage (<["tasks" := JSON_stringify (tasks w)]> (items (localStorage w)))
               (readable (localStorage w)) (writable (localStorage w)))
    w.

(** The world after a write that the storage refused. *)
Definition save_failed (w : world) : world :=
  with_log "Failed to save tasks:" (DOMException "QuotaExceededError") w.

(** A page load: a new instance in a world that keeps the storage. *)
Definition fresh_instance (w : world) : world := mkWorld [] (localStorage w) [].

(** The two records read the same at every property. *)
Definition same_fields (a b : obj) : Prop := forall k, get a k = get b k.

(** Two adds one millisecond apart, then an update of the first task
    whose record carries the identifier of the second. *)
Definition adds_then_update_id : list op :=
  [ OpAdd 1700000000000 "2023-11-14T22:13:20.000Z" (VStr "Buy milk") (VStr "") (VStr "low");
    OpAdd 1700000000001 "2023-11-14T22:13:20.001Z" (VStr "Call home") (VStr "") (VStr "high");
    OpUpdate (VNum 1700000000000) {[ "id" := VNum 1700000000001 ]} ].

(** Two adds within the same millisecond. *)
Definition adds_same_millisecond : list op :=
  [ OpAdd 1700000000000 "2023-11-14T22:13:20.000Z" (VStr "Buy milk") (VStr "") (VStr "low");
    OpAdd 1700000000000 "2023-11-14T22:13:20.000Z" (VStr "Call home") (VStr "") (VStr "high") ].

(** An everyday session: two adds, a toggle, an edit of the priority, a
    delete. *)
Definition session : list op :=
  [ OpAdd 1700000000000 "2023-11-14T22:13:20.000Z" (VStr "  Buy milk ") VUndef (VStr "low");
    OpAdd 1700000060000 "2023-11-14T22:14:20.000Z" (VStr "Call home") (VStr " today ") (VStr "high");
    OpToggle (VNum 1700000000000);
    OpUpdate (VNum 1700000060000) {[ "priority" := VStr "medium"; "title" := VUndef ]};
    OpDelete (VNum 1700000000000) ].

(** An update record that carries a creation timestamp. *)
Definition backdate : obj := {[ "createdAt" := VStr "1999-12-31T23:59:59.000Z" ]}.

(** The names that reach neither a filter nor [Object.prototype]. *)
Definition plain_filterType (filterType : string) : Prop :=
  (filterType ∉ ["completed"; "incomplete"; "high-priority"; "medium-priority";
                 "low-priority"]) /\
  (filterType ∉ ["constructor"; "toString"; "toLocaleString"; "valueOf";
                 "hasOwnProperty"; "isPrototypeOf"; "propertyIsEnumerable";
                 "__defineGetter__"; "__defineSetter__"; "__lookupGetter__";
                 "__lookupSetter__"; "__proto__"]).

(** A task as the data model has it: text for title and description, a
    boolean for the completion flag. *)
Definition well_typed (task : obj) : Prop :=
  has_text task /\ exists b, get task "completed" = VBool b.

(** A call whose update record, if any, keeps tasks well typed: where it
    defines title, description or completion flag, it gives text, text, a
    boolean. *)
Definition typed_call (o : op) : Prop :=
  match o with
  | OpUpdate _ updates =>
      (get updates "title" = VUndef \/ exists s, get updates "title" = VStr s) /\
      (get updates "description" = VUndef \/ exists d, get updates "description" = VStr d) /\
      (get updates "completed" = VUndef \/ exists b, get updates "completed" = VBool b)
  | _ => True
  end.

(** The two records carry the same creation timestamp. *)
Definition same_createdAt (a b : obj) : Prop :=
  get a "createdAt" = get b "createdAt".


(** A store with no tasks, nothing persisted and a working storage. *)
Definition empty_world : world := mkWorld [] (mkStorage ∅ true true) [].

(** A task as [addTask("Buy milk", "", "low")] makes it, and a store that
    holds it. *)
Definition milk : obj :=
  newTask 1700000000000 "2023-11-14T22:13:20.000Z" (VStr "Buy milk") (VStr "") (VStr "low").

Definition milk_world : world := mkWorld [milk] (mkStorage ∅ true true) [].

(** ** Vocabulary for the storage and the start of the page *)

(** What is stored under the key is the text of the list in memory. *)
Definition in_sync (JSON_stringify : list obj -> string) (w : world) : Prop :=
  items (localStorage w) !! "tasks" = Some (JSON_stringify (tasks w)).

(** A first visit: nothing in memory, nothing stored under the key. *)
Definition first_visit (w : world) : Prop :=
  tasks w = [] /\ items (localStorage w) !! "tasks" = None.

(** The text under the key is one that [init] can start from: JSON for
    a task list, or not JSON at all. A storage that cannot be read, or
    holds nothing or the empty text under the key, is none of its
    concern. *)
Definition loadable (JSON_parse : string -> parsed) (st : Storage) : Prop :=
  readable st = true ->
  forall s, items st !! "tasks" = Some s -> s <> "" ->
            JSON_parse s = SyntaxErr \/ exists ts, JSON_parse s = TaskList ts.

(** The list that a storage holds: the parsed text under the key, and the
    empty list when the storage cannot be read, holds nothing or the empty
    text under the key, or holds text that does not parse. *)
Definition stored_list (JSON_parse : string -> parsed) (st : Storage)
    : list obj :=
  if readable st then
    match items st !! "tasks" with
    | Some s =>
        if truthy (VStr s)
        then match JSON_parse s with TaskList ts => ts | _ => [] end
        else []
    | None => []
    end
  else [].

(** The [DOMContentLoaded] handler up to the creation of the user
    interface: [new TaskManager()], whose constructor calls [init], and
    then [await taskManager.init()] once more. *)
Definition startup (JSON_parse : string -> parsed) : M unit :=
  constructor JSON_parse ;;; init JSON_parse.

(** * The page of [TaskManagerUI]

    The second class of [taskManager.js] connects the task store to the
    document. Its handlers are embedded as computations over the store
    and the part of the document that they write: the children of the
    task list, the edit dialogs appended to the body, the alerts shown,
    and the resets of the form. What the handlers read from the document
    at the time of an event (the form data, the class list and
    [data-id] of the clicked node, the current value of an input) is an
    argument of the handler. Which listener the browser calls for which
    event is not part of the embedding.

    A handler of the newer class is an [async] function whose [await]s
    wait for promises that are settled already, so it runs to its end
    before the next event is dispatched: one call is one step. *)

(** The text that a template literal puts in the place of [${v}]; for a
    number the decimal digits, as JavaScript gives them for every integer
    below 10^21. *)
Definition ToString (v : value) : string :=
  match v with
  | VUndef => "undefined"
  | VNull => "null"
  | VBool true => "true"
  | VBool false => "false"
  | VNum n => pretty n
  | VStr s => s
  end.

(** The [div] that [createTaskElement] returns. The markup assigned to
    its [innerHTML] is constant but for the places the template fills
    from the task: the record holds the class list of the [div] and the
    texts put in those places. *)
Record element : Type := mkElement {
  classList : list string;
  h3_text : string;               (* <h3>${task.title}</h3> *)
  p_text : string;                (* <p>${task.description}</p> *)
  small_text : string;            (* <small>Priority: ${task.priority}</small> *)
  button_data_id : string;   (* data-id="${task.id}" of the three buttons *)
  complete_btn_text : string      (* the label of the first button *)
}.

Definition createTaskElement (task : obj) : element :=
  mkElement
    ("task-item" :: if truthy (get task "completed") then ["task-completed"] else [])
    (ToString (get task "title"))
    (ToString (get task "description"))
    ("Priority: " +:+ ToString (get task "priority"))
    (ToString (get task "id"))
    (if truthy (get task "completed") then "Undo" else "Complete").

(** The dialog that [showEditModal] appends to the body: the texts the
    template takes from the task, and the options of the priority select
    that it marks [selected]. *)
Record modal : Type := mkModal {
  editTaskTitle : string;         (* value="${task.title}" *)
  editTaskDescription : string;   (* <textarea>${task.description}</textarea> *)
  selected : list string
}.

(** The node a click event reports as its target, as far as
    [handleTaskActions] reads it. *)
Record target : Type := mkTarget {
  target_classList : list string;
  data_id : option string         (* the attribute [data-id], if the node has one *)
}.

Record page : Type := mkPage {
  taskList : option (list element);   (* children of #taskList; [None]: no such element *)
  body : list modal;                  (* the dialogs appended to document.body *)
  alerts : list exn;                  (* alert(error.message), oldest first *)
  resets : nat                        (* calls of reset() on the add form *)
}.

(** The task manager and the document it is shown in. *)
Record browser : Type := mkBrowser {
  taskManager : world;
  document : page
}.

Definition with_taskManager (w : world) (b : browser) : browser :=
  mkBrowser w (document b).

Definition with_document (d : page) (b : browser) : browser :=
  mkBrowser (taskManager b) d.

Module UI.

(** Computations of the user interface. *)
Definition UI (A : Type) : Type := browser -> result A * browser.

Definition ret {A} (a : A) : UI A := fun b => (Return a, b).

Definition bind {A B} (m : UI A) (k : A -> UI B) : UI B :=
  fun b =>
    match m b with
    | (Return a, b') => k a b'
    | (Throw e, b') => (Throw e, b')
    | (Outside, b') => (Outside, b')
    end.

Definition try_catch {A} (body : UI A) (handler : exn -> UI A) : UI A :=
  fun b =>
    match body b with
    | (Return a, b') => (Return a, b')
    | (Throw e, b') => handler e b'
    | (Outside, b') => (Outside, b')
    end.

(** A call of a method of the task manager, awaited where it returns a
    promise: a rejection is thrown at the call. *)
Definition call {A} (m : M A) : UI A :=
  fun b => let '(r, w) := m (taskManager b) in (r, with_taskManager w b).

(** A call of an [async] method whose promise is dropped: the method
    runs, and neither its result nor its rejection reaches the caller. *)
Definition detached {A} (m : M A) : UI unit :=
  fun b =>
    match m (taskManager b) with
    | (Outside, w) => (Outside, with_taskManager w b)
    | (_, w) => (Return tt, with_taskManager w b)
    end.

(** [alert(error.message)] *)
Definition alert (error : exn) : UI unit :=
  fun b =>
    let d := document b in
    (Return tt, with_document (mkPage (taskList d) (body d) (alerts d ++ [error]) (resets d)) b).

(** [reset()] of the add form. *)
Definition reset : UI unit :=
  fun b =>
    let d := document b in
    (Return tt, with_document (mkPage (taskList d) (body d) (alerts d) (S (resets d))) b).

(** [document.body.appendChild(modal)] *)
Definition appendChild (m : modal) : UI unit :=
  fun b =>
    let d := document b in
    (Return tt, with_document (mkPage (taskList d) (body d ++ [m]) (alerts d) (resets d)) b).

(** [document.body.removeChild(modal)] for the dialog at a position of
    the body; a node that is not a child makes it throw. *)
Definition removeChild (i : nat) : UI unit :=
  fun b =>
    let d := document b in
    if decide (i < length (body d))%nat
    then (Return tt,
          with_document (mkPage (taskList d) (delete i (body d)) (alerts d) (resets d)) b)
    else (Throw (DOMException "NotFoundError"), b).

(** [innerHTML = ""] and then the elements appended in order. *)
Definition replaceChildren (es : list element) : UI unit :=
  fun b =>
    let d := document b in
    (Return tt, with_document (mkPage (Some es) (body d) (alerts d) (resets d)) b).

End UI.

Declare Scope ui_scope.
Delimit Scope ui_scope with ui.
Notation "x <- m ;; k" := (UI.bind m (fun x => k))
  (at level 100, m at next level, right associativity) : ui_scope.
Notation "m ;;; k" := (UI.bind m (fun _ => k))
  (at level 100, right associativity) : ui_scope.

(** The values of the options that [createFilterAndSearchUI] gives the
    filter select. *)
Definition taskFilter_options : list string :=
  [""; "completed"; "incomplete"; "high-priority"; "medium-priority"; "low-priority"].

(** The options of the priority select of the edit dialog. *)
Definition editTaskPriority_options : list string := ["low"; "medium"; "high"].

Section TaskManagerUI.

Import UI.
Local Open Scope ui_scope.

Variable JSON_stringify : list obj -> string.
Variable JSON_parse : string -> parsed.

(** [tasksToRender ?? this.taskManager.tasks]: [None] is the parameter's
    default [null]. *)
Definition renderTasks (tasksToRender : option (list obj)) : UI unit :=
  fun b =>
    match taskList (document b) with
    | None => (Return tt, b)
    | Some _ =>
        let tasks := default (tasks (taskManager b)) tasksToRender in
        replaceChildren (createTaskElement <$> tasks) b
    end.

(** [event.target.value] of the filter select is the argument. *)
Definition handleFilter (filterType : string) : UI unit :=
  filteredTasks <- call (filterTasks filterType) ;;
  renderTasks (Some filteredTasks).

Definition handleSearch (searchTerm : string) : UI unit :=
  searchResults <- call (searchTasks (VStr searchTerm)) ;;
  renderTasks (Some searchResults).

(** [taskData] is the object made from the entries of the form. *)
Definition handleAddTask (now : Z) (createdAt : string) (taskData : obj) : UI unit :=
  try_catch
    (call (addTask JSON_stringify now createdAt
             (get taskData "title") (get taskData "description")
             (get taskData "priority")) ;;;
     reset ;;;
     renderTasks None)
    (fun error => alert error).

(** The dialog is appended when a task has the identifier; the wiring of
    its listeners is left to the browser. *)
Definition showEditModal (taskId : value) : UI unit :=
  fun b =>
    match list_find (has_id taskId) (tasks (taskManager b)) with
    | None => (Return tt, b)
    | Some (_, task) =>
        appendChild
          (mkModal (ToString (get task "title")) (ToString (get task "description"))
             (filter (fun priority => get task "priority" = VStr priority)
                editTaskPriority_options))
          b
    end.

(** The submit listener that [showEditModal] creates for [taskId] and the
    dialog at position [modal] of the body; the three texts are the
    values of the dialog's fields when the form is submitted. *)
Definition handleSubmit (taskId : value) (modal : nat)
    (title description priority : string) : UI unit :=
  try_catch
    (call (updateTask JSON_stringify taskId
             {[ "title" := VStr title;
                "description" := VStr description;
                "priority" := VStr priority ]}) ;;;
     removeChild modal ;;;
     renderTasks None)
    (fun error => alert error).

(** [target.dataset.id] is text or [undefined]; the empty text is falsy
    as well. *)
Definition handleTaskActions (t : target) : UI unit :=
  match data_id t with
  | None => ret tt
  | Some taskId =>
      if negb (truthy (VStr taskId)) then ret tt else
      try_catch
        ((if bool_decide ("complete-btn" ∈ target_classList t)
          then call (toggleTaskCompletion JSON_stringify (VStr taskId)) ;;; ret tt
          else if bool_decide ("delete-btn" ∈ target_classList t)
          then call (deleteTask JSON_stringify (VStr taskId)) ;;; ret tt
          else if bool_decide ("edit-btn" ∈ target_classList t)
          then showEditModal (VStr taskId)
          else ret tt) ;;;
         renderTasks None)
        (fun error => alert error)
  end.

(** [new TaskManagerUI(taskManager)]: the constructor calls [init], which
    inserts the filter controls, adds the listeners and renders; each
    step is skipped when the element it needs is not there. *)
Definition TaskManagerUI_init : UI unit := renderTasks None.

(** The listener for [DOMContentLoaded]: the task manager is created and
    initialised once more, then the user interface is created. *)
Definition DOMContentLoaded : UI unit :=
  call (startup JSON_parse) ;;; TaskManagerUI_init.

End TaskManagerUI.

(** The user interface of the older file. Its handlers are plain
    functions: they do not wait for the promises of the [async] methods
    they call, and only [handleAddTask] has a [try]. *)
Module LegacyUI.
Section TaskManagerUI.

Import UI.
Local Open Scope ui_scope.

Variable JSON_stringify : list obj -> string.
Variable JSON_parse : string -> parsed.

(** [tasksToRender || this.taskManager.tasks]: an array is truthy, the
    empty one included. *)
Definition renderTasks (tasksToRender : option (list obj)) : UI unit :=
  fun b =>
    match taskList (document b) with
    | None => (Throw (TypeError "Cannot set properties of null"), b)
    | Some _ =>
        let tasks := default (tasks (taskManager b)) tasksToRender in
        replaceChildren (createTaskElement <$> tasks) b
    end.

Definition handleFilter (filterType : string) : UI unit :=
  filteredTasks <- call (Legacy.filterTasks filterType) ;;
  renderTasks (Some filteredTasks).

Definition handleSearch (searchTerm : string) : UI unit :=
  searchResults <- call (Legacy.searchTasks (VStr searchTerm)) ;;
  renderTasks (Some searchResults).

(** The three texts are the values of the inputs [taskTitle],
    [taskDescription] and [taskPriority]. *)
Definition handleAddTask (now : Z) (createdAt : string)
    (title description priority : string) : UI unit :=
  try_catch
    (detached (Legacy.addTask JSON_stringify now createdAt
                 (VStr title) (VStr description) (VStr priority)) ;;;
     reset ;;;
     renderTasks None)
    (fun error => alert error).

(** [task.title] of the template throws when no task has the
    identifier. *)
Definition showEditModal (taskId : value) : UI unit :=
  fun b =>
    match list_find (has_id taskId) (tasks (taskManager b)) with
    | None => (Throw (TypeError "Cannot read properties of undefined"), b)
    | Some (_, task) =>
        appendChild
          (mkModal (ToString (get task "title")) (ToString (get task "description"))
             (filter (fun priority => get task "priority" = VStr priority)
                editTaskPriority_options))
          b
    end.

(** The submit listener of the dialog. *)
Definition handleSubmit (taskId : value) (modal : nat)
    (title description priority : string) : UI unit :=
  detached (Legacy.updateTask JSON_stringify taskId
              {[ "title" := VStr title;
                 "description" := VStr description;
                 "priority" := VStr priority ]}) ;;;
  removeChild modal ;;;
  renderTasks None.

(** [target.getAttribute("data-id")] is text or [null]; the three tests
    are separate [if]s. *)
Definition handleTaskActions (t : target) : UI unit :=
  let taskId := match data_id t with Some s => VStr s | None => VNull end in
  (if bool_decide ("complete-btn" ∈ target_classList t)
   then call (Legacy.toggleTaskCompletion JSON_stringify taskId) ;;; renderTasks None
   else ret tt) ;;;
  (if bool_decide ("delete-btn" ∈ target_classList t)
   then detached (Legacy.deleteTask JSON_stringify taskId) ;;; renderTasks None
   else ret tt) ;;;
  (if bool_decide ("edit-btn" ∈ target_classList t)
   then showEditModal taskId
   else ret tt).

(** [new TaskManagerUI(taskManager)]: the filter controls are inserted
    before the task list, which has to be there, and the list is
    rendered. The add form, to which the constructor adds a listener, is
    taken to be in the document. *)
Definition TaskManagerUI_constructor : UI unit :=
  fun b =>
    match taskList (document b) with
    | None => (Throw (TypeError "Cannot read properties of null"), b)
    | Some _ => renderTasks None b
    end.

Definition DOMContentLoaded : UI unit :=
  call (Legacy.constructor JSON_parse) ;;; TaskManagerUI_constructor.

End TaskManagerUI.
End LegacyUI.

(** The page shows the task list of the manager. *)
Definition shows_tasks (b : browser) : Prop :=
  taskList (document b) = Some (createTaskElement <$> tasks (taskManager b)).

(** Every identifier of the list is a number, as [addTask] of the newer
    class makes them. *)
Definition numeric_ids (ts : list obj) : Prop :=
  Forall (fun task => exists n, get task "id" = VNum n) ts.

(** What an option of the filter select stands for. *)
Definition option_selects (v : string) (task : obj) : Prop :=
  v = ""
  \/ (v = "completed" /\ truthy (get task "completed") = true)
  \/ (v = "incomplete" /\ truthy (get task "completed") = false)
  \/ (v = "high-priority" /\ get task "priority" = VStr "high")
  \/ (v = "medium-priority" /\ get task "priority" = VStr "medium")
  \/ (v = "low-priority" /\ get task "priority" = VStr "low").

(** The task that the older [addTask] makes. *)
Definition Legacy_newTask (now : Z) (createdAt : string)
    (title description priority : value) : obj :=
  {[ "id" := VStr (pretty now); "title" := title; "description" := description;
     "priority" := priority; "completed" := VBool false;
     "createdAt" := VStr createdAt ]}.

(** A page with an empty task list, no dialog and no alert. *)
Definition blank_page : page := mkPage (Some []) [] [] 0.

(** The task that the older [addTask("Buy milk", "", "low")] makes, and a
    store that holds it. *)
Definition old_milk : obj :=
  Legacy_newTask 1700000000000 "2023-11-14T22:13:20.000Z"
    (VStr "Buy milk") (VStr "") (VStr "low").

Definition old_milk_world : world := mkWorld [old_milk] (mkStorage ∅ true true) [].

(** An empty store over a storage that refuses writes. *)
Definition full_world : world := mkWorld [] (mkStorage ∅ true false) [].

(** A later visit: nothing in memory yet, and the storage holds the text
    that [saveTasks] wrote for the one task. *)
Definition saved_milk_world : world :=
  fresh_instance (persisted JSONText.stringify milk_world).

(** A storage that holds the JSON text of [null] under the key. *)
Definition null_world : world :=
  mkWorld [] (mkStorage {[ "tasks" := "null" ]} true true) [].

(** A second task as the older [addTask("Call home", "today", "high")]
    makes it, and a store with both. *)
Definition old_call : obj :=
  Legacy_newTask 1700000060000 "2023-11-14T22:14:20.000Z"
    (VStr "Call home") (VStr "today") (VStr "high").

Definition old_two_world : world :=
  mkWorld [old_milk; old_call] (mkStorage ∅ true true) [].

(** * Properties *)

(** ** Strings *)

Section StringFacts.

Import JSString.

Lemma app_cons (a : ascii) (s t : string) : String a s +:+ t = String a (s +:+ t).
Proof. reflexivity. Qed.

Lemma app_empty_r (s : string) : s +:+ "" = s.
Proof. induction s as [|a s IH]; [done|]. by rewrite app_cons, IH. Qed.

Lemma app_assoc' (s t u : string) : (s +:+ t) +:+ u = s +:+ t +:+ u.
Proof. induction s as [|a s IH]; [done|]. by rewrite !app_cons, IH. Qed.

Lemma startsWith_spec (s t : string) :
  startsWith s t = true <-> exists post, s = t +:+ post.
Proof.
  revert s. induction t as [|b t IH]; intros s.
  - destruct s; simpl; split; eauto.
  - destruct s as [|a s]; simpl.
    + split; [done|]. by intros [post Hp].
    + rewrite andb_true_iff, bool_decide_eq_true, IH. split.
      * intros [-> [post ->]]. by exists post.
      * intros [post Hp]. rewrite app_cons in Hp. injection Hp as -> ->. eauto.
Qed.

Lemma includes_spec (s t : string) :
  includes s t = true <-> exists pre post, s = pre +:+ t +:+ post.
Proof.
  induction s as [|a s IH].
  - cbn [includes]. rewrite orb_false_r, startsWith_spec. split.
    + intros [post Hp]. by exists "", post.
    + intros [pre [post Hp]]. destruct pre; [by exists post|done].
  - cbn [includes]. rewrite orb_true_iff, startsWith_spec, IH. split.
    + intros [[post Hp]|[pre [post Hp]]].
      * by exists "", post.
      * exists (String a pre), post. by rewrite app_cons, Hp.
    + intros [[|c pre] [post Hp]].
      * left. by exists post.
      * right. rewrite app_cons in Hp. injection Hp as -> ->. eauto.
Qed.

Lemma includes_empty (s : string) : includes s "" = true.
Proof. apply includes_spec. by exists "", s. Qed.

Lemma toLowerCase_app (s t : string) :
  toLowerCase (s +:+ t) = toLowerCase s +:+ toLowerCase t.
Proof.
  induction s as [|a s IH]; [done|].
  rewrite app_cons. simpl. by rewrite IH.
Qed.

(** Lower-casing works unit by unit, so a split of the result comes from
    a split of the argument. *)
Lemma toLowerCase_split (x y1 y2 : string) :
  toLowerCase x = y1 +:+ y2 ->
  exists x1 x2, x = x1 +:+ x2 /\ toLowerCase x1 = y1 /\ toLowerCase x2 = y2.
Proof.
  revert x. induction y1 as [|b y1 IH]; intros x Hx.
  - by exists "", x.
  - destruct x as [|a x]; [done|].
    rewrite app_cons in Hx. simpl in Hx. injection Hx as Hb Hx.
    destruct (IH _ Hx) as (x1 & x2 & -> & <- & <-).
    exists (String a x1), x2. simpl. by rewrite Hb.
Qed.

Lemma lower_code_bounded (n : N) : (n < 256)%N -> (lower_code n < 256)%N.
Proof.
  unfold lower_code, is_upper. intros Hn.
  destruct (N.leb_spec 65 n), (N.leb_spec n 90), (N.leb_spec 192 n),
    (N.leb_spec n 222), (N.eqb_spec n 215); simpl; lia.
Qed.

Lemma lower_char_code (c : ascii) : code (lower_char c) = lower_code (code c).
Proof.
  unfold lower_char, code. apply N_ascii_embedding, lower_code_bounded, N_ascii_bounded.
Qed.

Lemma code_inj (a b : ascii) : code a = code b -> a = b.
Proof.
  unfold code. intros H.
  by rewrite <-(ascii_N_embedding a), <-(ascii_N_embedding b), H.
Qed.

(** [toLowerCase] identifies exactly the two cases of one letter. *)
Lemma lower_char_same_letter (a b : ascii) :
  lower_char a = lower_char b <-> same_letter a b.
Proof.
  split.
  - intros H. apply (f_equal code) in H. rewrite !lower_char_code in H.
    unfold same_letter. revert H. unfold lower_code.
    destruct (is_upper (code a)) eqn:Ha, (is_upper (code b)) eqn:Hb; intros H.
    + left. apply code_inj. lia.
    + right. left. split; [done|lia].
    + right. right. split; [done|lia].
    + left. by apply code_inj.
  - intros [->|[[Hu Hc]|[Hu Hc]]]; [done| |]; apply code_inj;
      rewrite !lower_char_code; unfold lower_code; rewrite Hu, Hc;
      revert Hu; unfold is_upper;
      [ generalize (code a) | generalize (code b) ]; intros n Hu;
      destruct (N.leb_spec 65 n), (N.leb_spec n 90), (N.leb_spec 192 n),
        (N.leb_spec n 222), (N.eqb_spec n 215),
        (N.leb_spec 65 (n + 32)), (N.leb_spec (n + 32) 90),
        (N.leb_spec 192 (n + 32)), (N.leb_spec (n + 32) 222),
        (N.eqb_spec (n + 32) 215); simpl in *; try done; lia.
Qed.

Lemma ci_equal_lower (s t : string) :
  ci_equal s t <-> toLowerCase s = toLowerCase t.
Proof.
  split.
  - induction 1 as [|a b s t Hab _ IH]; [done|].
    simpl. f_equal; [by apply lower_char_same_letter|done].
  - revert t. induction s as [|a s IH]; intros [|b t] H; simpl in H; try done.
    + constructor.
    + injection H as Hab H. constructor; [by apply lower_char_same_letter|auto].
Qed.

(** The search test of the code decides the substring relation up to
    case. *)
Lemma includes_ci_substring (s term : string) :
  includes (toLowerCase s) (toLowerCase term) = true <-> ci_substring term s.
Proof.
  rewrite includes_spec. unfold ci_substring. split.
  - intros (pre & post & H).
    apply toLowerCase_split in H as (x1 & x23 & -> & _ & H).
    apply toLowerCase_split in H as (x2 & x3 & -> & H & _).
    exists x1, x2, x3. split; [done|]. by apply ci_equal_lower.
  - intros (pre & mid & post & -> & H). apply ci_equal_lower in H.
    exists (toLowerCase pre), (toLowerCase post).
    by rewrite !toLowerCase_app, H.
Qed.

Lemma trimEnd_empty (s : string) : trimEnd s = "" <-> all_white s = true.
Proof.
  induction s as [|c s IH]; simpl; [done|].
  destruct (trimEnd s) eqn:Ht.
  - destruct (is_white c); simpl; [tauto|]. split; done.
  - split; [done|]. intros [_ H]%andb_true_iff. by apply IH in H.
Qed.

Lemma trimStart_all_white (s : string) :
  all_white (trimStart s) = all_white s.
Proof.
  induction s as [|c s IH]; simpl; [done|].
  destruct (is_white c) eqn:Hc; simpl; [done|by rewrite Hc].
Qed.

Lemma trimStart_spec (s : string) :
  exists pre, s = pre +:+ trimStart s /\ all_white pre = true /\
              starts_white (trimStart s) = false.
Proof.
  induction s as [|c s (pre & Hs & Hpre & Hstart)]; [by exists ""|].
  simpl. destruct (is_white c) eqn:Hc.
  - exists (String c pre). rewrite app_cons, <-Hs. simpl. by rewrite Hc.
  - exists "". simpl. by rewrite Hc.
Qed.

Lemma trimEnd_spec (s : string) :
  exists post, s = trimEnd s +:+ post /\ all_white post = true /\
               ends_white (trimEnd s) = false.
Proof.
  induction s as [|c s (post & Hs & Hpost & Hend)]; [by exists ""|].
  simpl. destruct (trimEnd s) as [|a r] eqn:Ht.
  - assert (post = s) as -> by (symmetry; exact Hs). destruct (is_white c) eqn:Hc.
    + exists (String c s). simpl. by rewrite Hc.
    + exists s. simpl. by rewrite Hc.
  - exists post. by rewrite app_cons, <-Hs.
Qed.

Lemma trimEnd_starts_white (s : string) :
  starts_white s = false -> starts_white (trimEnd s) = false.
Proof.
  destruct s as [|c s]; [done|]. simpl. intros Hc.
  destruct (trimEnd s); simpl; by rewrite ?Hc.
Qed.

(** What [trim] does: it cuts a run of white space off each end and
    leaves text that neither starts nor ends with white space. *)
Lemma trim_spec (s : string) :
  exists pre post,
    s = pre +:+ trim s +:+ post /\
    all_white pre = true /\ all_white post = true /\
    starts_white (trim s) = false /\ ends_white (trim s) = false.
Proof.
  destruct (trimStart_spec s) as (pre & Hs & Hpre & Hstart).
  destruct (trimEnd_spec (trimStart s)) as (post & Ht & Hpost & Hend).
  exists pre, post. unfold trim. split_and!; [|done|done| |done].
  - by rewrite <-Ht.
  - by apply trimEnd_starts_white.
Qed.

(** The trimmed text is empty exactly for text made of white space. *)
Lemma trim_empty (s : string) : trim s = "" <-> all_white s = true.
Proof. unfold trim. by rewrite trimEnd_empty, trimStart_all_white. Qed.

End StringFacts.

(** ** Objects *)

Lemma get_spread (a b : obj) (k : string) :
  get (spread a b) k = match b !! k with Some v => v | None => get a k end.
Proof.
  unfold get, spread. destruct (b !! k) as [v|] eqn:Hb.
  - by erewrite lookup_union_Some_l.
  - by rewrite lookup_union_r.
Qed.

Lemma lookup_defined_entries (o : obj) (k : string) :
  defined_entries o !! k =
    match o !! k with
    | Some v => if decide (v = VUndef) then None else Some v
    | None => None
    end.
Proof.
  unfold defined_entries. destruct (o !! k) as [v|] eqn:Ho.
  - destruct (decide (v = VUndef)) as [->|Hv].
    + apply map_lookup_filter_None. right. intros x Hx. simpl. naive_solver.
    + by apply map_lookup_filter_Some.
  - apply map_lookup_filter_None. by left.
Qed.

(** Dropping the [undefined]-valued properties changes no property read. *)
Lemma get_defined_entries (o : obj) (k : string) :
  get (defined_entries o) k = get o k.
Proof.
  unfold get. rewrite lookup_defined_entries.
  destruct (o !! k) as [v|]; [|done]. by destruct (decide (v = VUndef)) as [->|].
Qed.

(** The merge of [updateTask], property by property: a defined value of
    the record replaces the task's, anything else leaves it. *)
Lemma get_merge (task updates : obj) (k : string) :
  get (spread task (defined_entries updates)) k =
    if decide (get updates k = VUndef) then get task k else get updates k.
Proof.
  rewrite get_spread, lookup_defined_entries.
  assert (Hg : get updates k = default VUndef (updates !! k)) by done.
  destruct (updates !! k) as [v|]; simpl in Hg; rewrite Hg.
  - by destruct (decide (v = VUndef)).
  - by rewrite decide_True.
Qed.

Lemma get_toggled (task : obj) (b : bool) (k : string) :
  get (spread task {[ "completed" := VBool b ]}) k =
    if decide (k = "completed") then VBool b else get task k.
Proof.
  rewrite get_spread. destruct (decide (k = "completed")) as [->|Hk].
  - by rewrite lookup_singleton_eq.
  - by rewrite lookup_singleton_ne.
Qed.

(** ** Running the methods *)

Section RunEquations.

Variable JSON_stringify : list obj -> string.
Variable JSON_parse : string -> parsed.

Lemma saveTasks_run (w : world) :
  saveTasks JSON_stringify w =
    if writable (localStorage w)
    then (Return tt, persisted JSON_stringify w)
    else (Throw (Error "Failed to save tasks"), save_failed w).
Proof.
  unfold saveTasks, try_catch, bind, get_tasks, localStorage_setItem. simpl.
  destruct (writable (localStorage w)) eqn:Hw; [|done].
  unfold persisted. by rewrite Hw.
Qed.

Lemma addTask_run now createdAt (title description priority : value) (w : world) :
  addTask JSON_stringify now createdAt title description priority w =
    match optional_trim title with
    | Throw e => (Throw e, w)
    | Outside => (Outside, w)
    | Return t =>
        if negb (truthy t) then (Throw (Error "Task title cannot be empty"), w)
        else match call_trim title, optional_trim description with
             | Throw e, _ => (Throw e, w)
             | Outside, _ => (Outside, w)
             | Return _, Throw e => (Throw e, w)
             | Return _, Outside => (Outside, w)
             | Return title', Return d =>
                 let task := newTask now createdAt title'
                               (nullish_coalesce d (VStr "")) priority in
                 let w1 := with_tasks (tasks w ++ [task]) w in
                 if writable (localStorage w)
                 then (Return task, persisted JSON_stringify w1)
                 else (Throw (Error "Failed to add task"),
                       with_log "Failed to add task:" (Error "Failed to save tasks")
                         (save_failed w1))
             end
    end.
Proof.
  unfold addTask, bind, lift. destruct (optional_trim title) as [t|e|]; [|done..].
  destruct (negb (truthy t)); [done|].
  destruct (call_trim title) as [title'|e|]; [|done..].
  destruct (optional_trim description) as [d|e|]; [|done..].
  unfold try_catch, bind, get_tasks, set_tasks. rewrite saveTasks_run. simpl.
  by destruct (writable (localStorage w)).
Qed.

Lemma deleteTask_run (taskId : value) (w : world) :
  deleteTask JSON_stringify taskId w =
    match list_find (has_id taskId) (tasks w) with
    | None => (Return false, w)
    | Some _ =>
        let w1 := with_tasks (filter (fun task => ~ has_id taskId task) (tasks w)) w in
        if writable (localStorage w)
        then (Return true, persisted JSON_stringify w1)
        else (Throw (Error "Failed to delete task"),
              with_log "Failed to delete task:" (Error "Failed to save tasks")
                (save_failed w1))
    end.
Proof.
  unfold deleteTask, try_catch, bind, get_tasks. simpl.
  destruct (list_find (has_id taskId) (tasks w)); [|done].
  unfold set_tasks. rewrite saveTasks_run. simpl.
  by destruct (writable (localStorage w)).
Qed.

Lemma updateTask_run (taskId : value) (updates : obj) (w : world) :
  updateTask JSON_stringify taskId updates w =
    match list_find (has_id taskId) (tasks w) with
    | None =>
        (Throw (Error "Failed to update task"),
         with_log "Failed to update task:" (Error "Task not found") w)
    | Some (_, taskToUpdate) =>
        let updatedTask := spread taskToUpdate (defined_entries updates) in
        let w1 := with_tasks (replace_by_id taskId updatedTask (tasks w)) w in
        if writable (localStorage w)
        then (Return updatedTask, persisted JSON_stringify w1)
        else (Throw (Error "Failed to update task"),
              with_log "Failed to update task:" (Error "Failed to save tasks")
                (save_failed w1))
    end.
Proof.
  unfold updateTask, try_catch, bind, get_tasks. simpl.
  destruct (list_find (has_id taskId) (tasks w)) as [[i t]|]; [|done].
  unfold set_tasks. rewrite saveTasks_run. simpl.
  by destruct (writable (localStorage w)).
Qed.

Lemma toggleTaskCompletion_run (taskId : value) (w : world) :
  toggleTaskCompletion JSON_stringify taskId w =
    match list_find (has_id taskId) (tasks w) with
    | None =>
        (Throw (Error "Failed to toggle task completion"),
         with_log "Failed to toggle task completion:" (Error "Task not found") w)
    | Some (_, task) =>
        let updatedTask :=
          spread task {[ "completed" := VBool (negb (truthy (get task "completed"))) ]} in
        let w1 := with_tasks (replace_by_id taskId updatedTask (tasks w)) w in
        if writable (localStorage w)
        then (Return updatedTask, persisted JSON_stringify w1)
        else (Throw (Error "Failed to toggle task completion"),
              with_log "Failed to toggle task completion:"
                (Error "Failed to save tasks") (save_failed w1))
    end.
Proof.
  unfold toggleTaskCompletion, try_catch, bind, get_tasks. simpl.
  destruct (list_find (has_id taskId) (tasks w)) as [[i t]|]; [|done].
  unfold set_tasks. rewrite saveTasks_run. simpl.
  by destruct (writable (localStorage w)).
Qed.

End RunEquations.

(** ** Adding a task *)

Section AddTask.

Variable JSON_stringify : list obj -> string.

Lemma newTask_fields now createdAt (title description priority : value) :
  let task := newTask now createdAt title description priority in
  get task "id" = VNum now /\ get task "title" = title /\
  get task "description" = description /\ get task "priority" = priority /\
  get task "completed" = VBool false /\ get task "createdAt" = VStr createdAt.
Proof. repeat split; reflexivity. Qed.

(** A call whose storage write is refused still appends the task in
    memory, and throws the generic failure of [addTask]. *)
Lemma addTask_write_refused now createdAt (s : string) (description priority : value)
    (d : string) (w : world) :
  JSString.trim s <> "" ->
  trimmed_or_empty description = Some d ->
  writable (localStorage w) = false ->
  let task := newTask now createdAt (VStr (JSString.trim s)) (VStr d) priority in
  exists w',
    addTask JSON_stringify now createdAt (VStr s) description priority w =
      (Throw (Error "Failed to add task"), w') /\
    tasks w' = tasks w ++ [task].
Proof.
  intros Hs Hd Hw. rewrite addTask_run. simpl.
  rewrite bool_decide_eq_false_2 by done. simpl.
  destruct description as [| |?|?|x]; simplify_eq/=; rewrite Hw; eauto.
Qed.

(** C2. [addTask] with a missing, empty or white-space title throws the
    validation error "Task title cannot be empty" and changes nothing;
    with any other title text, a description that is text or missing, and
    a storage that takes the write, it appends exactly one task to the
    end of the list and returns it: identifier from the clock, trimmed
    title, trimmed-or-empty description, the given priority,
    [completed = false] and the creation timestamp read in the call. *)
Theorem addTask_spec now createdAt (title description priority : value) (w : world) :
  (blank title ->
     addTask JSON_stringify now createdAt title description priority w =
       (Throw (Error "Task title cannot be empty"), w))
  /\ (forall s d,
        title = VStr s -> JSString.trim s <> "" ->
        trimmed_or_empty description = Some d ->
        writable (localStorage w) = true ->
        exists task w',
          addTask JSON_stringify now createdAt title description priority w =
            (Return task, w') /\
          tasks w' = tasks w ++ [task] /\
          task = newTask now createdAt (VStr (JSString.trim s)) (VStr d) priority /\
          get task "id" = VNum now /\
          get task "title" = VStr (JSString.trim s) /\
          get task "description" = VStr d /\
          get task "priority" = priority /\
          get task "completed" = VBool false /\
          get task "createdAt" = VStr createdAt).
Proof.
  split.
  - intros Hb. rewrite addTask_run.
    destruct title as [| |?|?|s]; simpl in Hb; try done.
    simpl. by rewrite Hb.
  - intros s d -> Hs Hd Hw. rewrite addTask_run. simpl.
    rewrite bool_decide_eq_false_2 by done. simpl.
    eexists _, _.
    destruct description as [| |?|?|x]; simplify_eq/=; rewrite Hw;
      (split; [reflexivity|]); repeat split.
Qed.

End AddTask.

(** ** Lists of tasks *)

Lemma elem_of_ids (taskId : value) (ts : list obj) :
  taskId ∈ ids ts <-> exists task, task ∈ ts /\ has_id taskId task.
Proof.
  unfold ids, has_id. rewrite list_elem_of_fmap. split.
  - intros (task & -> & Ht). eauto.
  - intros (task & Ht & <-). eauto.
Qed.

Lemma list_find_has_id_None (taskId : value) (ts : list obj) :
  list_find (has_id taskId) ts = None <-> taskId ∉ ids ts.
Proof.
  rewrite list_find_None, elem_of_ids, Forall_forall. split.
  - intros H (task & Ht & Hid). by apply (H task).
  - intros H task Ht Hid. apply H. eauto.
Qed.

Lemma filter_all {A} (P : A -> Prop) `{!forall x, Decision (P x)} (l : list A) :
  Forall P l -> filter P l = l.
Proof.
  induction 1 as [|x l Hx _ IH]; [done|]. by rewrite filter_cons_True, IH.
Qed.

Lemma filter_ext_in {A} (P Q : A -> Prop)
    `{!forall x, Decision (P x)} `{!forall x, Decision (Q x)} (l : list A) :
  Forall (fun x => P x <-> Q x) l -> filter P l = filter Q l.
Proof.
  induction 1 as [|x l Hx _ IH]; [done|].
  rewrite !filter_cons, IH.
  destruct (decide (P x)), (decide (Q x)); tauto.
Qed.

Lemma ids_filter_sublist (P : obj -> Prop) `{!forall x, Decision (P x)} (ts : list obj) :
  sublist (ids (filter P ts)) (ids ts).
Proof. unfold ids. apply fmap_sublist, sublist_filter. Qed.

(** With unique identifiers, filtering an identifier out removes exactly
    the one task that carries it. *)
Lemma filter_out_unique (taskId : value) (ts : list obj) (i : nat) (task : obj) :
  unique_ids ts -> ts !! i = Some task -> has_id taskId task ->
  filter (fun t => ~ has_id taskId t) ts = delete i ts.
Proof.
  unfold unique_ids. revert i. induction ts as [|x ts IH]; intros i Hnd Hi Hid; [done|].
  cbn [ids fmap list_fmap] in Hnd. apply NoDup_cons in Hnd as [Hx Hnd].
  destruct i as [|i]; simpl in Hi.
  - injection Hi as ->. rewrite filter_cons_False by (intros H; by apply H).
    simpl. apply filter_all, Forall_forall. intros t Ht Hid'.
    apply Hx. unfold has_id in Hid. rewrite Hid.
    apply elem_of_ids. eauto.
  - rewrite filter_cons_True.
    + simpl. f_equal. eauto.
    + intros Hid'. apply Hx. unfold has_id in Hid'. rewrite Hid'.
      apply elem_of_ids. exists task. split; [|done].
      apply list_elem_of_lookup. eauto.
Qed.

Lemma length_replace_by_id (taskId : value) (t' : obj) (ts : list obj) :
  length (replace_by_id taskId t' ts) = length ts.
Proof. unfold replace_by_id. apply length_map. Qed.

Lemma lookup_replace_by_id (taskId : value) (t' : obj) (ts : list obj) (i : nat) :
  replace_by_id taskId t' ts !! i =
    (fun task => if decide (has_id taskId task) then t' else task) <$> ts !! i.
Proof. unfold replace_by_id. apply (list_lookup_fmap _ ts i). Qed.

(** With unique identifiers, the [map] of [updateTask] and
    [toggleTaskCompletion] writes one position of the list. *)
Lemma replace_by_id_unique (taskId : value) (t' : obj) (ts : list obj) (i : nat) (task : obj) :
  unique_ids ts -> ts !! i = Some task -> has_id taskId task ->
  replace_by_id taskId t' ts = <[i := t']> ts.
Proof.
  unfold unique_ids. revert i. induction ts as [|x ts IH]; intros i Hnd Hi Hid; [done|].
  cbn [ids fmap list_fmap] in Hnd. apply NoDup_cons in Hnd as [Hx Hnd].
  assert (Hrest : forall t, t ∈ ts -> has_id (get x "id") t -> False).
  { intros t Ht Ht'. apply Hx, elem_of_ids. eauto. }
  destruct i as [|i]; simpl in Hi.
  - injection Hi as ->. unfold replace_by_id. simpl. rewrite decide_True by done.
    f_equal. rewrite <-(map_id ts) at 2. apply map_ext_in. intros t Ht%list_elem_of_In.
    rewrite decide_False; [done|]. intros Ht'. apply (Hrest t Ht).
    unfold has_id in *. congruence.
  - unfold replace_by_id. simpl. rewrite decide_False.
    + f_equal. by apply IH.
    + intros Hx'. apply (Hrest task); [apply list_elem_of_lookup; eauto|].
      unfold has_id in *. congruence.
Qed.

(** The first task with the identifier is in the list, at the position
    [findIndex] gives. *)
Lemma list_find_has_id_Some (taskId : value) (ts : list obj) (i : nat) (task : obj) :
  list_find (has_id taskId) ts = Some (i, task) ->
  ts !! i = Some task /\ has_id taskId task.
Proof. intros H%list_find_Some. tauto. Qed.

(** ** Deleting a task *)

Section DeleteTask.

Variable JSON_stringify : list obj -> string.

(** C6. [deleteTask] on an identifier carried by a task, with a storage
    that takes the write, returns [true]; afterwards no task carries the
    identifier, the tasks with other identifiers are all there in their
    old order, and with unique identifiers exactly one position of the
    list was removed. On an identifier that no task carries it returns
    [false], throws nothing, and the world is unchanged. *)
Theorem deleteTask_spec (taskId : value) (w : world) :
  (taskId ∈ ids (tasks w) ->
   writable (localStorage w) = true ->
   exists w',
     deleteTask JSON_stringify taskId w = (Return true, w') /\
     (forall task, task ∈ tasks w' <-> task ∈ tasks w /\ get task "id" <> taskId) /\
     sublist (tasks w') (tasks w) /\
     (unique_ids (tasks w) ->
      exists i task, tasks w !! i = Some task /\ get task "id" = taskId /\
                     tasks w' = delete i (tasks w)))
  /\ (taskId ∉ ids (tasks w) ->
      deleteTask JSON_stringify taskId w = (Return false, w)).
Proof.
  split.
  - intros Hin Hw. rewrite deleteTask_run.
    destruct (list_find (has_id taskId) (tasks w)) as [[i task]|] eqn:Hf.
    + apply list_find_has_id_Some in Hf as [Hi Hid].
      rewrite Hw. eexists. split; [reflexivity|]. simpl. split_and!.
      * intros t. rewrite list_elem_of_filter. unfold has_id. tauto.
      * apply sublist_filter.
      * intros Hu. exists i, task. split_and!; [done..|].
        by apply filter_out_unique with task.
    + by apply list_find_has_id_None in Hf.
  - intros Hnot. rewrite deleteTask_run.
    by apply list_find_has_id_None in Hnot as ->.
Qed.

(** Whatever the storage does, the list after [deleteTask] is the old
    list without the tasks that carry the identifier. *)
Lemma deleteTask_tasks (taskId : value) (w : world) :
  tasks (deleteTask JSON_stringify taskId w).2 =
    filter (fun task => ~ has_id taskId task) (tasks w).
Proof.
  rewrite deleteTask_run.
  destruct (list_find (has_id taskId) (tasks w)) eqn:Hf.
  - by destruct (writable (localStorage w)).
  - simpl. symmetry. apply filter_all. by apply list_find_None in Hf.
Qed.

End DeleteTask.

(** Identifiers are compared with [===]: the text of a number is not the
    number, so a call with the identifier as text finds no task. *)
Example deleteTask_id_as_text :
  deleteTask JSONText.stringify (VStr "1700000000000") milk_world =
    (Return false, milk_world).
Proof. by vm_compute. Qed.

Lemma ids_replace_by_id (taskId : value) (t' : obj) (ts : list obj) :
  has_id taskId t' -> ids (replace_by_id taskId t' ts) = ids ts.
Proof.
  intros Hid. induction ts as [|t ts IH]; [done|].
  unfold ids, replace_by_id in *. cbn [map fmap list_fmap]. f_equal; [|exact IH].
  destruct (decide (has_id taskId t)) as [Ht|]; [|done].
  unfold has_id in *. congruence.
Qed.

Lemma list_find_replace_by_id (taskId : value) (t' : obj) (ts : list obj) (i : nat) (task : obj) :
  has_id taskId t' ->
  list_find (has_id taskId) ts = Some (i, task) ->
  list_find (has_id taskId) (replace_by_id taskId t' ts) = Some (i, t').
Proof.
  intros Hid Hf. unfold replace_by_id.
  change (map ?f ts) with (f <$> ts). rewrite list_find_fmap.
  rewrite (list_find_ext _ (has_id taskId)), Hf.
  - simpl. f_equal. f_equal. apply list_find_has_id_Some in Hf as [_ Ht].
    by rewrite decide_True.
  - intros t. simpl. destruct (decide (has_id taskId t)); naive_solver.
Qed.

(** ** Updating a task *)

Section UpdateTask.

Variable JSON_stringify : list obj -> string.

(** With an identifier that no task carries, the caller receives the
    generic failure of [updateTask]; "Task not found" only reaches the
    console. Nothing else changes. *)
Lemma updateTask_unknown_id (taskId : value) (updates : obj) (w : world) :
  taskId ∉ ids (tasks w) ->
  updateTask JSON_stringify taskId updates w =
    (Throw (Error "Failed to update task"),
     with_log "Failed to update task:" (Error "Task not found") w).
Proof.
  intros Hnot. rewrite updateTask_run.
  by apply list_find_has_id_None in Hnot as ->.
Qed.

(** The caller cannot tell an unknown identifier from a refused storage
    write: both calls throw the same value. *)
Lemma updateTask_unknown_id_like_write_refused
    (unknown known : value) (updates : obj) (w w' : world) :
  unknown ∉ ids (tasks w) ->
  known ∈ ids (tasks w') -> writable (localStorage w') = false ->
  (updateTask JSON_stringify unknown updates w).1 =
  (updateTask JSON_stringify known updates w').1.
Proof.
  intros Hnot Hin Hw. rewrite (updateTask_unknown_id _ _ _ Hnot).
  rewrite updateTask_run.
  destruct (list_find (has_id known) (tasks w')) as [[i t]|] eqn:Hf.
  - by rewrite Hw.
  - by apply list_find_has_id_None in Hf.
Qed.

(** [updateTask] on an identifier carried by a task, with a storage that
    takes the write: the first task with the identifier is merged with
    the record, property by property: a property whose value in the
    record is defined takes that value, every other property keeps the
    task's. The merged task is returned and stands in the list where the
    identifier matched; tasks with other identifiers keep their place
    and content. *)
Lemma updateTask_found (taskId : value) (updates : obj) (w : world) :
  taskId ∈ ids (tasks w) ->
  writable (localStorage w) = true ->
  exists i task task' w',
    tasks w !! i = Some task /\ get task "id" = taskId /\
    updateTask JSON_stringify taskId updates w = (Return task', w') /\
    (forall k, get task' k =
               if decide (get updates k = VUndef) then get task k else get updates k) /\
    length (tasks w') = length (tasks w) /\
    (forall j t, tasks w !! j = Some t -> get t "id" <> taskId ->
                 tasks w' !! j = Some t) /\
    (forall j t, tasks w !! j = Some t -> get t "id" = taskId ->
                 tasks w' !! j = Some task') /\
    (unique_ids (tasks w) -> tasks w' = <[i := task']> (tasks w)).
Proof.
  intros Hin Hw. rewrite updateTask_run.
  destruct (list_find (has_id taskId) (tasks w)) as [[i task]|] eqn:Hf;
    [|by apply list_find_has_id_None in Hf].
  apply list_find_has_id_Some in Hf as [Hi Hid]. rewrite Hw.
  eexists i, task, _, _. split_and!; [done|done|reflexivity|..]; simpl.
  - apply get_merge.
  - apply length_replace_by_id.
  - intros j t Hj Ht. rewrite lookup_replace_by_id, Hj. simpl.
    by rewrite decide_False.
  - intros j t Hj Ht. rewrite lookup_replace_by_id, Hj. simpl.
    by rewrite decide_True.
  - intros Hu. by apply replace_by_id_unique with task.
Qed.

(** A property given as [undefined] leaves the task's value:
    [updateTask(id, {priority: undefined})] keeps the priority. *)
Lemma updateTask_undefined_priority (taskId : value) (w : world) :
  taskId ∈ ids (tasks w) ->
  writable (localStorage w) = true ->
  exists i task task' w',
    tasks w !! i = Some task /\ get task "id" = taskId /\
    updateTask JSON_stringify taskId {[ "priority" := VUndef ]} w = (Return task', w') /\
    same_fields task' task.
Proof.
  intros Hin Hw.
  destruct (updateTask_found taskId {[ "priority" := VUndef ]} w Hin Hw)
    as (i & task & task' & w' & Hi & Hid & Hrun & Hget & _).
  exists i, task, task', w'. split_and!; [done..|].
  intros k. rewrite Hget. destruct (decide (k = "priority")) as [->|Hk].
  - by rewrite decide_True.
  - rewrite decide_True; [done|]. unfold get. by rewrite lookup_singleton_ne.
Qed.

(** Whatever the storage does, the list after [updateTask] is the old
    list with the merged task at the places of the identifier. *)
Lemma updateTask_tasks (taskId : value) (updates : obj) (w : world) :
  tasks (updateTask JSON_stringify taskId updates w).2 =
    match list_find (has_id taskId) (tasks w) with
    | Some (_, task) =>
        replace_by_id taskId (spread task (defined_entries updates)) (tasks w)
    | None => tasks w
    end.
Proof.
  rewrite updateTask_run.
  destruct (list_find (has_id taskId) (tasks w)) as [[i t]|]; [|done].
  by destruct (writable (localStorage w)).
Qed.

End UpdateTask.

(** The older class throws "Task not found" itself. *)
Lemma Legacy_updateTask_unknown_id JSON_stringify (taskId : value) (updates : obj) (w : world) :
  taskId ∉ ids (tasks w) ->
  Legacy.updateTask JSON_stringify taskId updates w = (Throw (Error "Task not found"), w).
Proof.
  intros Hnot. unfold Legacy.updateTask, bind, get_tasks. simpl.
  by apply list_find_has_id_None in Hnot as ->.
Qed.

(** C3, at the input [updateTask(7, {})] on the empty store: the call
    fails, but the error that reaches the caller is the generic "Failed to
    update task" that a refused storage write also produces; the
    "Task not found" error is logged and dropped. *)
Theorem updateTask_not_found_masked :
  updateTask JSONText.stringify (VNum 7) ∅ empty_world =
    (Throw (Error "Failed to update task"),
     with_log "Failed to update task:" (Error "Task not found") empty_world)
  /\ Legacy.updateTask JSONText.stringify (VNum 7) ∅ empty_world =
       (Throw (Error "Task not found"), empty_world).
Proof.
  split.
  - apply updateTask_unknown_id. unfold ids. simpl. apply not_elem_of_nil.
  - apply Legacy_updateTask_unknown_id. unfold ids. simpl. apply not_elem_of_nil.
Qed.

(** ** Toggling completion *)

Section ToggleTaskCompletion.

Variable JSON_stringify : list obj -> string.

Lemma toggleTaskCompletion_unknown_id (taskId : value) (w : world) :
  taskId ∉ ids (tasks w) ->
  toggleTaskCompletion JSON_stringify taskId w =
    (Throw (Error "Failed to toggle task completion"),
     with_log "Failed to toggle task completion:" (Error "Task not found") w).
Proof.
  intros Hnot. rewrite toggleTaskCompletion_run.
  by apply list_find_has_id_None in Hnot as ->.
Qed.

Lemma toggleTaskCompletion_tasks (taskId : value) (w : world) :
  tasks (toggleTaskCompletion JSON_stringify taskId w).2 =
    match list_find (has_id taskId) (tasks w) with
    | Some (_, task) =>
        replace_by_id taskId
          (spread task {[ "completed" := VBool (negb (truthy (get task "completed"))) ]})
          (tasks w)
    | None => tasks w
    end.
Proof.
  rewrite toggleTaskCompletion_run.
  destruct (list_find (has_id taskId) (tasks w)) as [[i t]|]; [|done].
  by destruct (writable (localStorage w)).
Qed.

(** [toggleTaskCompletion] on an identifier carried by a task, with a
    storage that takes the write: the returned task is the first task
    with the identifier with its [completed] flag negated and every
    other property as before; it stands in the list where the identifier
    matched, and tasks with other identifiers keep place and content. *)
Lemma toggleTaskCompletion_found (taskId : value) (w : world) :
  taskId ∈ ids (tasks w) ->
  writable (localStorage w) = true ->
  exists i task task' w',
    tasks w !! i = Some task /\ get task "id" = taskId /\
    toggleTaskCompletion JSON_stringify taskId w = (Return task', w') /\
    get task' "completed" = VBool (negb (truthy (get task "completed"))) /\
    (forall k, k <> "completed" -> get task' k = get task k) /\
    length (tasks w') = length (tasks w) /\
    (forall j t, tasks w !! j = Some t -> get t "id" <> taskId ->
                 tasks w' !! j = Some t) /\
    (unique_ids (tasks w) -> tasks w' = <[i := task']> (tasks w)) /\
    writable (localStorage w') = true.
Proof.
  intros Hin Hw. rewrite toggleTaskCompletion_run.
  destruct (list_find (has_id taskId) (tasks w)) as [[i task]|] eqn:Hf;
    [|by apply list_find_has_id_None in Hf].
  apply list_find_has_id_Some in Hf as [Hi Hid]. rewrite Hw.
  eexists i, task, _, _. split_and!; [done|done|reflexivity|..]; simpl.
  - by rewrite get_toggled, decide_True.
  - intros k Hk. by rewrite get_toggled, decide_False.
  - apply length_replace_by_id.
  - intros j t Hj Ht. rewrite lookup_replace_by_id, Hj. simpl.
    by rewrite decide_False.
  - intros Hu. by apply replace_by_id_unique with task.
  - done.
Qed.

(** Two toggles in a row give back the task: the second call returns the
    task the first call started from, and with unique identifiers the
    list is the one before the two calls. *)
Lemma toggleTaskCompletion_twice (taskId : value) (w : world) :
  taskId ∈ ids (tasks w) ->
  writable (localStorage w) = true ->
  (forall task, task ∈ tasks w -> exists b, get task "completed" = VBool b) ->
  exists i task task1 w1 w2,
    tasks w !! i = Some task /\ get task "id" = taskId /\
    toggleTaskCompletion JSON_stringify taskId w = (Return task1, w1) /\
    get task1 "completed" <> get task "completed" /\
    toggleTaskCompletion JSON_stringify taskId w1 = (Return task, w2) /\
    (unique_ids (tasks w) -> tasks w2 = tasks w).
Proof.
  intros Hin Hw Hbool. rewrite toggleTaskCompletion_run.
  destruct (list_find (has_id taskId) (tasks w)) as [[i task]|] eqn:Hf;
    [|by apply list_find_has_id_None in Hf].
  pose proof Hf as [Hi Hid]%list_find_has_id_Some. rewrite Hw.
  destruct (Hbool task) as [b Hb]; [apply list_elem_of_lookup; eauto|].
  set (task1 := spread task {[ "completed" := VBool (negb (truthy (get task "completed"))) ]}).
  assert (Hid1 : has_id taskId task1).
  { unfold has_id, task1. by rewrite get_toggled, decide_False. }
  assert (Hback : spread task1
            {[ "completed" := VBool (negb (truthy (get task1 "completed"))) ]} = task).
  { assert (Hc1 : get task1 "completed" = VBool (negb b)).
    { unfold task1. by rewrite get_toggled, decide_True, Hb. }
    rewrite Hc1. simpl. rewrite negb_involutive.
    apply map_eq. intros k. unfold task1, spread.
    destruct (decide (k = "completed")) as [->|Hk].
    - erewrite lookup_union_Some_l by apply lookup_singleton_eq.
      unfold get in Hb. destruct (task !! "completed") as [v|]; simpl in Hb; congruence.
    - by rewrite !lookup_union_r by (by rewrite lookup_singleton_ne). }
  eexists i, task, task1, _, _. split_and!; [done|done|reflexivity|..].
  - unfold task1. rewrite get_toggled, decide_True, Hb by done. simpl.
    destruct b; discriminate.
  - rewrite toggleTaskCompletion_run. simpl.
    rewrite (list_find_replace_by_id _ _ _ _ _ Hid1 Hf), Hw, Hback. reflexivity.
  - intros Hu. simpl.
    rewrite (replace_by_id_unique taskId task1 (tasks w) i task) by done.
    rewrite (replace_by_id_unique taskId task _ i task1).
    + rewrite list_insert_insert_eq. by apply list_insert_id.
    + assert (Hu1 : unique_ids (replace_by_id taskId task1 (tasks w))).
      { unfold unique_ids. by rewrite ids_replace_by_id. }
      by rewrite (replace_by_id_unique taskId task1 (tasks w) i task) in Hu1.
    + apply list_lookup_insert_eq. by eapply lookup_lt_Some.
    + done.
Qed.

End ToggleTaskCompletion.

Lemma Legacy_toggleTaskCompletion_unknown_id JSON_stringify (taskId : value) (w : world) :
  taskId ∉ ids (tasks w) ->
  Legacy.toggleTaskCompletion JSON_stringify taskId w = (Throw (Error "Task not found"), w).
Proof.
  intros Hnot. unfold Legacy.toggleTaskCompletion, bind, get_tasks. simpl.
  by apply list_find_has_id_None in Hnot as ->.
Qed.

(** C7, at the input [toggleTaskCompletion(7)] on the empty store: the
    call fails, but the error that reaches the caller is the generic
    "Failed to toggle task completion"; the "Task not found" error is
    logged and dropped. The older class throws "Task not found". *)
Theorem toggleTaskCompletion_not_found_masked :
  toggleTaskCompletion JSONText.stringify (VNum 7) empty_world =
    (Throw (Error "Failed to toggle task completion"),
     with_log "Failed to toggle task completion:" (Error "Task not found") empty_world)
  /\ Legacy.toggleTaskCompletion JSONText.stringify (VNum 7) empty_world =
       (Throw (Error "Task not found"), empty_world).
Proof.
  split.
  - apply toggleTaskCompletion_unknown_id. unfold ids. simpl. apply not_elem_of_nil.
  - apply Legacy_toggleTaskCompletion_unknown_id. unfold ids. simpl. apply not_elem_of_nil.
Qed.

(** ** Filtering *)

(** Membership of a literal list. *)
Ltac in_list := repeat first [ apply list_elem_of_here | apply list_elem_of_further ].

(** A hypothesis [x ∈ [a; b; ...]], case by case. *)
Ltac cases_in_list H :=
  repeat (apply elem_of_cons in H as [->|H]); [..|by apply elem_of_nil in H].

Lemma Array_filter_total (f : obj -> bool) (l : list obj) :
  Array_filter (fun task => Return (f task)) l = Return (filter (fun task => f task = true) l).
Proof.
  induction l as [|x l IH]; [done|]. simpl. rewrite IH.
  destruct (f x) eqn:Hx.
  - by rewrite filter_cons_True.
  - by rewrite filter_cons_False by (by rewrite Hx).
Qed.

Lemma Array_filter_throws (e : exn) (l : list obj) :
  l <> [] -> Array_filter (fun _ => Throw e) l = Throw e.
Proof. by destruct l. Qed.


(** [filterTasks] never changes the world. *)
Lemma filterTasks_pure (filterType : string) (w : world) :
  (filterTasks filterType w).2 = w.
Proof.
  unfold filterTasks, bind, get_tasks, lift, ret, throw. simpl.
  destruct (filters filterType) as [[f|]|]; done.
Qed.

(** The five filter types of the select box. *)
Lemma filterTasks_recognized (w : world) :
  filterTasks "completed" w =
    (Return (filter (fun task => truthy (get task "completed") = true) (tasks w)), w) /\
  filterTasks "incomplete" w =
    (Return (filter (fun task => truthy (get task "completed") = false) (tasks w)), w) /\
  filterTasks "high-priority" w =
    (Return (filter (fun task => get task "priority" = VStr "high") (tasks w)), w) /\
  filterTasks "medium-priority" w =
    (Return (filter (fun task => get task "priority" = VStr "medium") (tasks w)), w) /\
  filterTasks "low-priority" w =
    (Return (filter (fun task => get task "priority" = VStr "low") (tasks w)), w).
Proof.
  unfold filterTasks, bind, get_tasks, lift. simpl. split_and!.
  - by rewrite Array_filter_total.
  - rewrite Array_filter_total. do 2 f_equal.
    apply list_filter_iff. intros t. by rewrite negb_true_iff.
  - rewrite Array_filter_total. do 2 f_equal.
    apply list_filter_iff. intros t. unfold strict_eq. by rewrite bool_decide_eq_true.
  - rewrite Array_filter_total. do 2 f_equal.
    apply list_filter_iff. intros t. unfold strict_eq. by rewrite bool_decide_eq_true.
  - rewrite Array_filter_total. do 2 f_equal.
    apply list_filter_iff. intros t. unfold strict_eq. by rewrite bool_decide_eq_true.
Qed.

(** With tasks whose [completed] flag is a boolean, the two completion
    filters select on the flag itself. *)
Lemma filterTasks_completed_flag (w : world) :
  (forall task, task ∈ tasks w -> exists b, get task "completed" = VBool b) ->
  filterTasks "completed" w =
    (Return (filter (fun task => get task "completed" = VBool true) (tasks w)), w) /\
  filterTasks "incomplete" w =
    (Return (filter (fun task => get task "completed" = VBool false) (tasks w)), w).
Proof.
  intros Hbool. destruct (filterTasks_recognized w) as (-> & -> & _).
  split; do 2 f_equal; apply filter_ext_in; apply Forall_forall; intros t Ht;
    destruct (Hbool t Ht) as [b ->]; destruct b; simpl; split; congruence.
Qed.

(** An unrecognised filter type that is not the name of a property of
    [Object.prototype] gives the whole list. *)
Lemma filterTasks_unrecognized (filterType : string) (w : world) :
  plain_filterType filterType ->
  filterTasks filterType w = (Return (tasks w), w).
Proof.
  intros [Hown Hproto]. unfold filterTasks, bind, get_tasks. simpl.
  unfold filters, Object_prototype.
  repeat (rewrite bool_decide_eq_false_2;
          [|first [ intros ->; first [by apply Hown; in_list | by apply Hproto; in_list]
                  | intros H; apply Hproto; cases_in_list H; by in_list ]]).
  done.
Qed.

Lemma filterTasks_empty_type (w : world) :
  filterTasks "" w = (Return (tasks w), w).
Proof. done. Qed.

(** An unrecognised filter type that names a method of [Object.prototype]
    which needs a [this] makes [filterTasks] throw on any store that has a
    task; [__proto__] makes it throw on every store. *)
Lemma filterTasks_inherited_throws (filterType : string) (w : world) :
  filterType ∈ ["toLocaleString"; "valueOf"; "hasOwnProperty"; "isPrototypeOf";
                "propertyIsEnumerable"; "__defineGetter__"; "__defineSetter__";
                "__lookupGetter__"; "__lookupSetter__"] ->
  tasks w <> [] ->
  filterTasks filterType w =
    (Throw (TypeError "Cannot convert undefined or null to object"), w).
Proof.
  intros Hin Hne. unfold filterTasks, bind, get_tasks, lift. simpl.
  cases_in_list Hin; simpl; by rewrite Array_filter_throws.
Qed.

Lemma filterTasks_proto_throws (w : world) :
  filterTasks "__proto__" w = (Throw (TypeError "object is not a function"), w).
Proof. done. Qed.

(** The [switch] of the older class sends every other filter type to its
    [default] branch. *)
Lemma Legacy_filterTasks_unrecognized (filterType : string) (w : world) :
  filterType ∉ ["completed"; "incomplete"; "high-priority"; "medium-priority";
                "low-priority"] ->
  Legacy.filterTasks filterType w = (Return (tasks w), w).
Proof.
  intros Hown. unfold Legacy.filterTasks, bind, get_tasks. simpl.
  repeat (rewrite bool_decide_eq_false_2; [|intros ->; apply Hown; by in_list]).
  done.
Qed.

(** C8, at the input [filterTasks("hasOwnProperty")] on a store with one
    task: the filter type is not one of the five recognised ones, yet the
    call does not return the task list: the lookup in the [filters] object
    finds the inherited method, and calling it as the filter callback
    throws a [TypeError]. The [switch] of the older class returns the
    list on the same input. *)
Theorem filterTasks_unrecognized_throws :
  filterTasks "hasOwnProperty" milk_world =
    (Throw (TypeError "Cannot convert undefined or null to object"), milk_world)
  /\ Legacy.filterTasks "hasOwnProperty" milk_world = (Return [milk], milk_world).
Proof.
  split.
  - apply filterTasks_inherited_throws; [by in_list|done].
  - apply Legacy_filterTasks_unrecognized. apply (bool_decide_unpack _). by vm_compute.
Qed.

(** ** Searching *)

Global Instance ci_substring_dec (term s : string) : Decision (ci_substring term s).
Proof.
  refine (cast_if (decide (JSString.includes (JSString.toLowerCase s)
                                             (JSString.toLowerCase term) = true)));
    by rewrite <-includes_ci_substring.
Defined.

Global Instance matches_dec (term : string) (task : obj) : Decision (matches term task).
Proof. unfold matches. apply _. Defined.

(** [searchTasks] never changes the world. *)
Lemma searchTasks_pure (searchTerm : value) (w : world) :
  (searchTasks searchTerm w).2 = w.
Proof.
  unfold searchTasks, bind, get_tasks, lift.
  destruct (call_toLowerCase _); done.
Qed.

(** On a task with text, the callback of [searchTasks] decides whether the
    task matches the term. *)
Lemma search_callback_matches (term : string) (task : obj) :
  has_text task ->
  search_callback (JSString.toLowerCase term) task =
    Return (bool_decide (matches term task)).
Proof.
  intros [[s Hs] [d Hd]].
  assert (Hm : matches term task <->
               JSString.includes (JSString.toLowerCase s) (JSString.toLowerCase term) = true \/
               JSString.includes (JSString.toLowerCase d) (JSString.toLowerCase term) = true).
  { unfold matches. rewrite Hs, Hd. simpl. by rewrite !includes_ci_substring. }
  unfold search_callback. rewrite Hs, Hd. simpl.
  destruct (JSString.includes (JSString.toLowerCase s) _) eqn:Ht.
  - rewrite bool_decide_eq_true_2; [done|]. apply Hm. auto.
  - destruct (JSString.includes (JSString.toLowerCase d) _) eqn:Hd'.
    + rewrite bool_decide_eq_true_2; [done|]. apply Hm. auto.
    + rewrite bool_decide_eq_false_2; [done|]. intros [?|?]%Hm; congruence.
Qed.

Lemma Array_filter_search (term : string) (ts : list obj) :
  Forall has_text ts ->
  Array_filter (search_callback (JSString.toLowerCase term)) ts =
    Return (filter (matches term) ts).
Proof.
  induction 1 as [|task ts Ht _ IH]; [done|].
  simpl. rewrite (search_callback_matches _ _ Ht), IH, filter_cons.
  by destruct (decide (matches term task)) as [Hm|Hm];
    [rewrite bool_decide_eq_true_2|rewrite bool_decide_eq_false_2].
Qed.

(** The empty term occurs in every text. *)
Lemma matches_empty (task : obj) : matches "" task.
Proof. left. exists "", "", (text_of (get task "title")). split; [done|constructor]. Qed.

(** ** The search over UTF-16 code units *)

Section UTF16Facts.

Import UTF16.










(** The capital sigma that ends a word becomes the final small sigma,
    and the search for a sigma by itself looks for the other one. *)
Lemma toLowerCase_odos :
  toLowerCase (title odos) = Some [959; 948; 959; 962]%N /\
  toLowerCase [capital_sigma] = Some [small_sigma].
Proof. by vm_compute. Qed.

End UTF16Facts.



(** On a term that is text the older [searchTasks] is the same function;
    without a term it throws, where the newer one defaults to the empty
    term. *)
Lemma Legacy_searchTasks (term : string) (w : world) :
  Legacy.searchTasks (VStr term) w = searchTasks (VStr term) w
  /\ exists e, Legacy.searchTasks VUndef w = (Throw e, w).
Proof. split; [reflexivity|]. by eexists. Qed.

(** ** The JSON text codec reads back what it writes *)

Section JSONTextFacts.

Import JSONText.

Local Arguments String.append !_ _ / : simpl nomatch.
Local Open Scope nat_scope.

Lemma parse_string_body_escape (s rest : string) :
  parse_string_body (escape s +:+ String dquote rest) = Some (s, rest).
Proof.
  induction s as [|c s IH]; [done|].
  destruct c as [[] [] [] [] [] [] [] []]; simpl; by rewrite IH.
Qed.

Lemma digit_value_pretty (d : N) : (d < 10)%N -> digit_value (pretty_N_char d) = Some d.
Proof.
  intros Hd.
  assert (d = 0 \/ d = 1 \/ d = 2 \/ d = 3 \/ d = 4 \/ d = 5 \/ d = 6 \/ d = 7 \/ d = 8 \/ d = 9)%N
    as H by lia.
  by repeat (destruct H as [->|H]); subst.
Qed.

Lemma parse_digits_stop (acc : N) (s : string) :
  no_digit s -> parse_digits acc s = (acc, s).
Proof. destruct s as [|c s]; [done|]. simpl. by intros ->. Qed.

(** The decimal text of a positive number starts with a digit that is not
    zero, and reading on from that digit gives the number. *)
Lemma pretty_N_go_digits (x : N) (s : string) :
  (0 < x)%N ->
  exists c r d,
    pretty_N_go x s = String c r /\ digit_value c = Some d /\ d <> 0%N /\
    parse_digits d r = parse_digits x s.
Proof.
  revert s. induction (N.lt_wf_0 x) as [x _ IH]. intros s Hx.
  rewrite pretty_N_go_step by done.
  destruct (decide (x < 10)%N) as [Hsmall|Hbig].
  - rewrite N.div_small, pretty_N_go_0, N.mod_small by done.
    exists (pretty_N_char x), s, x. split_and!; [done| |lia|done].
    by apply digit_value_pretty.
  - destruct (IH (x `div` 10)%N) with (s := String (pretty_N_char (x `mod` 10)) s)
      as (c & r & d & Hgo & Hc & Hd & Hparse).
    { apply N.div_lt; lia. }
    { apply N.div_str_pos. lia. }
    exists c, r, d. split_and!; [done..|].
    rewrite Hparse. simpl. rewrite digit_value_pretty by (apply N.mod_lt; lia).
    f_equal. rewrite (N.div_mod x 10) at 3 by lia. lia.
Qed.

Lemma pretty_N_go_app (x : N) (s t : string) :
  pretty_N_go x s +:+ t = pretty_N_go x (s +:+ t).
Proof.
  revert s. induction (N.lt_wf_0 x) as [x _ IH]. intros s.
  destruct (decide (0 < x)%N) as [Hx|Hx].
  - rewrite (pretty_N_go_step x s), (pretty_N_go_step x (s +:+ t)) by done.
    by rewrite IH by (apply N.div_lt; lia).
  - assert (x = 0%N) as -> by lia. by rewrite !pretty_N_go_0.
Qed.

Lemma parse_nat_pretty (n : N) (rest : string) :
  no_digit rest -> parse_nat (pretty n +:+ rest) = Some (n, rest).
Proof.
  intros Hrest. unfold pretty, pretty_N. destruct (decide (n = 0%N)) as [->|Hn].
  - simpl. destruct rest as [|c rest]; [done|]. simpl in Hrest. by rewrite Hrest.
  - rewrite pretty_N_go_app. simpl.
    destruct (pretty_N_go_digits n rest) as (c & r & d & -> & Hc & Hd & Hparse); [lia|].
    unfold parse_nat. rewrite Hc. destruct d as [|p]; [done|].
    by rewrite Hparse, parse_digits_stop.
Qed.

(** The first character of the decimal text of a number. *)
Lemma pretty_N_head (n : N) (rest : string) :
  exists c r, pretty n +:+ rest = String c r /\ is_Some (digit_value c).
Proof.
  unfold pretty, pretty_N. destruct (decide (n = 0%N)) as [->|Hn].
  - by exists "0"%char, rest.
  - rewrite pretty_N_go_app. simpl.
    destruct (pretty_N_go_digits n rest) as (c & r & d & -> & Hc & _); [lia|].
    exists c, r. by rewrite Hc.
Qed.

Lemma expect_app (kw rest : string) : expect kw (kw +:+ rest) = Some rest.
Proof.
  induction kw as [|a kw IH]; [by destruct rest|].
  simpl. by rewrite Ascii.eqb_refl.
Qed.

Lemma parse_value_digit (c : ascii) (r : string) :
  is_Some (digit_value c) ->
  parse_value (String c r) =
    match parse_nat (String c r) with
    | Some (n, rest) => Some (VNum (Z.of_N n), rest)
    | None => None
    end.
Proof.
  intros [d Hd]. unfold digit_value in Hd.
  destruct c as [[] [] [] [] [] [] [] []]; try discriminate Hd; reflexivity.
Qed.

Lemma parse_value_print (v : value) (rest : string) :
  v <> VUndef -> no_digit rest ->
  parse_value (value_text v +:+ rest) = Some (v, rest).
Proof.
  intros Hv Hrest. destruct v as [| |[]|n|s]; try done.
  - unfold value_text. simpl. unfold pretty, pretty_Z. destruct n as [|p|p].
    + change "0" with (pretty 0%N). 
      destruct (pretty_N_head 0 rest) as (c & r & Heq & Hc).
      rewrite Heq, parse_value_digit, <-Heq, parse_nat_pretty by done. done.
    + change (pretty p) with (pretty (Npos p)).
      destruct (pretty_N_head (Npos p) rest) as (c & r & Heq & Hc).
      rewrite Heq, parse_value_digit, <-Heq, parse_nat_pretty by done. done.
    + change (pretty p) with (pretty (Npos p)). simpl.
      by rewrite parse_nat_pretty.
  - unfold value_text. simpl. rewrite app_assoc'. simpl.
    by rewrite parse_string_body_escape.
Qed.

Lemma omap_print_member (l : list (string * value)) :
  omap print_member l = member_text <$> filter defined_member l.
Proof.
  induction l as [|[k v] l IH]; [done|].
  destruct (decide (v = VUndef)) as [->|Hv].
  - rewrite filter_cons_False by (by intros H; apply H). by csimpl.
  - rewrite filter_cons_True by done. csimpl. rewrite <-IH.
    unfold print_member, member_text, value_text. simpl.
    by destruct v as [| |[]|n|s].
Qed.

Lemma digit_not_ws (c : ascii) : is_Some (digit_value c) -> is_ws c = false.
Proof.
  intros [d Hd]. unfold digit_value in Hd.
  destruct c as [[] [] [] [] [] [] [] []]; try discriminate Hd; reflexivity.
Qed.

Lemma skip_ws_value_text (v : value) (rest : string) :
  v <> VUndef -> skip_ws (value_text v +:+ rest) = value_text v +:+ rest.
Proof.
  intros Hv. destruct v as [| |[]|n|s]; try done.
  unfold value_text. simpl. unfold pretty, pretty_Z. destruct n as [|p|p]; [done| |done].
  change (pretty p) with (pretty (Npos p)).
  destruct (pretty_N_head (Npos p) rest) as (c & r & -> & Hc).
  simpl. by rewrite digit_not_ws.
Qed.

Lemma parse_member_text (kv : string * value) (rest : string) :
  defined_member kv -> no_digit rest ->
  parse_member (member_text kv +:+ rest) = Some (kv, rest).
Proof.
  destruct kv as [k v]. intros Hv Hrest. unfold member_text, print_string. simpl.
  rewrite !app_assoc'. unfold parse_member. simpl.
  rewrite parse_string_body_escape. simpl.
  by rewrite skip_ws_value_text, parse_value_print.
Qed.

Lemma join_members (kv : string * value) (l : list (string * value)) :
  join "," (member_text <$> kv :: l) = member_text kv +:+ members_tail l.
Proof.
  revert kv. induction l as [|kv' l IH]; intros kv.
  - simpl. by rewrite app_empty_r.
  - change (join "," (member_text <$> kv :: kv' :: l))
      with (member_text kv +:+ "," +:+ join "," (member_text <$> kv' :: l)).
    by rewrite IH.
Qed.

Lemma members_tail_head (l : list (string * value)) (rest : string) :
  no_digit (members_tail l +:+ String "}" rest).
Proof. by destruct l. Qed.

Lemma parse_members_comma (fuel : nat) (o : obj) (s : string) :
  parse_members (S fuel) o (String "," s) =
    match parse_member s with
    | Some ((k, v), rest') => parse_members fuel (<[k := v]> o) rest'
    | None => None
    end.
Proof. reflexivity. Qed.

Lemma parse_members_tail (l : list (string * value)) (fuel : nat) (o : obj) (rest : string) :
  Forall defined_member l -> length l < fuel ->
  parse_members fuel o (members_tail l +:+ String "}" rest) = Some (foldl put o l, rest).
Proof.
  revert fuel o. induction l as [|kv l IH]; intros fuel o Hl Hfuel.
  - destruct fuel as [|fuel]; [simpl in Hfuel; lia|]. done.
  - destruct fuel as [|fuel]; [simpl in Hfuel; lia|].
    apply Forall_cons in Hl as [Hkv Hl].
    change (members_tail (kv :: l) +:+ String "}" rest)
      with (String "," ((member_text kv +:+ members_tail l) +:+ String "}" rest)).
    rewrite parse_members_comma, app_assoc'.
    rewrite parse_member_text by (done || apply members_tail_head).
    destruct kv as [k v]. apply IH; [done|]. simpl in Hfuel. lia.
Qed.

Lemma length_app (s t : string) :
  String.length (s +:+ t) = String.length s + String.length t.
Proof. induction s as [|a s IH]; simpl; [done|]. by rewrite IH. Qed.

Lemma length_members_tail (l : list (string * value)) :
  length l <= String.length (members_tail l).
Proof.
  induction l as [|kv l IH]; simpl; [lia|]. rewrite length_app. lia.
Qed.

Lemma foldl_put_list_to_map (l : list (string * value)) :
  NoDup (l.*1) -> foldl put ∅ l = list_to_map l.
Proof.
  induction l as [|[k v] l IH] using rev_ind; intros Hnd; [done|].
  rewrite fmap_app in Hnd. apply NoDup_app in Hnd as (Hl & Hk & _).
  rewrite foldl_snoc, IH by done. unfold put. simpl.
  rewrite list_to_map_snoc; [done|].
  intros Hin. apply (Hk k Hin). simpl. apply list_elem_of_here.
Qed.

Lemma defined_entries_list (o : obj) :
  defined_entries o = foldl put ∅ (filter defined_member (map_to_list o)).
Proof.
  rewrite foldl_put_list_to_map.
  - unfold defined_entries. by rewrite map_filter_alt.
  - apply (sublist_NoDup _ ((map_to_list o).*1)); [apply NoDup_fst_map_to_list|].
    apply fmap_sublist, sublist_filter.
Qed.

Lemma member_text_head (kv : string * value) (x : string) :
  exists r, member_text kv +:+ x = String dquote r.
Proof. unfold member_text, print_string. simpl. eauto. Qed.

Lemma parse_object_members (s : string) :
  parse_object (String "{" (String dquote s)) =
    match parse_member (String dquote s) with
    | Some ((k, v), rest) => parse_members (S (String.length rest)) {[ k := v ]} rest
    | None => None
    end.
Proof. reflexivity. Qed.

Lemma parse_object_print (o : obj) (rest : string) :
  parse_object (print_object o +:+ rest) = Some (defined_entries o, rest).
Proof.
  unfold print_object. rewrite omap_print_member, defined_entries_list.
  destruct (filter defined_member (map_to_list o)) as [|kv l] eqn:Hl.
  - reflexivity.
  - assert (Hdef : Forall defined_member (kv :: l)).
    { rewrite <-Hl. apply Forall_forall. by intros x [? _]%list_elem_of_filter. }
    apply Forall_cons in Hdef as [Hkv Hdef].
    rewrite join_members, !app_assoc'.
    change ("{" +:+ ?x) with (String "{" x).
    change ("}" +:+ rest) with (String "}" rest).
    destruct (member_text_head kv (members_tail l +:+ String "}" rest)) as [r Hr].
    rewrite Hr, parse_object_members, <-Hr.
    rewrite parse_member_text by (done || apply members_tail_head).
    destruct kv as [k v]. rewrite parse_members_tail; [done|done|].
    rewrite length_app. pose proof (length_members_tail l). lia.
Qed.

Lemma join_elements (o : obj) (ts : list obj) :
  join "," (print_object <$> o :: ts) = print_object o +:+ elements_tail ts.
Proof.
  revert o. induction ts as [|o' ts IH]; intros o.
  - simpl. by rewrite app_empty_r.
  - change (join "," (print_object <$> o :: o' :: ts))
      with (print_object o +:+ "," +:+ join "," (print_object <$> o' :: ts)).
    by rewrite IH.
Qed.

Lemma parse_elements_comma (fuel : nat) (acc : list obj) (s : string) :
  parse_elements (S fuel) acc (String "," s) =
    match parse_object s with
    | Some (o, rest') => parse_elements fuel (acc ++ [o]) rest'
    | None => None
    end.
Proof. reflexivity. Qed.

Lemma parse_elements_tail (ts : list obj) (fuel : nat) (acc : list obj) (rest : string) :
  length ts < fuel ->
  parse_elements fuel acc (elements_tail ts +:+ String "]" rest) =
    Some (acc ++ (defined_entries <$> ts), rest).
Proof.
  revert fuel acc. induction ts as [|o ts IH]; intros fuel acc Hfuel.
  - destruct fuel as [|fuel]; [simpl in Hfuel; lia|]. simpl. by rewrite app_nil_r.
  - destruct fuel as [|fuel]; [simpl in Hfuel; lia|].
    change (elements_tail (o :: ts) +:+ String "]" rest)
      with (String "," ((print_object o +:+ elements_tail ts) +:+ String "]" rest)).
    rewrite parse_elements_comma, app_assoc', parse_object_print.
    rewrite IH by (simpl in Hfuel; lia). by rewrite <-(assoc_L (++)).
Qed.

Lemma length_elements_tail (ts : list obj) :
  length ts <= String.length (elements_tail ts).
Proof.
  induction ts as [|o ts IH]; simpl; [lia|]. rewrite length_app. lia.
Qed.

Lemma parse_array_elements (s : string) :
  parse_array (String "[" (String "{" s)) =
    match parse_object (String "{" s) with
    | Some (o, rest) => parse_elements (S (String.length rest)) [o] rest
    | None => None
    end.
Proof. reflexivity. Qed.

(** The codec reads back what it writes: the records without their
    [undefined]-valued properties. *)
Theorem parse_stringify (ts : list obj) :
  parse (stringify ts) = Some (defined_entries <$> ts).
Proof.
  unfold parse, stringify. destruct ts as [|o ts]; [reflexivity|].
  rewrite join_elements, !app_assoc'.
  change ("[" +:+ ?x) with (String "[" x).
  change ("]" +:+ "") with (String "]" "").
  assert (Hhead : exists r, print_object o +:+ elements_tail ts +:+ String "]" ""
                            = String "{" r) by (unfold print_object; simpl; eauto).
  destruct Hhead as [r Hr].
  rewrite Hr, parse_array_elements, <-Hr, parse_object_print.
  rewrite parse_elements_tail; [done|].
  rewrite length_app. pose proof (length_elements_tail ts). lia.
Qed.

Lemma stringify_nonempty (ts : list obj) : stringify ts <> "".
Proof. done. Qed.

End JSONTextFacts.

(** The codec built on the parser reads a written task list as a task
    list. *)
Lemma JSON_parse_stringify (ts : list obj) :
  JSONText.JSON_parse (JSONText.stringify ts) = TaskList (defined_entries <$> ts).
Proof. unfold JSONText.JSON_parse. by rewrite parse_stringify. Qed.

(** ** Persisting and loading *)

Section Persistence.

Variable JSON_stringify : list obj -> string.
Variable JSON_parse : string -> parsed.

Lemma constructor_run (w : world) :
  constructor JSON_parse w =
    let w0 := with_tasks [] w in
    if readable (localStorage w) then
      match items (localStorage w) !! "tasks" with
      | None => (Return tt, w0)
      | Some s =>
          if truthy (VStr s) then
            match JSON_parse s with
            | TaskList ts => (Return tt, with_tasks ts w0)
            | SyntaxErr =>
                (Return tt,
                 with_tasks []
                   (with_log "Failed to initialize tasks:"
                      (SyntaxError "Unexpected token in JSON") w0))
            | Falsy | Other => (Outside, w0)
            end
          else (Return tt, w0)
      end
    else (Return tt,
          with_tasks []
            (with_log "Failed to initialize tasks:" (DOMException "SecurityError") w0)).
Proof.
  unfold constructor, init, call_JSON_parse, bind, try_catch, set_tasks,
    console_error, localStorage_getItem, ret, throw. simpl.
  destruct (readable (localStorage w)); [|done].
  destruct (items (localStorage w) !! "tasks") as [s|]; [|done].
  destruct (negb (bool_decide (s = ""))); [|done].
  by destruct (JSON_parse s).
Qed.

(** The constructor never throws: when the stored text is one that
    [init] can start from, it returns. *)
Lemma constructor_returns (w : world) :
  loadable JSON_parse (localStorage w) ->
  exists w', constructor JSON_parse w = (Return tt, w').
Proof.
  intros Hload. rewrite constructor_run. cbv zeta. unfold loadable in Hload.
  destruct (readable (localStorage w)); [|eauto].
  destruct (items (localStorage w) !! "tasks") as [s|]; [|eauto].
  destruct (truthy (VStr s)) eqn:Hs; [|eauto].
  destruct (Hload eq_refl s eq_refl) as [->|[ts ->]]; [by intros ->|eauto..].
Qed.

(** Saving and then constructing a new instance over the same storage,
    for a codec that reads back the text it wrote for this list. *)
Lemma load_after_save (w : world) :
  writable (localStorage w) = true ->
  readable (localStorage w) = true ->
  JSON_stringify (tasks w) <> "" ->
  JSON_parse (JSON_stringify (tasks w)) = TaskList (defined_entries <$> tasks w) ->
  exists w1 w2,
    saveTasks JSON_stringify w = (Return tt, w1) /\
    constructor JSON_parse (fresh_instance w1) = (Return tt, w2) /\
    Forall2 same_fields (tasks w2) (tasks w) /\
    ids (tasks w2) = ids (tasks w).
Proof.
  intros Hw Hr Hne Hcodec. rewrite saveTasks_run, Hw.
  eexists _, _. split; [reflexivity|].
  rewrite constructor_run. simpl. rewrite Hr, lookup_insert_eq, Hcodec. simpl.
  rewrite bool_decide_eq_false_2 by done. simpl.
  split; [reflexivity|]. simpl. split.
  - apply Forall2_fmap_l, Forall_Forall2_diag, Forall_forall.
    intros t _ k. apply get_defined_entries.
  - unfold ids. rewrite <-list_fmap_compose. apply list_fmap_ext.
    intros _ t _. simpl. apply get_defined_entries.
Qed.

(** C4. Persisting and then loading in a new instance gives back the
    tasks: when the storage takes the write and can be read, and the
    JSON codec reads back what it has written for this list (a non-empty
    text that parses to the same records without their
    [undefined]-valued properties), the new instance holds as many tasks
    in the same order, each reading the same at every property, the
    identifier included. When nothing is stored under the key, or what is
    stored does not parse, the constructor returns normally with the
    empty list. *)
Theorem persist_load_roundtrip :
  (forall w,
     writable (localStorage w) = true ->
     readable (localStorage w) = true ->
     JSON_stringify (tasks w) <> "" ->
     JSON_parse (JSON_stringify (tasks w)) = TaskList (defined_entries <$> tasks w) ->
     exists w1 w2,
       saveTasks JSON_stringify w = (Return tt, w1) /\
       constructor JSON_parse (fresh_instance w1) = (Return tt, w2) /\
       Forall2 same_fields (tasks w2) (tasks w) /\
       ids (tasks w2) = ids (tasks w))
  /\ (forall w,
        items (localStorage w) !! "tasks" = None ->
        exists w', constructor JSON_parse w = (Return tt, w') /\ tasks w' = [])
  /\ (forall w blob,
        items (localStorage w) !! "tasks" = Some blob ->
        JSON_parse blob = SyntaxErr ->
        exists w', constructor JSON_parse w = (Return tt, w') /\ tasks w' = []).
Proof.
  split_and!.
  - apply load_after_save.
  - intros w Habsent. rewrite constructor_run. simpl. rewrite Habsent.
    destruct (readable (localStorage w)); eauto.
  - intros w blob Hblob Hcorrupt. rewrite constructor_run. simpl.
    rewrite Hblob, Hcorrupt.
    destruct (readable (localStorage w)); [|eauto].
    destruct (negb _); eauto.
Qed.

End Persistence.

(** With the JSON text codec of this file the round trip holds for every
    task list: no assumption on the codec is left. *)
Theorem persist_load_JSONText (w : world) :
  writable (localStorage w) = true ->
  readable (localStorage w) = true ->
  exists w1 w2,
    saveTasks JSONText.stringify w = (Return tt, w1) /\
    constructor JSONText.JSON_parse (fresh_instance w1) = (Return tt, w2) /\
    Forall2 same_fields (tasks w2) (tasks w) /\
    ids (tasks w2) = ids (tasks w).
Proof.
  intros Hw Hr. apply load_after_save; [done|done|apply stringify_nonempty|].
  apply JSON_parse_stringify.
Qed.

(** Text that is not JSON, as the parser sees it. *)
Example parse_corrupt :
  JSONText.parse "[{" = None /\ JSONText.parse "tasks" = None /\ JSONText.parse "" = None.
Proof. by vm_compute. Qed.

(** In the older class a stored text that does not parse makes the
    constructor throw. *)
Lemma Legacy_constructor_corrupt JSON_parse (w : world) (blob : string) :
  readable (localStorage w) = true ->
  items (localStorage w) !! "tasks" = Some blob ->
  JSON_parse blob = SyntaxErr ->
  Legacy.constructor JSON_parse w = (Throw (SyntaxError "Unexpected token in JSON"), w).
Proof.
  intros Hr Hblob Hcorrupt.
  unfold Legacy.constructor, bind, localStorage_getItem.
  by rewrite Hr, Hblob, Hcorrupt.
Qed.

(** ** Invariants of the task list *)

Section Invariants.

Variable JSON_stringify : list obj -> string.

(** The list after [addTask]: unchanged when the call was rejected,
    otherwise the old list followed by one task that carries the clock
    reading as identifier and the timestamp read in the call. *)
Lemma addTask_tasks now createdAt (title description priority : value) (w : world) :
  let ts' := tasks (addTask JSON_stringify now createdAt title description priority w).2 in
  ts' = tasks w \/
  exists title' description',
    ts' = tasks w ++ [newTask now createdAt (VStr title') (VStr description') priority].
Proof.
  rewrite addTask_run. cbv zeta.
  destruct (optional_trim title) as [t| |]; [|by left..].
  destruct (negb (truthy t)); [by left|].
  destruct title as [| |?|?|s]; simpl; try (by left).
  destruct description as [| |?|?|d]; simpl; try (by left); right;
    (exists (JSString.trim s)); [exists ""|exists ""|exists (JSString.trim d)];
    by destruct (writable (localStorage w)).
Qed.

Lemma ids_app (ts1 ts2 : list obj) : ids (ts1 ++ ts2) = ids ts1 ++ ids ts2.
Proof. unfold ids. apply fmap_app. Qed.

(** Two tasks of a list with unique identifiers that share an
    identifier are one task. *)
Lemma unique_ids_same_task (ts : list obj) (t1 t2 : obj) :
  unique_ids ts -> t1 ∈ ts -> t2 ∈ ts -> get t1 "id" = get t2 "id" -> t1 = t2.
Proof.
  intros Hu [i Hi]%list_elem_of_lookup [j Hj]%list_elem_of_lookup Hid.
  assert (Hi' : ids ts !! i = Some (get t1 "id")).
  { unfold ids. by rewrite list_lookup_fmap, Hi. }
  assert (Hj' : ids ts !! j = Some (get t1 "id")).
  { unfold ids. by rewrite list_lookup_fmap, Hj, Hid. }
  assert (i = j) as -> by (by eapply NoDup_lookup).
  congruence.
Qed.

Lemma ids_replace_by_id_new (taskId : value) (t' : obj) (ts : list obj) :
  ids (replace_by_id taskId t' ts) =
    (fun x => if decide (x = taskId) then get t' "id" else x) <$> ids ts.
Proof.
  induction ts as [|t ts IH]; [done|].
  unfold ids, replace_by_id in *. cbn [map fmap list_fmap]. f_equal; [|exact IH].
  unfold has_id. by destruct (decide (get t "id" = taskId)).
Qed.

(** Giving the task that carries [taskId] an identifier that is not in
    use keeps identifiers unique. *)
Lemma unique_ids_rename (taskId newId : value) (t' : obj) (ts : list obj) :
  unique_ids ts -> get t' "id" = newId -> newId ∉ ids ts ->
  unique_ids (replace_by_id taskId t' ts).
Proof.
  intros Hu Hnew Hfresh. unfold unique_ids. rewrite ids_replace_by_id_new, Hnew.
  apply NoDup_fmap_2_strong; [|done].
  intros x y Hx Hy. destruct (decide (x = taskId)), (decide (y = taskId)); congruence.
Qed.

Lemma step_unique_ids (o : op) (w : world) :
  unique_ids (tasks w) -> id_safe o w -> unique_ids (tasks (step JSON_stringify o w)).
Proof.
  intros Hu Hsafe. destruct o as [now createdAt title description priority
                                 |taskId|taskId updates|taskId|filterType|searchTerm];
    simpl in *.
  - destruct (addTask_tasks now createdAt title description priority w)
      as [->|(title' & d & ->)]; [done|].
    unfold unique_ids. rewrite ids_app. apply NoDup_app. split_and!; [done| |].
    + intros x Hx [->|[]%elem_of_nil]%elem_of_cons. done.
    + apply NoDup_singleton.
  - rewrite deleteTask_tasks.
    apply (sublist_NoDup _ (ids (tasks w))); [done|apply ids_filter_sublist].
  - rewrite updateTask_tasks.
    destruct (list_find (has_id taskId) (tasks w)) as [[i t]|] eqn:Hf; [|done].
    apply list_find_has_id_Some in Hf as [Hi Hid].
    set (t' := spread t (defined_entries updates)).
    assert (Hid' : get t' "id" =
              if decide (get updates "id" = VUndef) then taskId else get updates "id").
    { unfold t'. rewrite get_merge. unfold has_id in Hid. by rewrite Hid. }
    destruct (decide (get updates "id" = VUndef)) as [Hundef|Hdef].
    { unfold unique_ids. by rewrite ids_replace_by_id. }
    destruct Hsafe as [?|[Hsame|Hfresh]]; [done| |].
    + unfold unique_ids. rewrite ids_replace_by_id; [done|]. unfold has_id. congruence.
    + by eapply unique_ids_rename.
  - rewrite toggleTaskCompletion_tasks.
    destruct (list_find (has_id taskId) (tasks w)) as [[i t]|] eqn:Hf; [|done].
    apply list_find_has_id_Some in Hf as [Hi Hid].
    unfold unique_ids. rewrite ids_replace_by_id; [done|].
    unfold has_id. by rewrite get_toggled, decide_False.
  - by rewrite filterTasks_pure.
  - by rewrite searchTasks_pure.
Qed.

Lemma run_unique_ids (os : list op) (w : world) :
  unique_ids (tasks w) -> id_safe_run JSON_stringify os w ->
  unique_ids (tasks (run JSON_stringify os w)).
Proof.
  revert w. induction os as [|o os IH]; intros w Hu Hsafe; [done|].
  destruct Hsafe as [Ho Hos]. simpl. apply IH; [|done]. by apply step_unique_ids.
Qed.

Lemma well_typed_merge (task updates : obj) :
  well_typed task -> typed_call (OpUpdate VUndef updates) ->
  well_typed (spread task (defined_entries updates)).
Proof.
  intros [[[s Hs] [d Hd]] [b Hb]] (Ht & Hd' & Hc).
  unfold well_typed, has_text. rewrite !get_merge. split_and!.
  - destruct Ht as [->|[s' ->]]; [rewrite decide_True by done|rewrite decide_False by done]; eauto.
  - destruct Hd' as [->|[d' ->]]; [rewrite decide_True by done|rewrite decide_False by done]; eauto.
  - destruct Hc as [->|[b' ->]]; [rewrite decide_True by done|rewrite decide_False by done]; eauto.
Qed.

Lemma well_typed_toggle (task : obj) (b : bool) :
  well_typed task -> well_typed (spread task {[ "completed" := VBool b ]}).
Proof.
  intros [[Hs Hd] _]. unfold well_typed, has_text. rewrite !get_toggled.
  rewrite !decide_False by done. rewrite decide_True by done. eauto.
Qed.

Lemma Forall_replace_by_id (P : obj -> Prop) (taskId : value) (t' : obj) (ts : list obj) :
  P t' -> Forall P ts -> Forall P (replace_by_id taskId t' ts).
Proof.
  intros Ht' Hts. unfold replace_by_id. change (map ?f ts) with (f <$> ts).
  apply Forall_fmap. eapply Forall_impl; [done|]. intros t Ht. simpl. by case_decide.
Qed.

(** Well-typed calls keep every task of the list well typed. *)
Lemma step_well_typed (o : op) (w : world) :
  Forall well_typed (tasks w) -> typed_call o ->
  Forall well_typed (tasks (step JSON_stringify o w)).
Proof.
  intros Hwt Hcall. destruct o as [now createdAt title description priority
                                  |taskId|taskId updates|taskId|filterType|searchTerm];
    simpl.
  - destruct (addTask_tasks now createdAt title description priority w)
      as [->|(title' & d & ->)]; [done|].
    apply Forall_app. split; [done|]. apply Forall_singleton.
    repeat split; eexists; reflexivity.
  - rewrite deleteTask_tasks. apply Forall_forall.
    intros t [_ Ht]%list_elem_of_filter. by eapply Forall_forall in Hwt.
  - rewrite updateTask_tasks.
    destruct (list_find (has_id taskId) (tasks w)) as [[i t]|] eqn:Hf; [|done].
    apply list_find_has_id_Some in Hf as [Hi _].
    apply Forall_replace_by_id; [|done]. apply well_typed_merge; [|done].
    eapply Forall_forall in Hwt; [done|]. apply list_elem_of_lookup; eauto.
  - rewrite toggleTaskCompletion_tasks.
    destruct (list_find (has_id taskId) (tasks w)) as [[i t]|] eqn:Hf; [|done].
    apply list_find_has_id_Some in Hf as [Hi _].
    apply Forall_replace_by_id; [|done]. apply well_typed_toggle.
    eapply Forall_forall in Hwt; [done|]. apply list_elem_of_lookup; eauto.
  - by rewrite filterTasks_pure.
  - by rewrite searchTasks_pure.
Qed.

(** From the empty store, well-typed calls lead only to stores whose tasks
    have text for title and description and a boolean completion flag. *)
Lemma run_well_typed (os : list op) (w : world) :
  Forall well_typed (tasks w) -> Forall typed_call os ->
  Forall well_typed (tasks (run JSON_stringify os w)).
Proof.
  revert w. induction os as [|o os IH]; intros w Hwt Hos; [done|].
  apply Forall_cons in Hos as [Ho Hos]. simpl. apply IH; [|done].
  by apply step_well_typed.
Qed.

(** C1, amended. Starting from an empty store, after any sequence of
    calls in which every add reads a clock value that is not the
    identifier of a task then in the store, and every update's record
    leaves [id] undefined, repeats the task's own identifier or gives an
    identifier not in use, no two tasks of the list share an
    identifier. *)
Theorem identifiers_stay_unique (os : list op) (w : world) :
  tasks w = [] ->
  id_safe_run JSON_stringify os w ->
  unique_ids (tasks (run JSON_stringify os w)).
Proof.
  intros Hempty. apply run_unique_ids. unfold unique_ids. rewrite Hempty. constructor.
Qed.

End Invariants.

(** C1 as stated fails: after two adds, an update of the first task with
    the record [{id: <identifier of the second>}] leaves two tasks with
    one identifier. *)
Lemma identifiers_can_collide :
  ~ unique_ids (tasks (run JSONText.stringify adds_then_update_id empty_world)).
Proof.
  assert (Hids : ids (tasks (run JSONText.stringify adds_then_update_id empty_world))
                 = [VNum 1700000000001; VNum 1700000000001]) by (by vm_compute).
  unfold unique_ids. rewrite Hids. intros [Hnot _]%NoDup_cons.
  apply Hnot. by in_list.
Qed.

(** Two adds that read the same clock value share their identifier. *)
Lemma identifiers_collide_within_millisecond :
  ~ unique_ids (tasks (run JSONText.stringify adds_same_millisecond empty_world)).
Proof.
  assert (Hids : ids (tasks (run JSONText.stringify adds_same_millisecond empty_world))
                 = [VNum 1700000000000; VNum 1700000000000]) by (by vm_compute).
  unfold unique_ids. rewrite Hids. intros [Hnot _]%NoDup_cons.
  apply Hnot. by in_list.
Qed.

(** ** The creation timestamp *)

Section CreatedAt.

Variable JSON_stringify : list obj -> string.

Lemma replace_by_id_same_createdAt (taskId : value) (t t' : obj) (ts : list obj) :
  unique_ids ts -> t ∈ ts -> has_id taskId t -> same_createdAt t t' ->
  Forall2 same_createdAt ts (replace_by_id taskId t' ts).
Proof.
  intros Hu Ht Hid Hsame. unfold replace_by_id.
  change (map ?f ts) with (f <$> ts).
  apply Forall2_fmap_r, Forall_Forall2_diag, Forall_forall. intros x Hx.
  unfold compose. case_decide as Hidx; [|reflexivity].
  assert (x = t) as ->; [|done].
  apply (unique_ids_same_task ts); [done..|]. unfold has_id in *. congruence.
Qed.

(** C5, amended. In a store with unique identifiers the creation
    timestamp of every task stays what it is under [toggleTaskCompletion],
    under [updateTask] with a record whose [createdAt] is undefined, under
    [addTask], and, for the tasks with another identifier, under
    [deleteTask]: these tasks stay in the list as they are. *)
Theorem createdAt_preserved (w : world) :
  unique_ids (tasks w) ->
  (forall taskId updates,
     get updates "createdAt" = VUndef ->
     Forall2 same_createdAt (tasks w)
       (tasks (updateTask JSON_stringify taskId updates w).2))
  /\ (forall taskId,
        Forall2 same_createdAt (tasks w)
          (tasks (toggleTaskCompletion JSON_stringify taskId w).2))
  /\ (forall taskId task,
        task ∈ tasks w -> get task "id" <> taskId ->
        task ∈ tasks (deleteTask JSON_stringify taskId w).2)
  /\ (forall now createdAt title description priority,
        tasks w `prefix_of`
          tasks (addTask JSON_stringify now createdAt title description priority w).2).
Proof.
  intros Hu.
  assert (Hrefl : Forall2 same_createdAt (tasks w) (tasks w)).
  { apply Forall_Forall2_diag, Forall_forall. by intros t _. }
  split_and!.
  - intros taskId updates Hc. rewrite updateTask_tasks.
    destruct (list_find (has_id taskId) (tasks w)) as [[i t]|] eqn:Hf; [|done].
    apply list_find_has_id_Some in Hf as [Hi Hid].
    apply replace_by_id_same_createdAt with t; [done| |done|].
    + apply list_elem_of_lookup; eauto.
    + unfold same_createdAt. by rewrite get_merge, decide_True.
  - intros taskId. rewrite toggleTaskCompletion_tasks.
    destruct (list_find (has_id taskId) (tasks w)) as [[i t]|] eqn:Hf; [|done].
    apply list_find_has_id_Some in Hf as [Hi Hid].
    apply replace_by_id_same_createdAt with t; [done| |done|].
    + apply list_elem_of_lookup; eauto.
    + unfold same_createdAt. by rewrite get_toggled, decide_False.
  - intros taskId task Ht Hid. rewrite deleteTask_tasks.
    apply list_elem_of_filter. by split.
  - intros now createdAt title description priority.
    destruct (addTask_tasks JSON_stringify now createdAt title description priority w)
      as [->|(title' & d & ->)]; [done|]. by apply prefix_app_r.
Qed.

End CreatedAt.

(** C5 as stated fails: [updateTask] with a record that carries
    [createdAt] replaces the creation timestamp of the task. *)
Lemma createdAt_can_change :
  ~ Forall2 same_createdAt (tasks milk_world)
      (tasks (updateTask JSONText.stringify (VNum 1700000000000) backdate milk_world).2).
Proof.
  assert (Hts : tasks (updateTask JSONText.stringify (VNum 1700000000000)
                         backdate milk_world).2 = [spread milk backdate])
    by (by vm_compute).
  rewrite Hts. intros [H _]%Forall2_cons. by vm_compute in H.
Qed.

(** Why unique identifiers are assumed: once two tasks share an
    identifier, a toggle writes the first of them over the second, creation
    timestamp included. *)
Lemma toggle_overwrites_duplicate :
  let w := run JSONText.stringify adds_then_update_id empty_world in
  ~ Forall2 same_createdAt (tasks w)
      (tasks (toggleTaskCompletion JSONText.stringify (VNum 1700000000001) w).2).
Proof.
  cbv zeta. intros H. apply Forall2_cons_inv_l in H as (t1 & k1 & _ & H & Heq).
  apply Forall2_cons_inv_l in H as (t2 & k2 & Hsame & _ & ->).
  vm_compute in Heq. injection Heq as <- <-. by vm_compute in Hsame.
Qed.

(** ** The order of the list *)

Section Order.

Variable JSON_stringify : list obj -> string.







End Order.

(** ** The statements at concrete stores *)

Lemma identifiers_stay_unique_witness :
  unique_ids (tasks (run JSONText.stringify session empty_world)).
Proof.
  apply identifiers_stay_unique.
  - reflexivity.
  - vm_compute. repeat split; try (by left);
      intros H; repeat (apply elem_of_cons in H as [[=]|H]); by apply elem_of_nil in H.
Defined.

Lemma addTask_spec_witness :
  addTask JSONText.stringify 1700000000000 "2023-11-14T22:13:20.000Z"
    (VStr "   ") VUndef (VStr "low") empty_world =
    (Throw (Error "Task title cannot be empty"), empty_world)
  /\ exists w',
       addTask JSONText.stringify 1700000000000 "2023-11-14T22:13:20.000Z"
         (VStr "  Buy milk ") VUndef (VStr "low") empty_world = (Return milk, w')
       /\ tasks w' = [milk].
Proof.
  split.
  - apply (addTask_spec JSONText.stringify 1700000000000 "2023-11-14T22:13:20.000Z"
             (VStr "   ") VUndef (VStr "low") empty_world).
    reflexivity.
  - destruct (addTask_spec JSONText.stringify 1700000000000 "2023-11-14T22:13:20.000Z"
                (VStr "  Buy milk ") VUndef (VStr "low") empty_world) as [_ Hadd].
    destruct (Hadd "  Buy milk " "") as (task & w' & Hrun & Hts & -> & _);
      [reflexivity|by vm_compute|reflexivity|reflexivity|].
    exists w'. split; [exact Hrun|exact Hts].
Defined.

Lemma persist_load_roundtrip_witness :
  exists w1 w2,
    saveTasks JSONText.stringify milk_world = (Return tt, w1) /\
    constructor JSONText.JSON_parse (fresh_instance w1) = (Return tt, w2) /\
    Forall2 same_fields (tasks w2) [milk] /\
    ids (tasks w2) = [VNum 1700000000000].
Proof.
  destruct (persist_load_roundtrip JSONText.stringify JSONText.JSON_parse) as [Hround _].
  apply (Hround milk_world).
  - reflexivity.
  - reflexivity.
  - by vm_compute.
  - by vm_compute.
Defined.

Lemma createdAt_preserved_witness :
  Forall2 same_createdAt (tasks milk_world)
    (tasks (updateTask JSONText.stringify (VNum 1700000000000)
              {[ "title" := VStr "Buy oat milk" ]} milk_world).2).
Proof.
  destruct (createdAt_preserved JSONText.stringify milk_world) as [Hupdate _].
  - apply NoDup_singleton.
  - apply Hupdate. reflexivity.
Defined.

Lemma deleteTask_spec_witness :
  (exists w', deleteTask JSONText.stringify (VNum 1700000000000) milk_world =
                (Return true, w') /\ tasks w' = [])
  /\ deleteTask JSONText.stringify (VNum 7) milk_world = (Return false, milk_world).
Proof.
  split.
  - destruct (deleteTask_spec JSONText.stringify (VNum 1700000000000) milk_world)
      as [Hfound _].
    destruct Hfound as (w' & Hrun & _ & _ & Hone); [by in_list|reflexivity|].
    exists w'. split; [exact Hrun|].
    destruct Hone as (i & task & Hi & _ & ->); [apply NoDup_singleton|].
    by destruct i.
  - apply (deleteTask_spec JSONText.stringify (VNum 7) milk_world).
    intros H. apply elem_of_cons in H as [[=]|H]. by apply elem_of_nil in H.
Defined.



(** The scenario of the specification: add "Buy milk", toggle it, filter
    the completed tasks, delete it, filter again. *)
Example scenario :
  let done := spread milk {[ "completed" := VBool true ]} in
  let w1 := step JSONText.stringify
              (OpAdd 1700000000000 "2023-11-14T22:13:20.000Z"
                 (VStr "Buy milk") (VStr "") (VStr "low")) empty_world in
  let w2 := step JSONText.stringify (OpToggle (VNum 1700000000000)) w1 in
  let w3 := step JSONText.stringify (OpDelete (VNum 1700000000000)) w2 in
  tasks w1 = [milk]
  /\ (toggleTaskCompletion JSONText.stringify (VNum 1700000000000) w1).1 = Return done
  /\ (filterTasks "completed" w2).1 = Return [done]
  /\ (deleteTask JSONText.stringify (VNum 1700000000000) w2).1 = Return true
  /\ (filterTasks "completed" w3).1 = Return [].
Proof. by vm_compute. Qed.


(** * Further properties of the code *)

(** ** Saving *)

Section Saving.

Variable JSON_stringify : list obj -> string.

(** X1. [saveTasks] writes the key "tasks" and nothing else: when the
    storage takes the write, the text of the list is stored under the key,
    every other key keeps its item, list and console are as before, and
    saving again changes nothing; when the storage refuses, the call
    throws "Failed to save tasks", the storage and the list are as before
    and the refusal is on the console. *)
Theorem saveTasks_effect (w : world) :
  (writable (localStorage w) = true ->
   exists w',
     saveTasks JSON_stringify w = (Return tt, w') /\
     in_sync JSON_stringify w' /\
     (forall k, k <> "tasks" ->
        items (localStorage w') !! k = items (localStorage w) !! k) /\
     tasks w' = tasks w /\ console w' = console w /\
     saveTasks JSON_stringify w' = (Return tt, w'))
  /\ (writable (localStorage w) = false ->
      exists w',
        saveTasks JSON_stringify w = (Throw (Error "Failed to save tasks"), w') /\
        localStorage w' = localStorage w /\ tasks w' = tasks w /\
        console w' =
          console w ++ [("Failed to save tasks:", DOMException "QuotaExceededError")]).
Proof.
  split; intros Hw; rewrite saveTasks_run, Hw; eexists; (split; [reflexivity|]).
  - unfold in_sync. simpl. split_and!; try done.
    + apply lookup_insert_eq.
    + intros k Hk. by rewrite lookup_insert_ne.
    + rewrite saveTasks_run. simpl. rewrite Hw. unfold persisted. simpl.
      by rewrite insert_insert_eq.
  - done.
Qed.

(** One call on a storage that takes writes: the storage still takes
    writes, and either list and storage are as before or the stored text
    is that of the new list. *)
Lemma step_write_through (o : op) (w : world) :
  writable (localStorage w) = true ->
  let w' := step JSON_stringify o w in
  writable (localStorage w') = true /\
  readable (localStorage w') = readable (localStorage w) /\
  ((tasks w' = tasks w /\ localStorage w' = localStorage w) \/
   in_sync JSON_stringify w').
Proof.
  intros Hw. unfold in_sync.
  destruct o as [now createdAt title description priority
                |taskId|taskId updates|taskId|filterType|searchTerm]; simpl.
  - rewrite addTask_run.
    destruct (optional_trim title) as [t| |]; [|by auto..].
    destruct (negb (truthy t)); [by auto|].
    destruct (call_trim title) as [title'| |]; [|by auto..].
    destruct (optional_trim description) as [d| |]; [|by auto..].
    cbv zeta. rewrite Hw. simpl. split_and!; [done..|]. right. apply lookup_insert_eq.
  - rewrite deleteTask_run.
    destruct (list_find (has_id taskId) (tasks w)); [|by auto].
    cbv zeta. rewrite Hw. simpl. split_and!; [done..|]. right. apply lookup_insert_eq.
  - rewrite updateTask_run.
    destruct (list_find (has_id taskId) (tasks w)) as [[i t]|]; [|by auto].
    cbv zeta. rewrite Hw. simpl. split_and!; [done..|]. right. apply lookup_insert_eq.
  - rewrite toggleTaskCompletion_run.
    destruct (list_find (has_id taskId) (tasks w)) as [[i t]|]; [|by auto].
    cbv zeta. rewrite Hw. simpl. split_and!; [done..|]. right. apply lookup_insert_eq.
  - rewrite filterTasks_pure. auto.
  - rewrite searchTasks_pure. auto.
Qed.

(** The same over a sequence of calls, from any world [v] that satisfies
    the alternative with respect to [w]. *)
Lemma run_write_through (os : list op) (w v : world) :
  writable (localStorage v) = true ->
  (tasks v = tasks w /\ localStorage v = localStorage w) \/ in_sync JSON_stringify v ->
  let v' := run JSON_stringify os v in
  writable (localStorage v') = true /\
  readable (localStorage v') = readable (localStorage v) /\
  ((tasks v' = tasks w /\ localStorage v' = localStorage w) \/ in_sync JSON_stringify v').
Proof.
  revert v. induction os as [|o os IH]; intros v Hv Hinv; [done|].
  destruct (step_write_through o v Hv) as (Hv' & Hr & Hstep).
  cbn [run]. cbv zeta. rewrite <-Hr. apply IH; [done|].
  destruct Hstep as [[Ht Hl]|Hsync]; [|by right].
  destruct Hinv as [[Ht0 Hl0]|Hsync0].
  - left. split; congruence.
  - right. unfold in_sync in *. by rewrite Hl, Ht.
Qed.

(** X2. Persistence is write-through. On a storage that takes writes,
    after any sequence of calls either no call changed list or storage, or
    the text stored under "tasks" is the text of the list now in memory;
    a rejected or failed call in between does not break this. *)
Theorem stored_list_is_current (os : list op) (w : world) :
  writable (localStorage w) = true ->
  let w' := run JSON_stringify os w in
  (tasks w' = tasks w /\ localStorage w' = localStorage w) \/
  in_sync JSON_stringify w'.
Proof.
  intros Hw. apply (run_write_through os w w); auto.
Qed.

Lemma step_refused (o : op) (w : world) :
  writable (localStorage w) = false ->
  localStorage (step JSON_stringify o w) = localStorage w.
Proof.
  intros Hw.
  destruct o as [now createdAt title description priority
                |taskId|taskId updates|taskId|filterType|searchTerm]; simpl.
  - rewrite addTask_run.
    destruct (optional_trim title) as [t| |]; [|done..].
    destruct (negb (truthy t)); [done|].
    destruct (call_trim title) as [title'| |]; [|done..].
    destruct (optional_trim description) as [d| |]; [|done..].
    cbv zeta. by rewrite Hw.
  - rewrite deleteTask_run.
    destruct (list_find (has_id taskId) (tasks w)); [|done]. cbv zeta. by rewrite Hw.
  - rewrite updateTask_run.
    destruct (list_find (has_id taskId) (tasks w)) as [[i t]|]; [|done].
    cbv zeta. by rewrite Hw.
  - rewrite toggleTaskCompletion_run.
    destruct (list_find (has_id taskId) (tasks w)) as [[i t]|]; [|done].
    cbv zeta. by rewrite Hw.
  - by rewrite filterTasks_pure.
  - by rewrite searchTasks_pure.
Qed.

(** X3. A storage that refuses writes is never changed, whatever is
    called; the list in memory is changed all the same, here by an add
    that throws "Failed to add task" and yet leaves its task in the
    list. *)
Theorem refused_storage_diverges (os : list op) (w : world) :
  writable (localStorage w) = false ->
  localStorage (run JSON_stringify os w) = localStorage w
  /\ (forall now createdAt s priority,
        JSString.trim s <> "" ->
        exists task w',
          addTask JSON_stringify now createdAt (VStr s) VUndef priority w =
            (Throw (Error "Failed to add task"), w') /\
          tasks w' = tasks w ++ [task] /\ get task "id" = VNum now /\
          localStorage w' = localStorage w).
Proof.
  intros Hw. split.
  - revert w Hw. induction os as [|o os IH]; intros w Hw; [done|].
    cbn [run]. rewrite IH; rewrite step_refused; done.
  - intros now createdAt s priority Hs. rewrite addTask_run. simpl.
    rewrite bool_decide_eq_false_2 by done. simpl. rewrite Hw.
    eexists _, _. split; [reflexivity|]. done.
Qed.

End Saving.

(** ** Loading *)

Section Loading.

Variable JSON_stringify : list obj -> string.
Variable JSON_parse : string -> parsed.

Lemma init_run (w : world) :
  init JSON_parse w =
    if readable (localStorage w) then
      match items (localStorage w) !! "tasks" with
      | None => (Return tt, with_tasks [] w)
      | Some s =>
          if truthy (VStr s) then
            match JSON_parse s with
            | TaskList ts => (Return tt, with_tasks ts w)
            | SyntaxErr =>
                (Return tt,
                 with_tasks []
                   (with_log "Failed to initialize tasks:"
                      (SyntaxError "Unexpected token in JSON") w))
            | Falsy | Other => (Outside, w)
            end
          else (Return tt, with_tasks [] w)
      end
    else (Return tt,
          with_tasks []
            (with_log "Failed to initialize tasks:" (DOMException "SecurityError") w)).
Proof.
  unfold init, call_JSON_parse, bind, try_catch, set_tasks,
    console_error, localStorage_getItem, ret, throw. simpl.
  destruct (readable (localStorage w)); [|done].
  destruct (items (localStorage w) !! "tasks") as [s|]; [|done].
  destruct (negb (bool_decide (s = ""))); [|done].
  by destruct (JSON_parse s).
Qed.

(** X4. With a storage that can be read and written and a JSON codec that
    reads back the text it writes, reloading the page after any sequence
    of calls from a first visit gives the list that was in memory: the
    new instance holds as many tasks, in the same order, each reading the
    same at every property. *)
Theorem reload_shows_current_list (os : list op) (w : world) :
  (forall ts, JSON_stringify ts <> "") ->
  (forall ts, JSON_parse (JSON_stringify ts) = TaskList (defined_entries <$> ts)) ->
  first_visit w ->
  writable (localStorage w) = true ->
  readable (localStorage w) = true ->
  let w' := run JSON_stringify os w in
  exists w2,
    constructor JSON_parse (fresh_instance w') = (Return tt, w2) /\
    Forall2 same_fields (tasks w2) (tasks w').
Proof.
  intros Hne Hcodec [Hempty Habsent] Hw Hr. cbv zeta.
  destruct (run_write_through JSON_stringify os w w Hw) as (_ & Hr' & Hinv); [auto|].
  rewrite constructor_run. cbn [fresh_instance localStorage]. rewrite Hr', Hr.
  destruct Hinv as [[Ht Hl]|Hsync].
  - rewrite Hl, Habsent, Ht, Hempty. eexists. split; [reflexivity|]. constructor.
  - unfold in_sync in Hsync. rewrite Hsync, Hcodec. simpl.
    rewrite bool_decide_eq_false_2 by apply Hne. simpl.
    eexists. split; [reflexivity|]. simpl.
    apply Forall2_fmap_l, Forall_Forall2_diag, Forall_forall.
    intros t _ k. apply get_defined_entries.
Qed.

Lemma init_effect (w : world) :
  loadable JSON_parse (localStorage w) ->
  exists w',
    init JSON_parse w = (Return tt, w') /\
    tasks w' = stored_list JSON_parse (localStorage w) /\
    localStorage w' = localStorage w.
Proof.
  intros Hload. rewrite init_run. unfold stored_list. unfold loadable in Hload.
  destruct (readable (localStorage w)); [|by eexists].
  destruct (items (localStorage w) !! "tasks") as [s|]; [|by eexists].
  destruct (truthy (VStr s)) eqn:Hs; [|by eexists].
  destruct (Hload eq_refl s eq_refl) as [->|[ts ->]]; [by intros ->|by eexists..].
Qed.

(** A storage in which the key holds the text of a task list, written
    by a codec that reads its own text back, is one to start from. *)
Lemma loadable_written (st : Storage) (ts : list obj) :
  (forall l, JSON_parse (JSON_stringify l) = TaskList (defined_entries <$> l)) ->
  items st !! "tasks" = Some (JSON_stringify ts) ->
  loadable JSON_parse st.
Proof.
  intros Hcodec Hst _ s Hs _. rewrite Hst in Hs. injection Hs as <-.
  right. eexists. apply Hcodec.
Qed.

(** X5. Starting the page loads the list twice with the effect of once.
    For a storage whose text under the key is JSON for a task list or
    not JSON at all (or that cannot be read, or holds nothing or the
    empty text there), the constructor's [init] and the awaited second
    [init] both return normally and write nothing to the storage, and
    the list after each is the list the storage holds. [init] forgets
    whatever list was in memory: called on any list, it leaves the
    stored one. Stored JSON for another value, which becomes
    [this.tasks] as it is, is not covered. *)
Theorem startup_loads_from_storage (w : world) :
  loadable JSON_parse (localStorage w) ->
  exists w1 w2,
    constructor JSON_parse w = (Return tt, w1) /\
    startup JSON_parse w = (Return tt, w2) /\
    tasks w1 = stored_list JSON_parse (localStorage w) /\
    tasks w2 = stored_list JSON_parse (localStorage w) /\
    localStorage w1 = localStorage w /\ localStorage w2 = localStorage w /\
    (forall ts, tasks (init JSON_parse (with_tasks ts w)).2
                = stored_list JSON_parse (localStorage w)).
Proof.
  intros Hload. unfold startup, constructor, bind, set_tasks.
  destruct (init_effect (with_tasks [] w) Hload) as (w1 & Hinit1 & Ht1 & Hl1).
  destruct (init_effect w1) as (w2 & Hinit2 & Ht2 & Hl2); [by rewrite Hl1|].
  exists w1, w2. rewrite Hinit1, Hinit2. split_and!; try done.
  - by rewrite Ht2, Hl1.
  - by rewrite Hl2, Hl1.
  - intros ts. destruct (init_effect (with_tasks ts w) Hload) as (w' & -> & Ht' & _).
    done.
Qed.

End Loading.

(** ** The methods of [taskManager.js], once more *)

Section Methods.

Variable JSON_stringify : list obj -> string.

(** X6. [updateTask] on an identifier that a task carries, with a storage
    that takes the write: the first task with the identifier is merged
    with the record and returned; a property whose value in the record is
    defined takes that value, every other property keeps the task's, so a
    record value [undefined] changes nothing. Tasks with another
    identifier keep place and content, the list keeps its length, the
    console is untouched and the stored text is that of the new list. *)
Theorem updateTask_merges (taskId : value) (updates : obj) (w : world) :
  taskId ∈ ids (tasks w) ->
  writable (localStorage w) = true ->
  exists i task task' w',
    list_find (has_id taskId) (tasks w) = Some (i, task) /\
    updateTask JSON_stringify taskId updates w = (Return task', w') /\
    (forall k, get task' k =
               if decide (get updates k = VUndef) then get task k else get updates k) /\
    tasks w' !! i = Some task' /\
    length (tasks w') = length (tasks w) /\
    (forall j t, tasks w !! j = Some t -> get t "id" <> taskId ->
                 tasks w' !! j = Some t) /\
    console w' = console w /\
    in_sync JSON_stringify w'.
Proof.
  intros Hin Hw. rewrite updateTask_run.
  destruct (list_find (has_id taskId) (tasks w)) as [[i task]|] eqn:Hf;
    [|by apply list_find_has_id_None in Hf].
  pose proof Hf as [Hi Hid]%list_find_has_id_Some. rewrite Hw.
  eexists i, task, _, _. split_and!; [done|reflexivity|..]; simpl.
  - apply get_merge.
  - rewrite lookup_replace_by_id, Hi. simpl. by rewrite decide_True.
  - apply length_replace_by_id.
  - intros j t Hj Ht. rewrite lookup_replace_by_id, Hj. simpl. by rewrite decide_False.
  - done.
  - unfold in_sync. simpl. apply lookup_insert_eq.
Qed.

Lemma toggleTaskCompletion_returns (taskId : value) (w w' : world) (task' : obj) :
  toggleTaskCompletion JSON_stringify taskId w = (Return task', w') ->
  in_sync JSON_stringify w' /\
  exists i task,
    list_find (has_id taskId) (tasks w) = Some (i, task) /\
    task' = spread task {[ "completed" := VBool (negb (truthy (get task "completed"))) ]}.
Proof.
  rewrite toggleTaskCompletion_run.
  destruct (list_find (has_id taskId) (tasks w)) as [[i t]|]; [|done].
  cbv zeta. destruct (writable (localStorage w)); [|done].
  intros [= <- <-]. split; [apply lookup_insert_eq|eauto].
Qed.

(** X7. Two calls of [toggleTaskCompletion] on the same identifier undo
    each other: in a store with unique identifiers and boolean completion
    flags, on a storage that takes writes, the first call returns the task
    with the flag negated, the second returns the task as it was, and
    afterwards the list is the list before the two calls and the stored
    text is the text of that list. *)
Theorem toggle_twice_restores (taskId : value) (w : world) :
  taskId ∈ ids (tasks w) ->
  writable (localStorage w) = true ->
  unique_ids (tasks w) ->
  (forall task, task ∈ tasks w -> exists b, get task "completed" = VBool b) ->
  exists task task1 w1 w2,
    task ∈ tasks w /\ get task "id" = taskId /\
    toggleTaskCompletion JSON_stringify taskId w = (Return task1, w1) /\
    get task1 "completed" = VBool (negb (truthy (get task "completed"))) /\
    toggleTaskCompletion JSON_stringify taskId w1 = (Return task, w2) /\
    tasks w2 = tasks w /\
    items (localStorage w2) !! "tasks" = Some (JSON_stringify (tasks w)).
Proof.
  intros Hin Hw Hu Hbool.
  destruct (toggleTaskCompletion_twice JSON_stringify taskId w Hin Hw Hbool)
    as (i & task & task1 & w1 & w2 & Hi & Hid & Hrun1 & _ & Hrun2 & Hback).
  exists task, task1, w1, w2.
  destruct (toggleTaskCompletion_returns _ _ _ _ Hrun1) as (_ & i' & t & Hf & ->).
  apply list_find_has_id_Some in Hf as [Hi' Hid'].
  assert (t = task) as ->.
  { apply (unique_ids_same_task (tasks w)); [done|..].
    - apply list_elem_of_lookup; eauto.
    - apply list_elem_of_lookup; eauto.
    - unfold has_id in Hid'. congruence. }
  destruct (toggleTaskCompletion_returns _ _ _ _ Hrun2) as (Hsync & _).
  split_and!; try done.
  - apply list_elem_of_lookup; eauto.
  - by rewrite get_toggled, decide_True.
  - by apply Hback.
  - unfold in_sync in Hsync. by rewrite Hsync, Hback.
Qed.

(** X8. The lookup table of the newer [filterTasks] and the [switch] of
    the older one give the same result on every filter type except ten
    names of [Object.prototype] members: the nine methods that need a
    [this], and [__proto__]. On the nine the two still agree when the
    list is empty. *)
Theorem filterTasks_agrees_with_switch (filterType : string) (w : world) :
  (filterType ∉ ["toLocaleString"; "valueOf"; "hasOwnProperty"; "isPrototypeOf";
                 "propertyIsEnumerable"; "__defineGetter__"; "__defineSetter__";
                 "__lookupGetter__"; "__lookupSetter__"; "__proto__"] ->
   filterTasks filterType w = Legacy.filterTasks filterType w)
  /\ (filterType <> "__proto__" -> tasks w = [] ->
      filterTasks filterType w = Legacy.filterTasks filterType w).
Proof.
  assert (Hall : forall ts, Array_filter (fun _ => Return true) ts = Return ts).
  { intros ts. rewrite (Array_filter_total (fun _ => true)).
    f_equal. apply filter_all, Forall_forall. done. }
  assert (Hfive : filterType ∈ ["completed"; "incomplete"; "high-priority";
                                "medium-priority"; "low-priority"] ->
                  filterTasks filterType w = Legacy.filterTasks filterType w).
  { intros H. destruct (filterTasks_recognized w) as (H1 & H2 & H3 & H4 & H5).
    cases_in_list H; [rewrite H1|rewrite H2|rewrite H3|rewrite H4|rewrite H5];
      reflexivity. }
  assert (Htwo : filterType ∈ ["constructor"; "toString"] ->
                 filterTasks filterType w = Legacy.filterTasks filterType w).
  { intros H. cases_in_list H;
      unfold filterTasks, Legacy.filterTasks, bind, get_tasks, lift; simpl;
      by rewrite Hall. }
  assert (Hplain : plain_filterType filterType ->
                   filterTasks filterType w = Legacy.filterTasks filterType w).
  { intros Hp. rewrite filterTasks_unrecognized by done.
    rewrite Legacy_filterTasks_unrecognized; [done|]. apply Hp. }
  destruct (decide (filterType ∈ ["completed"; "incomplete"; "high-priority";
                                  "medium-priority"; "low-priority"])) as [H5|H5];
    [by split; intros; apply Hfive|].
  destruct (decide (filterType ∈ ["constructor"; "toString"])) as [H2|H2];
    [by split; intros; apply Htwo|].
  destruct (decide (filterType ∈ ["toLocaleString"; "valueOf"; "hasOwnProperty";
              "isPrototypeOf"; "propertyIsEnumerable"; "__defineGetter__";
              "__defineSetter__"; "__lookupGetter__"; "__lookupSetter__"])) as [H9|H9].
  - split.
    + intros Hnot. destruct Hnot. cases_in_list H9; by in_list.
    + intros _ Hempty. rewrite Legacy_filterTasks_unrecognized by done.
      unfold filterTasks, bind, get_tasks, lift. rewrite Hempty.
      cases_in_list H9; reflexivity.
  - destruct (decide (filterType = "__proto__")) as [->|Hproto].
    + split; [|done]. intros Hnot. destruct Hnot. by in_list.
    + assert (plain_filterType filterType); [|by split; intros; apply Hplain].
      split; [done|]. intros H. cases_in_list H;
        first [ by apply H2; in_list | by apply H9; in_list | done ].
Qed.

(** X9. The title is checked when a task is added, and only then. A task
    that [addTask] returns has a title that is text, not empty, and free
    of white space at both ends; [updateTask] stores whatever title the
    record gives, the empty text and white space included, untrimmed. *)
Theorem title_checked_on_add_only (w : world) :
  (forall now createdAt title description priority task w',
     addTask JSON_stringify now createdAt title description priority w =
       (Return task, w') ->
     exists t,
       get task "title" = VStr t /\ t <> "" /\
       JSString.starts_white t = false /\ JSString.ends_white t = false)
  /\ (forall taskId title,
        taskId ∈ ids (tasks w) ->
        writable (localStorage w) = true ->
        exists task' w',
          updateTask JSON_stringify taskId {[ "title" := VStr title ]} w =
            (Return task', w') /\
          get task' "title" = VStr title /\ task' ∈ tasks w').
Proof.
  split.
  - intros now createdAt title description priority task w'. rewrite addTask_run.
    destruct title as [| |?|?|s]; simpl; try done.
    destruct (bool_decide (JSString.trim s = "")) eqn:Hs; simpl; [done|].
    apply bool_decide_eq_false in Hs.
    destruct (optional_trim description) as [d| |]; [|done..].
    cbv zeta. destruct (writable (localStorage w)); [|done]. intros [= <- _].
    exists (JSString.trim s). split_and!; [done|done|..];
      destruct (trim_spec s) as (pre & post & _ & _ & _ & Hstart & Hend); done.
  - intros taskId title Hin Hw. rewrite updateTask_run.
    destruct (list_find (has_id taskId) (tasks w)) as [[i task]|] eqn:Hf;
      [|by apply list_find_has_id_None in Hf].
    apply list_find_has_id_Some in Hf as [Hi Hid]. rewrite Hw.
    eexists _, _. split; [reflexivity|]. split.
    + assert (Hg : get ({[ "title" := VStr title ]} : obj) "title" = VStr title)
        by (unfold get; by rewrite lookup_singleton_eq).
      by rewrite get_merge, Hg, decide_False.
    + simpl. apply list_elem_of_lookup. exists i.
      rewrite lookup_replace_by_id, Hi. simpl. by rewrite decide_True.
Qed.

(** X10. The calls keep the data model: from an empty store, after any
    sequence of calls whose update records give text where they define
    title or description and a boolean where they define the completion
    flag, every task of the list has text for title and description and a
    boolean completion flag. *)
Theorem well_typed_from_empty (os : list op) (w : world) :
  tasks w = [] ->
  Forall typed_call os ->
  Forall well_typed (tasks (run JSON_stringify os w)).
Proof.
  intros Hempty Hos. apply run_well_typed; [|done]. rewrite Hempty. constructor.
Qed.

End Methods.

(** ** The older class *)

Section LegacyMethods.

Variable JSON_stringify : list obj -> string.
Variable JSON_parse : string -> parsed.

Lemma Legacy_saveTasks_run (w : world) :
  Legacy.saveTasks JSON_stringify w =
    if writable (localStorage w)
    then (Return tt, persisted JSON_stringify w)
    else (Throw (DOMException "QuotaExceededError"), w).
Proof.
  unfold Legacy.saveTasks, bind, get_tasks, localStorage_setItem. simpl.
  destruct (writable (localStorage w)) eqn:Hw; [|done].
  unfold persisted. by rewrite Hw.
Qed.

(** The object literal of the older [addTask]. *)
Lemma Legacy_addTask_run now createdAt (title description priority : value) (w : world) :
  Legacy.addTask JSON_stringify now createdAt title description priority w =
    if negb (truthy title) then (Throw (Error "Task title cannot be empty"), w)
    else match call_trim title with
         | Throw e => (Throw e, w)
         | Outside => (Outside, w)
         | Return t =>
             if strict_eq t (VStr "")
             then (Throw (Error "Task title cannot be empty"), w)
             else match call_trim description with
                  | Throw e => (Throw e, w)
                  | Outside => (Outside, w)
                  | Return d =>
                      let task : obj :=
                        {[ "id" := VStr (pretty now); "title" := t;
                           "description" := d; "priority" := priority;
                           "completed" := VBool false;
                           "createdAt" := VStr createdAt ]} in
                      let w1 := with_tasks (tasks w ++ [task]) w in
                      if writable (localStorage w)
                      then (Return task, persisted JSON_stringify w1)
                      else (Throw (DOMException "QuotaExceededError"), w1)
                  end
         end.
Proof.
  unfold Legacy.addTask, bind, lift. destruct (negb (truthy title)); [done|].
  destruct (call_trim title) as [t|e|]; [|done..].
  destruct (strict_eq t (VStr "")); [done|].
  destruct (call_trim description) as [d|e|]; [|done..].
  unfold get_tasks, set_tasks. rewrite Legacy_saveTasks_run. simpl.
  by destruct (writable (localStorage w)).
Qed.

(** X11. The older [addTask]. A title that is falsy or trims to the empty
    text throws "Task title cannot be empty" and changes nothing. With
    any other title text: a description that is text, on a storage that
    takes the write, gives one task appended and returned, its identifier
    the decimal text of the clock reading; a missing description throws a
    [TypeError] and adds nothing; a refused write lets the storage error
    through with the task already in the list. *)
Theorem Legacy_addTask_spec now createdAt (title description priority : value) (w : world) :
  (truthy title = false \/ (exists s, title = VStr s /\ JSString.trim s = "") ->
   Legacy.addTask JSON_stringify now createdAt title description priority w =
     (Throw (Error "Task title cannot be empty"), w))
  /\ (forall s,
        title = VStr s -> JSString.trim s <> "" ->
        (forall d, description = VStr d ->
           let task : obj :=
             {[ "id" := VStr (pretty now); "title" := VStr (JSString.trim s);
                "description" := VStr (JSString.trim d); "priority" := priority;
                "completed" := VBool false; "createdAt" := VStr createdAt ]} in
           (writable (localStorage w) = true ->
            exists w',
              Legacy.addTask JSON_stringify now createdAt title description priority w =
                (Return task, w') /\
              tasks w' = tasks w ++ [task] /\ in_sync JSON_stringify w') /\
           (writable (localStorage w) = false ->
            Legacy.addTask JSON_stringify now createdAt title description priority w =
              (Throw (DOMException "QuotaExceededError"),
               with_tasks (tasks w ++ [task]) w)))
        /\ (description = VUndef \/ description = VNull ->
            exists message,
              Legacy.addTask JSON_stringify now createdAt title description priority w =
                (Throw (TypeError message), w))).
Proof.
  split.
  - intros [Hf|(s & -> & Hs)]; rewrite Legacy_addTask_run.
    + by rewrite Hf.
    + simpl. destruct (bool_decide (s = "")); simpl; [done|].
      rewrite Hs. unfold strict_eq. by rewrite bool_decide_eq_true_2.
  - intros s -> Hs.
    assert (Hne : s <> "") by (by intros ->).
    assert (Hrun : forall r : result obj * world,
              (if strict_eq (VStr (JSString.trim s)) (VStr "")
               then (Throw (Error "Task title cannot be empty"), w) else r) = r).
    { intros r. unfold strict_eq. rewrite bool_decide_eq_false_2; [done|congruence]. }
    split.
    + intros d ->. cbv zeta. split; intros Hw; rewrite Legacy_addTask_run; simpl;
        rewrite bool_decide_eq_false_2 by done; simpl; rewrite Hrun, Hw.
      * eexists. split; [reflexivity|]. split; [done|]. apply lookup_insert_eq.
      * done.
    + intros [-> | ->]; rewrite Legacy_addTask_run; simpl;
        rewrite bool_decide_eq_false_2 by done; simpl; rewrite Hrun; by eexists.
Qed.

Lemma Legacy_deleteTask_run (taskId : value) (w : world) :
  Legacy.deleteTask JSON_stringify taskId w =
    match list_find (has_id taskId) (tasks w) with
    | Some (i, _) =>
        let w1 := with_tasks (delete i (tasks w)) w in
        if writable (localStorage w)
        then (Return true, persisted JSON_stringify w1)
        else (Throw (DOMException "QuotaExceededError"), w1)
    | None => (Return false, w)
    end.
Proof.
  unfold Legacy.deleteTask, bind, get_tasks. simpl.
  destruct (list_find (has_id taskId) (tasks w)) as [[i t]|]; [|done].
  unfold set_tasks. rewrite Legacy_saveTasks_run. simpl.
  by destruct (writable (localStorage w)).
Qed.

Lemma Legacy_updateTask_run (taskId : value) (updates : obj) (w : world) :
  Legacy.updateTask JSON_stringify taskId updates w =
    match list_find (has_id taskId) (tasks w) with
    | None => (Throw (Error "Task not found"), w)
    | Some (i, taskToUpdate) =>
        match Legacy.assign_defined taskToUpdate updates with
        | Return task =>
            let w1 := with_tasks (<[i := task]> (tasks w)) w in
            if writable (localStorage w)
            then (Return task, persisted JSON_stringify w1)
            else (Throw (DOMException "QuotaExceededError"), w1)
        | Throw e => (Throw e, w)
        | Outside => (Outside, w)
        end
    end.
Proof.
  unfold Legacy.updateTask, bind, get_tasks, lift. simpl.
  destruct (list_find (has_id taskId) (tasks w)) as [[i t]|]; [|done].
  destruct (Legacy.assign_defined t updates) as [task|e|]; [|done..].
  unfold set_tasks. rewrite Legacy_saveTasks_run. simpl.
  by destruct (writable (localStorage w)).
Qed.

(** A record that gives no value under ["__proto__"] is merged like any
    other. *)
Lemma assign_defined_plain (task updates : obj) :
  get updates "__proto__" = VUndef ->
  Legacy.assign_defined task updates = Return (spread task (defined_entries updates)).
Proof.
  intros Hu. unfold Legacy.assign_defined.
  assert (Hd : defined_entries updates !! "__proto__" = None).
  { rewrite lookup_defined_entries. unfold get in Hu.
    destruct (updates !! "__proto__") as [v|]; [|done]. simpl in Hu. subst.
    by rewrite decide_True. }
  by rewrite Hd.
Qed.

(** A primitive value other than [null] under ["__proto__"] goes to the
    inherited setter, which drops it, when the task has no own property
    of that name. *)
Lemma assign_defined_proto (task updates : obj) (v : value) :
  get updates "__proto__" = v -> v <> VUndef -> v <> VNull ->
  task !! "__proto__" = None ->
  Legacy.assign_defined task updates =
    Return (spread task (delete "__proto__" (defined_entries updates))).
Proof.
  intros Hu Hv Hnull Hown. unfold Legacy.assign_defined.
  assert (Hd : defined_entries updates !! "__proto__" = Some v).
  { rewrite lookup_defined_entries. unfold get in Hu.
    destruct (updates !! "__proto__") as [v'|]; simpl in Hu; [|congruence]. subst.
    by rewrite decide_False. }
  rewrite Hd, Hown. by rewrite decide_False.
Qed.

Lemma Legacy_toggleTaskCompletion_run (taskId : value) (w : world) :
  Legacy.toggleTaskCompletion JSON_stringify taskId w =
    match list_find (has_id taskId) (tasks w) with
    | None => (Throw (Error "Task not found"), w)
    | Some (i, task) =>
        let task' := <["completed" := VBool (negb (truthy (get task "completed")))]> task in
        let w1 := with_tasks (<[i := task']> (tasks w)) w in
        if writable (localStorage w)
        then (Return task', persisted JSON_stringify w1)
        else (Throw (DOMException "QuotaExceededError"), w1)
    end.
Proof.
  unfold Legacy.toggleTaskCompletion, bind, get_tasks. simpl.
  destruct (list_find (has_id taskId) (tasks w)) as [[i t]|]; [|done].
  unfold set_tasks. rewrite Legacy_saveTasks_run. simpl.
  by destruct (writable (localStorage w)).
Qed.

(** Removing one matching position leaves one match fewer and the tasks
    that do not match as they were. *)
Lemma filter_delete_match {A} (P : A -> Prop) `{!forall x, Decision (P x)}
    (l : list A) (i : nat) (x : A) :
  l !! i = Some x -> P x ->
  (length (filter P (delete i l)) + 1 = length (filter P l))%nat /\
  filter (fun y => ~ P y) (delete i l) = filter (fun y => ~ P y) l.
Proof.
  revert i. induction l as [|y l IH]; intros i Hi Hx; [done|].
  destruct i as [|i]; simpl in Hi.
  - injection Hi as ->. simpl. rewrite filter_cons_True by done.
    rewrite (filter_cons_False (fun y => ~ P y)) by tauto. simpl. split; [lia|done].
  - destruct (IH i Hi Hx) as [IH1 IH2].
    change (delete (S i) (y :: l)) with (y :: delete i l).
    rewrite !(filter_cons P), !(filter_cons (fun y => ~ P y)), IH2.
    split; [|done]. destruct (decide (P y)); simpl; lia.
Qed.

Lemma list_find_first (taskId : value) (ts : list obj) (i : nat) (task : obj) :
  list_find (has_id taskId) ts = Some (i, task) ->
  forall j t, (j < i)%nat -> ts !! j = Some t -> ~ has_id taskId t.
Proof. intros (_ & _ & H)%list_find_Some j t Hj Ht. eauto. Qed.

(** X12. The older [deleteTask] removes one task, the first that carries
    the identifier: on a storage that takes the write it returns [true],
    the tasks before that position do not carry the identifier, the list
    is the old one without that position, one task fewer carries the
    identifier, the tasks with another identifier are all kept in their
    order, and the stored text is that of the new list. With no such task
    it returns [false] and changes nothing. *)
Theorem Legacy_deleteTask_removes_first (taskId : value) (w : world) :
  (taskId ∈ ids (tasks w) ->
   writable (localStorage w) = true ->
   exists i task w',
     Legacy.deleteTask JSON_stringify taskId w = (Return true, w') /\
     tasks w !! i = Some task /\ get task "id" = taskId /\
     (forall j t, (j < i)%nat -> tasks w !! j = Some t -> get t "id" <> taskId) /\
     tasks w' = delete i (tasks w) /\
     (length (filter (has_id taskId) (tasks w')) + 1 =
        length (filter (has_id taskId) (tasks w)))%nat /\
     filter (fun t => ~ has_id taskId t) (tasks w') =
       filter (fun t => ~ has_id taskId t) (tasks w) /\
     in_sync JSON_stringify w')
  /\ (taskId ∉ ids (tasks w) ->
      Legacy.deleteTask JSON_stringify taskId w = (Return false, w)).
Proof.
  split.
  - intros Hin Hw. rewrite Legacy_deleteTask_run.
    destruct (list_find (has_id taskId) (tasks w)) as [[i task]|] eqn:Hf;
      [|by apply list_find_has_id_None in Hf].
    pose proof (list_find_first _ _ _ _ Hf) as Hfirst.
    apply list_find_has_id_Some in Hf as [Hi Hid]. cbv zeta. rewrite Hw.
    destruct (filter_delete_match (has_id taskId) (tasks w) i task Hi Hid) as [Hn Hk].
    eexists i, task, _. split; [reflexivity|]. split_and!; try done.
    apply lookup_insert_eq.
  - intros Hnot%list_find_has_id_None. by rewrite Legacy_deleteTask_run, Hnot.
Qed.

(** Without the key ["__proto__"] the record is merged as before. *)
Lemma get_spread_delete (task entries : obj) (p k : string) :
  k <> p -> get (spread task (delete p entries)) k = get (spread task entries) k.
Proof. intros Hk. by rewrite !get_spread, lookup_delete_ne. Qed.

(** X13. The older [updateTask] changes one task, the first that carries
    the identifier, and reports an unknown identifier as such. On a
    storage that takes the write, with a record that gives nothing under
    ["__proto__"], the task at that position is merged with the record
    and returned, every other position of the list, a later task with
    the same identifier included, is as before, and the stored text is
    that of the new list. A record that does give a primitive value other
    than [null] under ["__proto__"], when the tasks with the identifier
    have no own property of that name, is merged at every other key, and
    the task gets no property ["__proto__"]: the assignment goes to the
    inherited setter.
    With no such task the caller gets "Task not found" and nothing has
    changed, the console included. *)
Theorem Legacy_updateTask_first_match (taskId : value) (updates : obj) (w : world) :
  (taskId ∈ ids (tasks w) ->
   writable (localStorage w) = true ->
   get updates "__proto__" = VUndef ->
   exists i task task' w',
     Legacy.updateTask JSON_stringify taskId updates w = (Return task', w') /\
     tasks w !! i = Some task /\ get task "id" = taskId /\
     (forall j t, (j < i)%nat -> tasks w !! j = Some t -> get t "id" <> taskId) /\
     (forall k, get task' k =
                if decide (get updates k = VUndef) then get task k else get updates k) /\
     tasks w' !! i = Some task' /\
     length (tasks w') = length (tasks w) /\
     (forall j, j <> i -> tasks w' !! j = tasks w !! j) /\
     in_sync JSON_stringify w')
  /\ (taskId ∈ ids (tasks w) ->
      writable (localStorage w) = true ->
      get updates "__proto__" <> VUndef ->
      get updates "__proto__" <> VNull ->
      (forall task, task ∈ tasks w -> get task "id" = taskId ->
                    task !! "__proto__" = None) ->
      exists i task task' w',
        Legacy.updateTask JSON_stringify taskId updates w = (Return task', w') /\
        tasks w !! i = Some task /\ get task "id" = taskId /\
        (forall k, k <> "__proto__" ->
                   get task' k =
                   if decide (get updates k = VUndef) then get task k else get updates k) /\
        task' !! "__proto__" = None /\
        tasks w' !! i = Some task' /\
        (forall j, j <> i -> tasks w' !! j = tasks w !! j) /\
        in_sync JSON_stringify w')
  /\ (taskId ∉ ids (tasks w) ->
      Legacy.updateTask JSON_stringify taskId updates w =
        (Throw (Error "Task not found"), w)).
Proof.
  split_and!.
  - intros Hin Hw Hproto. rewrite Legacy_updateTask_run.
    destruct (list_find (has_id taskId) (tasks w)) as [[i task]|] eqn:Hf;
      [|by apply list_find_has_id_None in Hf].
    pose proof (list_find_first _ _ _ _ Hf) as Hfirst.
    apply list_find_has_id_Some in Hf as [Hi Hid].
    rewrite assign_defined_plain by done. cbv zeta. rewrite Hw.
    eexists i, task, _, _. split; [reflexivity|]. simpl. split_and!; try done.
    + apply get_merge.
    + apply list_lookup_insert_eq. by eapply lookup_lt_Some.
    + apply length_insert.
    + intros j Hj. by apply list_lookup_insert_ne.
    + apply lookup_insert_eq.
  - intros Hin Hw Hdef Hnull Hown. rewrite Legacy_updateTask_run.
    destruct (list_find (has_id taskId) (tasks w)) as [[i task]|] eqn:Hf;
      [|by apply list_find_has_id_None in Hf].
    apply list_find_has_id_Some in Hf as [Hi Hid].
    assert (Htask : task !! "__proto__" = None).
    { apply Hown; [|done]. apply list_elem_of_lookup. eauto. }
    rewrite (assign_defined_proto task updates (get updates "__proto__")) by done.
    cbv zeta. rewrite Hw.
    eexists i, task, _, _. split; [reflexivity|]. simpl. split_and!; try done.
    + intros k Hk. rewrite get_spread_delete by done. apply get_merge.
    + unfold spread. apply lookup_union_None. split; [apply lookup_delete_eq|done].
    + apply list_lookup_insert_eq. by eapply lookup_lt_Some.
    + intros j Hj. by apply list_lookup_insert_ne.
    + apply lookup_insert_eq.
  - intros Hnot%list_find_has_id_None. by rewrite Legacy_updateTask_run, Hnot.
Qed.

Lemma get_insert (task : obj) (k k' : string) (v : value) :
  get (<[k := v]> task) k' = if decide (k' = k) then v else get task k'.
Proof.
  unfold get. case_decide as Hk.
  - subst. by rewrite lookup_insert_eq.
  - by rewrite lookup_insert_ne.
Qed.

(** X14. The older [toggleTaskCompletion] negates the flag of the first
    task that carries the identifier and leaves every other position of
    the list alone; called twice on a task whose flag is a boolean, it
    gives back the list it started from, whether or not identifiers are
    unique. An unknown identifier is reported as "Task not found" with
    nothing changed. *)
Theorem Legacy_toggle_twice (taskId : value) (w : world) :
  (taskId ∈ ids (tasks w) ->
   writable (localStorage w) = true ->
   exists i task task1 w1,
     Legacy.toggleTaskCompletion JSON_stringify taskId w = (Return task1, w1) /\
     tasks w !! i = Some task /\ get task "id" = taskId /\
     (forall k, get task1 k =
                if decide (k = "completed")
                then VBool (negb (truthy (get task "completed")))
                else get task k) /\
     tasks w1 !! i = Some task1 /\
     (forall j, j <> i -> tasks w1 !! j = tasks w !! j) /\
     in_sync JSON_stringify w1 /\
     (forall b, get task "completed" = VBool b ->
        exists w2,
          Legacy.toggleTaskCompletion JSON_stringify taskId w1 = (Return task, w2) /\
          tasks w2 = tasks w /\ in_sync JSON_stringify w2))
  /\ (taskId ∉ ids (tasks w) ->
      Legacy.toggleTaskCompletion JSON_stringify taskId w =
        (Throw (Error "Task not found"), w)).
Proof.
  split.
  - intros Hin Hw. rewrite Legacy_toggleTaskCompletion_run.
    destruct (list_find (has_id taskId) (tasks w)) as [[i task]|] eqn:Hf;
      [|by apply list_find_has_id_None in Hf].
    pose proof Hf as (Hi & Hid & Hfirst)%list_find_Some.
    cbv zeta. rewrite Hw.
    eexists i, task, _, _. split; [reflexivity|]. simpl. split_and!; try done.
    + intros k. apply get_insert.
    + apply list_lookup_insert_eq. by eapply lookup_lt_Some.
    + intros j Hj. by apply list_lookup_insert_ne.
    + apply lookup_insert_eq.
    + intros b Hb. rewrite Legacy_toggleTaskCompletion_run. simpl.
      set (task1 := <["completed" := VBool (negb (truthy (get task "completed")))]> task).
      assert (Hf1 : list_find (has_id taskId) (<[i := task1]> (tasks w)) = Some (i, task1)).
      { apply list_find_Some. split_and!.
        - apply list_lookup_insert_eq. by eapply lookup_lt_Some.
        - unfold has_id, task1. rewrite get_insert, decide_False; done.
        - intros j t Hj Hlt. rewrite list_lookup_insert_ne in Hj by lia. eauto. }
      rewrite Hf1, Hw.
      assert (Hback : <["completed" := VBool (negb (truthy (get task1 "completed")))]> task1
                      = task).
      { unfold task1. rewrite get_insert, decide_True by done. simpl.
        rewrite negb_involutive, Hb. simpl. apply map_eq. intros k.
        destruct (decide (k = "completed")) as [->|Hk].
        - rewrite lookup_insert_eq. unfold get in Hb.
          destruct (task !! "completed") as [v|]; simpl in Hb; by subst.
        - by rewrite !lookup_insert_ne. }
      rewrite Hback. eexists. split; [reflexivity|]. simpl.
      rewrite list_insert_insert_eq, list_insert_id by done.
      split; [done|]. apply lookup_insert_eq.
  - intros Hnot%list_find_has_id_None. by rewrite Legacy_toggleTaskCompletion_run, Hnot.
Qed.

(** X15. With unique identifiers and a storage that takes writes the two
    classes do the same: [deleteTask] of either gives the same result and
    the same world on every identifier, and so do [toggleTaskCompletion]
    on every identifier that a task carries and [updateTask] on every
    such identifier and every record that gives nothing under
    ["__proto__"] (the one key that the assignment of the older class
    and the spread of the newer treat differently). *)
Theorem classes_agree_on_unique_ids (taskId : value) (updates : obj) (w : world) :
  unique_ids (tasks w) ->
  writable (localStorage w) = true ->
  Legacy.deleteTask JSON_stringify taskId w = deleteTask JSON_stringify taskId w
  /\ (taskId ∈ ids (tasks w) ->
      (get updates "__proto__" = VUndef ->
       Legacy.updateTask JSON_stringify taskId updates w =
         updateTask JSON_stringify taskId updates w) /\
      Legacy.toggleTaskCompletion JSON_stringify taskId w =
        toggleTaskCompletion JSON_stringify taskId w).
Proof.
  intros Hu Hw.
  rewrite Legacy_deleteTask_run, deleteTask_run, Legacy_updateTask_run, updateTask_run,
    Legacy_toggleTaskCompletion_run, toggleTaskCompletion_run.
  destruct (list_find (has_id taskId) (tasks w)) as [[i task]|] eqn:Hf.
  - apply list_find_has_id_Some in Hf as [Hi Hid]. cbv zeta. rewrite Hw.
    rewrite (filter_out_unique taskId (tasks w) i task) by done.
    rewrite !(replace_by_id_unique taskId _ (tasks w) i task) by done.
    split; [done|]. intros _. split.
    + intros Hproto. by rewrite assign_defined_plain.
    + unfold spread. by rewrite insert_union_singleton_l.
  - split; [done|]. intros Hin. by apply list_find_has_id_None in Hf.
Qed.

Lemma Legacy_constructor_run (w : world) :
  Legacy.constructor JSON_parse w =
    if readable (localStorage w) then
      match items (localStorage w) !! "tasks" with
      | None => (Return tt, with_tasks [] w)
      | Some s =>
          match JSON_parse s with
          | TaskList ts => (Return tt, with_tasks ts w)
          | SyntaxErr => (Throw (SyntaxError "Unexpected token in JSON"), w)
          | Falsy => (Return tt, with_tasks [] w)
          | Other => (Outside, w)
          end
      end
    else (Throw (DOMException "SecurityError"), w).
Proof.
  unfold Legacy.constructor, bind, localStorage_getItem.
  destruct (readable (localStorage w)); [|done].
  destruct (items (localStorage w) !! "tasks") as [s|]; [|done].
  by destruct (JSON_parse s).
Qed.

(** X16. The two constructors on the same world, when the stored text is
    not the empty text. For stored text that is JSON for a task list or
    not JSON at all (and for a storage that cannot be read or holds
    nothing under the key): where the older one returns, the newer one
    returns with the same world; where the older one throws, it has
    changed nothing, and the newer one returns with an empty task list
    and that same error as the one new line of the console. For stored
    JSON of a falsy value ([null], [false], [0], the empty string) the
    older one returns with the empty list; the newer one keeps the
    parsed value as its task list, which is not covered here. *)
Theorem constructors_agree (w : world) :
  items (localStorage w) !! "tasks" <> Some "" ->
  (loadable JSON_parse (localStorage w) ->
   (forall w', Legacy.constructor JSON_parse w = (Return tt, w') ->
               constructor JSON_parse w = (Return tt, w'))
   /\ (forall e w', Legacy.constructor JSON_parse w = (Throw e, w') ->
         w' = w /\
         exists w'', constructor JSON_parse w = (Return tt, w'') /\
           tasks w'' = [] /\
           localStorage w'' = localStorage w /\
           console w'' = console w ++ [("Failed to initialize tasks:", e)]))
  /\ (forall s,
        readable (localStorage w) = true ->
        items (localStorage w) !! "tasks" = Some s ->
        JSON_parse s = Falsy ->
        Legacy.constructor JSON_parse w = (Return tt, with_tasks [] w)).
Proof.
  intros Hne. split.
  - intros Hload. rewrite Legacy_constructor_run, constructor_run. cbv zeta.
    unfold loadable in Hload.
    destruct (readable (localStorage w)).
    + destruct (items (localStorage w) !! "tasks") as [s|]; [|split; [done|by intros]].
      assert (Hs : truthy (VStr s) = true).
      { simpl. rewrite bool_decide_eq_false_2; [done|congruence]. }
      rewrite Hs.
      destruct (Hload eq_refl s eq_refl) as [->|[ts ->]]; [congruence|..].
      * split; [done|]. intros e w' [= <- <-]. split; [done|]. by eexists.
      * split; [done|by intros].
    + split; [done|]. intros e w' [= <- <-]. split; [done|]. by eexists.
  - intros s Hr Hs Hfalsy. by rewrite Legacy_constructor_run, Hr, Hs, Hfalsy.
Qed.

End LegacyMethods.

(** X17. Either class reads what the other has written. With the JSON
    text codec of this file, a storage that can be read and written, and
    any task list: the two [saveTasks] leave the same world, and over
    that storage the two constructors give a new instance the same list,
    which reads as the saved one at every property of every task. *)
Theorem classes_share_storage (w : world) :
  writable (localStorage w) = true ->
  readable (localStorage w) = true ->
  exists w1 w2,
    saveTasks JSONText.stringify w = (Return tt, w1) /\
    Legacy.saveTasks JSONText.stringify w = (Return tt, w1) /\
    constructor JSONText.JSON_parse (fresh_instance w1) = (Return tt, w2) /\
    Legacy.constructor JSONText.JSON_parse (fresh_instance w1) = (Return tt, w2) /\
    Forall2 same_fields (tasks w2) (tasks w) /\
    console w2 = [].
Proof.
  intros Hw Hr.
  rewrite saveTasks_run, Legacy_saveTasks_run, Hw.
  eexists _, _. split; [reflexivity|]. split; [reflexivity|].
  rewrite constructor_run, Legacy_constructor_run. simpl.
  rewrite Hr, lookup_insert_eq, JSON_parse_stringify.
  rewrite bool_decide_eq_false_2 by apply stringify_nonempty. simpl.
  split; [reflexivity|]. split; [reflexivity|]. simpl. split; [|done].
  apply Forall2_fmap_l, Forall_Forall2_diag, Forall_forall.
  intros t _ k. apply get_defined_entries.
Qed.

(** * The handlers of the page *)

(** The record updates of a handler, carried out. *)
Ltac ui_norm :=
  unfold with_document, with_taskManager;
  cbn [taskManager document body taskList alerts resets].

Section Handlers.

Variable JSON_stringify : list obj -> string.

Lemma numeric_ids_no_text (ts : list obj) (s : string) :
  numeric_ids ts -> list_find (has_id (VStr s)) ts = None.
Proof.
  intros Hn. apply list_find_None. eapply Forall_impl; [apply Hn|].
  intros task [n Hid] H. unfold has_id in H. congruence.
Qed.

Lemma step_numeric_ids (o : op) (w : world) :
  keeps_id o -> numeric_ids (tasks w) -> numeric_ids (tasks (step JSON_stringify o w)).
Proof.
  intros Hk Hn. destruct o as [now createdAt title description priority|taskId|taskId updates|taskId|filterType|searchTerm];
    cbn [step].
  - rewrite addTask_run. destruct (optional_trim title) as [t| |]; [|done..].
    destruct (negb (truthy t)); [done|].
    destruct (call_trim title) as [title'| |]; [|done..].
    destruct (optional_trim description) as [d| |]; [|done..].
    cbv zeta. assert (numeric_ids (tasks w ++
        [newTask now createdAt title' (nullish_coalesce d (VStr "")) priority])).
    { apply Forall_app. split; [done|]. constructor; [|constructor]. by exists now. }
    by destruct (writable (localStorage w)).
  - rewrite deleteTask_run. destruct (list_find _ _); [|done]. cbv zeta.
    assert (numeric_ids (filter (fun task => ~ has_id taskId task) (tasks w)))
      by (apply Forall_forall; intros x [_ Hx]%list_elem_of_filter;
          revert x Hx; by apply Forall_forall).
    by destruct (writable (localStorage w)).
  - rewrite updateTask_run.
    destruct (list_find _ _) as [[i task]|] eqn:Hf; [|done].
    apply list_find_has_id_Some in Hf as [Hi Hid]. cbv zeta.
    assert (numeric_ids (replace_by_id taskId
              (spread task (defined_entries updates)) (tasks w))).
    { apply Forall_replace_by_id; [|done].
      assert (Ht : exists n, get task "id" = VNum n).
      { eapply (Forall_lookup_1 _ _ _ _ Hn Hi). }
      destruct Ht as [n Ht]. exists n. rewrite get_merge.
      case_decide as Hu; [done|]. destruct Hk as [Hk|Hk]; [done|].
      unfold has_id in Hid. congruence. }
    by destruct (writable (localStorage w)).
  - rewrite toggleTaskCompletion_run.
    destruct (list_find _ _) as [[i task]|] eqn:Hf; [|done].
    apply list_find_has_id_Some in Hf as [Hi Hid]. cbv zeta.
    assert (numeric_ids (replace_by_id taskId
              (spread task {[ "completed" := VBool (negb (truthy (get task "completed"))) ]})
              (tasks w))).
    { apply Forall_replace_by_id; [|done].
      assert (Ht : exists n, get task "id" = VNum n).
      { eapply (Forall_lookup_1 _ _ _ _ Hn Hi). }
      destruct Ht as [n Ht]. exists n. by rewrite get_toggled, decide_False. }
    by destruct (writable (localStorage w)).
  - by rewrite filterTasks_pure.
  - by rewrite searchTasks_pure.
Qed.

Lemma run_numeric_ids (os : list op) (w : world) :
  Forall keeps_id os -> numeric_ids (tasks w) ->
  numeric_ids (tasks (run JSON_stringify os w)).
Proof.
  intros Hos. revert w. induction Hos as [|o os Ho _ IH]; intros w Hn; [done|].
  simpl. by apply IH, step_numeric_ids.
Qed.

(** The identifier that [handleTaskActions] passes on is text, so in a
    list of numeric identifiers it finds nothing. *)
Lemma handleTaskActions_numeric_ids (t : target) (w : world) (d : page) :
  numeric_ids (tasks w) ->
  exists w' d',
    handleTaskActions JSON_stringify t (mkBrowser w d) = (Return tt, mkBrowser w' d') /\
    tasks w' = tasks w /\ localStorage w' = localStorage w /\
    body d' = body d /\ resets d' = resets d /\
    (forall s, data_id t = Some s -> s <> "" -> "complete-btn" ∈ target_classList t ->
               alerts d' = alerts d ++ [Error "Failed to toggle task completion"]) /\
    ("complete-btn" ∉ target_classList t -> alerts d' = alerts d).
Proof.
  intros Hn. unfold handleTaskActions.
  destruct (data_id t) as [s|] eqn:Hs; [|by eexists _, _].
  simpl. destruct (bool_decide (s = "")) eqn:He; simpl.
  { apply bool_decide_eq_true in He. subst. eexists _, _. split_and!; try done.
    by intros s [= <-]. }
  unfold UI.try_catch, UI.bind, UI.call, renderTasks, UI.replaceChildren, UI.alert, showEditModal.
  destruct (bool_decide ("complete-btn" ∈ target_classList t)) eqn:Hc.
  - apply bool_decide_eq_true in Hc. simpl.
    rewrite toggleTaskCompletion_run, numeric_ids_no_text by done. simpl.
    eexists _, _. split; [reflexivity|]. split_and!; try done.
  - apply bool_decide_eq_false in Hc.
    destruct (bool_decide ("delete-btn" ∈ target_classList t)).
    + simpl. rewrite deleteTask_run, numeric_ids_no_text by done. simpl.
      destruct (taskList d); eexists _, _; (split; [reflexivity|]);
        split_and!; try done.
    + destruct (bool_decide ("edit-btn" ∈ target_classList t)); simpl.
      * rewrite numeric_ids_no_text by done. simpl.
        destruct (taskList d); eexists _, _; (split; [reflexivity|]);
          split_and!; try done.
      * destruct (taskList d); eexists _, _; (split; [reflexivity|]);
          split_and!; try done.
Qed.

(** X18. The buttons of a task do nothing in the newer page. After any
    sequence of calls on a store that started empty, with updates that
    leave identifiers alone, every identifier in the list is a number,
    while a click hands [handleTaskActions] the text of [data-id]: no
    task is found. Whatever node is clicked, the handler returns, the
    task list and the storage are as before, and no dialog opens; a
    click on a Complete button shows the alert
    "Failed to toggle task completion", a click on Delete or Edit shows
    nothing. *)
Theorem task_buttons_miss_numeric_ids (os : list op) (w0 : world) (t : target) (d : page) :
  tasks w0 = [] ->
  Forall keeps_id os ->
  let w := run JSON_stringify os w0 in
  exists w' d',
    handleTaskActions JSON_stringify t (mkBrowser w d) = (Return tt, mkBrowser w' d') /\
    tasks w' = tasks w /\ localStorage w' = localStorage w /\
    body d' = body d /\ resets d' = resets d /\
    (forall s, data_id t = Some s -> s <> "" -> "complete-btn" ∈ target_classList t ->
               alerts d' = alerts d ++ [Error "Failed to toggle task completion"]) /\
    ("complete-btn" ∉ target_classList t -> alerts d' = alerts d).
Proof.
  intros Hempty Hos. cbv zeta. apply handleTaskActions_numeric_ids.
  apply run_numeric_ids; [done|]. rewrite Hempty. constructor.
Qed.

Lemma addTask_blank_title now createdAt (title description priority : value) (w : world) :
  blank title ->
  addTask JSON_stringify now createdAt title description priority w =
    (Throw (Error "Task title cannot be empty"), w).
Proof.
  intros Hb. rewrite addTask_run. destruct title as [| |?|?|s]; try done.
  simpl in *. by rewrite Hb.
Qed.

Lemma addTask_text_title now createdAt (s d : string) (description priority : value)
    (w : world) :
  JSString.trim s <> "" ->
  trimmed_or_empty description = Some d ->
  addTask JSON_stringify now createdAt (VStr s) description priority w =
    let task := newTask now createdAt (VStr (JSString.trim s)) (VStr d) priority in
    let w1 := with_tasks (tasks w ++ [task]) w in
    if writable (localStorage w)
    then (Return task, persisted JSON_stringify w1)
    else (Throw (Error "Failed to add task"),
          with_log "Failed to add task:" (Error "Failed to save tasks") (save_failed w1)).
Proof.
  intros Hs Hd. rewrite addTask_run. simpl.
  rewrite bool_decide_eq_false_2 by done. simpl.
  destruct description as [| |?|?|d']; try done; simpl in Hd; by injection Hd as <-.
Qed.

(** X19. [handleAddTask] of the newer page always returns. With a title
    that is missing, empty or white space it shows the alert
    "Task title cannot be empty" and leaves store, list and form alone.
    With any other title text and a description that is text or missing
    it adds the task; when the storage takes the write the form is reset
    once, no alert is shown and the task list of the page, if the page
    has one, is rendered from the whole list; when the storage refuses
    the write the task is in memory all the same, the alert
    "Failed to add task" is shown, and neither form nor list is
    touched. *)
Theorem handleAddTask_spec now createdAt (taskData : obj) (w : world) (d : page) :
  (blank (get taskData "title") ->
   handleAddTask JSON_stringify now createdAt taskData (mkBrowser w d) =
     (Return tt,
      mkBrowser w (mkPage (taskList d) (body d)
                     (alerts d ++ [Error "Task title cannot be empty"]) (resets d))))
  /\ (forall s dtext,
        get taskData "title" = VStr s -> JSString.trim s <> "" ->
        trimmed_or_empty (get taskData "description") = Some dtext ->
        let task := newTask now createdAt (VStr (JSString.trim s)) (VStr dtext)
                      (get taskData "priority") in
        exists w' d',
          handleAddTask JSON_stringify now createdAt taskData (mkBrowser w d) =
            (Return tt, mkBrowser w' d') /\
          tasks w' = tasks w ++ [task] /\ body d' = body d /\
          (writable (localStorage w) = true ->
           in_sync JSON_stringify w' /\ alerts d' = alerts d /\
           resets d' = S (resets d) /\
           taskList d' = (fun _ => createTaskElement <$> tasks w') <$> taskList d) /\
          (writable (localStorage w) = false ->
           localStorage w' = localStorage w /\
           alerts d' = alerts d ++ [Error "Failed to add task"] /\
           resets d' = resets d /\ taskList d' = taskList d)).
Proof.
  split.
  - intros Hb. unfold handleAddTask, UI.try_catch, UI.bind, UI.call. cbn [taskManager].
    by rewrite addTask_blank_title.
  - intros s dtext Ht Hs Hd. cbv zeta.
    unfold handleAddTask, UI.try_catch, UI.bind, UI.call. cbn [taskManager].
    rewrite Ht, (addTask_text_title _ _ _ dtext) by done. cbv zeta.
    destruct (writable (localStorage w)) eqn:Hw.
    + unfold UI.reset, renderTasks, UI.replaceChildren. simpl.
      destruct (taskList d) as [es|]; simpl; eexists _, _;
        (split; [reflexivity|]); simpl; split_and!; try done;
        intros _; split_and!; try done; apply lookup_insert_eq.
    + unfold UI.alert. simpl. eexists _, _. split; [reflexivity|]. simpl.
      split_and!; done.
Qed.

(** X20. [handleAddTask] of the older page never shows an alert: the
    rejection of the [async] [addTask] is not awaited, so the [catch]
    does not see it. Whatever the three inputs hold, the handler returns,
    the form is reset and the list rendered. A title that is empty or
    white space changes nothing in the store; any other title adds the
    task to the list in memory and to the page, and to the storage only
    if it takes the write. *)
Theorem Legacy_handleAddTask_silent now createdAt (title description priority : string)
    (w : world) (d : page) (es : list element) :
  taskList d = Some es ->
  exists w' d',
    LegacyUI.handleAddTask JSON_stringify now createdAt title description priority
      (mkBrowser w d) = (Return tt, mkBrowser w' d') /\
    alerts d' = alerts d /\ resets d' = S (resets d) /\ body d' = body d /\
    taskList d' = Some (createTaskElement <$> tasks w') /\
    (JSString.trim title = "" -> w' = w) /\
    (JSString.trim title <> "" ->
     tasks w' = tasks w ++
       [Legacy_newTask now createdAt (VStr (JSString.trim title))
          (VStr (JSString.trim description)) (VStr priority)] /\
     (writable (localStorage w) = true -> in_sync JSON_stringify w') /\
     (writable (localStorage w) = false -> localStorage w' = localStorage w)).
Proof.
  intros Hes.
  unfold LegacyUI.handleAddTask, UI.try_catch, UI.bind, UI.detached, UI.reset,
    LegacyUI.renderTasks, UI.replaceChildren.
  cbn [taskManager]. rewrite Legacy_addTask_run.
  destruct (negb (truthy (VStr title))) eqn:Hf.
  { simpl. rewrite Hes. eexists _, _. split; [reflexivity|]. simpl.
    split_and!; try done. intros Hne. destruct Hne.
    simpl in Hf. apply negb_true_iff, negb_false_iff, bool_decide_eq_true in Hf.
    by subst. }
  cbn [call_trim]. unfold strict_eq.
  destruct (decide (JSString.trim title = "")) as [He|He].
  - rewrite bool_decide_eq_true_2 by (by rewrite He). simpl. rewrite Hes.
    eexists _, _. split; [reflexivity|]. simpl. split_and!; done.
  - rewrite bool_decide_eq_false_2 by congruence. cbv zeta.
    destruct (writable (localStorage w)) eqn:Hw; simpl; rewrite Hes;
      eexists _, _; (split; [reflexivity|]); simpl; split_and!; try done.
    all: intros _; split_and!; try done; intros _; apply lookup_insert_eq.
Qed.

(** X21. In the older page a rendered button acts on its task. For a
    task of the list whose identifier is text, a click on a node that
    carries the [data-id] of the task's element and one button class:
    the Complete button runs [toggleTaskCompletion] on that identifier
    and the Delete button runs [deleteTask] on it, each followed by a
    rendering of the whole list, on a storage that takes the write; the
    Edit button appends one dialog filled from the first task with the
    identifier. With a [data-id] that no task has, the Complete button
    throws "Task not found" out of the handler and the Edit button a
    [TypeError], and nothing has changed. *)
Theorem Legacy_task_buttons_act (t : target) (s : string) (w : world) (d : page)
    (es : list element) :
  taskList d = Some es ->
  data_id t = Some s ->
  (forall task,
     task ∈ tasks w -> get task "id" = VStr s ->
     button_data_id (createTaskElement task) = s /\
     (target_classList t = ["complete-btn"] ->
      writable (localStorage w) = true ->
      exists task' w',
        Legacy.toggleTaskCompletion JSON_stringify (VStr s) w = (Return task', w') /\
        LegacyUI.handleTaskActions JSON_stringify t (mkBrowser w d) =
          (Return tt,
           mkBrowser w' (mkPage (Some (createTaskElement <$> tasks w'))
                           (body d) (alerts d) (resets d)))) /\
     (target_classList t = ["delete-btn"] ->
      writable (localStorage w) = true ->
      exists w',
        Legacy.deleteTask JSON_stringify (VStr s) w = (Return true, w') /\
        LegacyUI.handleTaskActions JSON_stringify t (mkBrowser w d) =
          (Return tt,
           mkBrowser w' (mkPage (Some (createTaskElement <$> tasks w'))
                           (body d) (alerts d) (resets d)))) /\
     (target_classList t = ["edit-btn"] ->
      exists i first,
        list_find (has_id (VStr s)) (tasks w) = Some (i, first) /\
        LegacyUI.handleTaskActions JSON_stringify t (mkBrowser w d) =
          (Return tt,
           mkBrowser w
             (mkPage (taskList d)
                (body d ++
                   [mkModal (ToString (get first "title"))
                      (ToString (get first "description"))
                      (filter (fun priority => get first "priority" = VStr priority)
                         editTaskPriority_options)])
                (alerts d) (resets d)))))
  /\ (VStr s ∉ ids (tasks w) ->
      (target_classList t = ["complete-btn"] ->
       LegacyUI.handleTaskActions JSON_stringify t (mkBrowser w d) =
         (Throw (Error "Task not found"), mkBrowser w d)) /\
      (target_classList t = ["edit-btn"] ->
       exists message,
         LegacyUI.handleTaskActions JSON_stringify t (mkBrowser w d) =
           (Throw (TypeError message), mkBrowser w d))).
Proof.
  intros Hes Hs. split.
  - intros task Hin Hid.
    assert (Hf : exists i first, list_find (has_id (VStr s)) (tasks w) = Some (i, first)).
    { destruct (list_find (has_id (VStr s)) (tasks w)) as [[i first]|] eqn:Hf; [eauto|].
      apply list_find_has_id_None in Hf. destruct Hf. apply elem_of_ids. eauto. }
    destruct Hf as (i & first & Hf).
    split; [by unfold createTaskElement; simpl; rewrite Hid|]. split_and!.
    + intros Hc Hw.
      pose proof (Legacy_toggleTaskCompletion_run JSON_stringify (VStr s) w) as Hrun.
      rewrite Hf in Hrun. cbv zeta in Hrun. rewrite Hw in Hrun.
      eexists _, _. split; [exact Hrun|].
      unfold LegacyUI.handleTaskActions, UI.bind, UI.call, UI.detached, LegacyUI.renderTasks,
        UI.replaceChildren, UI.ret.
      rewrite Hc, Hs.
      rewrite bool_decide_eq_true_2 by in_list.
      rewrite !bool_decide_eq_false_2 by (apply (bool_decide_unpack _); by vm_compute).
      cbn [taskManager]. rewrite Hrun. simpl. by rewrite Hes.
    + intros Hc Hw.
      pose proof (Legacy_deleteTask_run JSON_stringify (VStr s) w) as Hrun.
      rewrite Hf in Hrun. cbv zeta in Hrun. rewrite Hw in Hrun.
      eexists. split; [exact Hrun|].
      unfold LegacyUI.handleTaskActions, UI.bind, UI.call, UI.detached, LegacyUI.renderTasks,
        UI.replaceChildren, UI.ret.
      rewrite Hc, Hs.
      rewrite bool_decide_eq_false_2 by (apply (bool_decide_unpack _); by vm_compute).
      rewrite bool_decide_eq_true_2 by in_list.
      rewrite bool_decide_eq_false_2 by (apply (bool_decide_unpack _); by vm_compute).
      cbn [taskManager]. rewrite Hrun. simpl. by rewrite Hes.
    + intros Hc. exists i, first. split; [done|].
      unfold LegacyUI.handleTaskActions, UI.bind, LegacyUI.showEditModal, UI.appendChild, UI.ret.
      rewrite Hc, Hs.
      rewrite !bool_decide_eq_false_2 by (apply (bool_decide_unpack _); by vm_compute).
      rewrite bool_decide_eq_true_2 by in_list.
      cbn [taskManager]. by rewrite Hf.
  - intros Hnot%list_find_has_id_None. split.
    + intros Hc. unfold LegacyUI.handleTaskActions, UI.bind, UI.call.
      rewrite Hc, Hs.
      rewrite bool_decide_eq_true_2 by in_list. cbn [taskManager].
      rewrite Legacy_toggleTaskCompletion_run, Hnot. by destruct w, d.
    + intros Hc. eexists.
      unfold LegacyUI.handleTaskActions, UI.bind, LegacyUI.showEditModal, UI.ret.
      rewrite Hc, Hs.
      rewrite !bool_decide_eq_false_2 by (apply (bool_decide_unpack _); by vm_compute).
      rewrite bool_decide_eq_true_2 by in_list.
      cbn [taskManager]. by rewrite Hnot.
Qed.

(** The record that the edit dialog hands to [updateTask]. *)
Lemma get_edit_record (title description priority : string) (k : string) :
  get ({[ "title" := VStr title; "description" := VStr description;
          "priority" := VStr priority ]} : obj) k =
    if decide (k = "title") then VStr title
    else if decide (k = "description") then VStr description
    else if decide (k = "priority") then VStr priority
    else VUndef.
Proof.
  unfold get. repeat case_decide; subst.
  - by rewrite lookup_insert_eq.
  - rewrite lookup_insert_ne by done. by rewrite lookup_insert_eq.
  - rewrite !lookup_insert_ne by done. by rewrite lookup_singleton_eq.
  - rewrite !lookup_insert_ne by done. by rewrite lookup_singleton_ne.
Qed.

(** X22. Saving the edit dialog of the newer page. When a task has the
    identifier, the storage takes the write and the dialog is in the
    body, the handler returns without an alert, the first task with the
    identifier has become a task with the three texts of the dialog as
    title, description and priority, untrimmed, and every other property
    as before; the identifiers of the list are as before, the dialog is
    removed and the page renders the whole list. When no task has the
    identifier, the alert "Failed to update task" is shown, the dialog
    stays, and list and storage are untouched. *)
Theorem handleSubmit_spec (taskId : value) (modal : nat)
    (title description priority : string) (w : world) (d : page) :
  (taskId ∈ ids (tasks w) ->
   writable (localStorage w) = true ->
   (modal < length (body d))%nat ->
   exists i task task' w' d',
     handleSubmit JSON_stringify taskId modal title description priority
       (mkBrowser w d) = (Return tt, mkBrowser w' d') /\
     list_find (has_id taskId) (tasks w) = Some (i, task) /\
     tasks w' !! i = Some task' /\
     get task' "title" = VStr title /\
     get task' "description" = VStr description /\
     get task' "priority" = VStr priority /\
     (forall k, k ∉ ["title"; "description"; "priority"] -> get task' k = get task k) /\
     ids (tasks w') = ids (tasks w) /\
     in_sync JSON_stringify w' /\
     body d' = delete modal (body d) /\ alerts d' = alerts d /\
     taskList d' = (fun _ => createTaskElement <$> tasks w') <$> taskList d)
  /\ (taskId ∉ ids (tasks w) ->
      exists w',
        handleSubmit JSON_stringify taskId modal title description priority
          (mkBrowser w d) =
          (Return tt,
           mkBrowser w' (mkPage (taskList d) (body d)
                           (alerts d ++ [Error "Failed to update task"]) (resets d))) /\
        tasks w' = tasks w /\ localStorage w' = localStorage w).
Proof.
  split.
  - intros Hin Hw Hm.
    destruct (list_find (has_id taskId) (tasks w)) as [[i task]|] eqn:Hf;
      [|by apply list_find_has_id_None in Hf].
    pose proof (updateTask_run JSON_stringify taskId
      {[ "title" := VStr title; "description" := VStr description;
         "priority" := VStr priority ]} w) as Hrun.
    rewrite Hf in Hrun. cbv zeta in Hrun. rewrite Hw in Hrun.
    pose proof Hf as [Hi Hid]%list_find_has_id_Some.
    assert (Hget : forall k,
              get (spread task (defined_entries
                     {[ "title" := VStr title; "description" := VStr description;
                        "priority" := VStr priority ]})) k =
              if decide (k = "title") then VStr title
              else if decide (k = "description") then VStr description
              else if decide (k = "priority") then VStr priority
              else get task k).
    { intros k. rewrite get_merge, get_edit_record. repeat case_decide; done. }
    remember (spread task (defined_entries
                {[ "title" := VStr title; "description" := VStr description;
                   "priority" := VStr priority ]})) as task' eqn:Htask'.
    assert (Hid' : has_id taskId task').
    { unfold has_id. rewrite Hget. by rewrite !decide_False. }
    exists i, task, task'.
    unfold handleSubmit, UI.try_catch, UI.bind, UI.call, UI.removeChild, renderTasks, UI.replaceChildren.
    cbn [taskManager]. rewrite Hrun.
    cbn [with_taskManager with_document taskManager document body taskList alerts resets].
    rewrite decide_True by exact Hm.
    cbn [with_taskManager with_document taskManager document body taskList alerts resets].
    assert (Hrest :
      persisted JSON_stringify (with_tasks (replace_by_id taskId task' (tasks w)) w)
        = persisted JSON_stringify (with_tasks (replace_by_id taskId task' (tasks w)) w) ->
      tasks (persisted JSON_stringify
               (with_tasks (replace_by_id taskId task' (tasks w)) w)) !! i = Some task' /\
      get task' "title" = VStr title /\
      get task' "description" = VStr description /\
      get task' "priority" = VStr priority /\
      (forall k, k ∉ ["title"; "description"; "priority"] -> get task' k = get task k) /\
      ids (tasks (persisted JSON_stringify
                    (with_tasks (replace_by_id taskId task' (tasks w)) w))) =
        ids (tasks w) /\
      in_sync JSON_stringify
        (persisted JSON_stringify (with_tasks (replace_by_id taskId task' (tasks w)) w))).
    { intros _. cbn [persisted with_storage with_tasks tasks]. split_and!.
      - rewrite lookup_replace_by_id, Hi. cbn [fmap option_fmap option_map].
        by rewrite decide_True.
      - rewrite Hget. repeat case_decide; congruence.
      - rewrite Hget. repeat case_decide; congruence.
      - rewrite Hget. repeat case_decide; congruence.
      - intros k Hk. rewrite Hget.
        rewrite !decide_False; [done|..]; intros ->; apply Hk; in_list.
      - by apply ids_replace_by_id.
      - apply lookup_insert_eq. }
    destruct (Hrest eq_refl) as (H1 & H2 & H3 & H4 & H5 & H6 & H7).
    destruct (taskList d) as [es|];
      eexists _, _; (split; [reflexivity|]);
      cbn [with_taskManager with_document taskManager document body taskList alerts
           resets fmap option_fmap option_map];
      split_and!; first [ assumption | reflexivity ].
  - intros Hnot%list_find_has_id_None.
    unfold handleSubmit, UI.try_catch, UI.bind, UI.call, UI.alert.
    cbn [taskManager]. rewrite updateTask_run, Hnot. simpl.
    eexists. split; [reflexivity|]. done.
Qed.

(** X23. The filter select cannot reach an inherited property. For each
    of the six values that [createFilterAndSearchUI] gives the select,
    [handleFilter] returns, leaves the store alone and shows, in list
    order, exactly the tasks the option stands for: all of them for the
    empty value. The handler of the older page does the same. *)
Theorem handleFilter_options (v : string) (w : world) (d : page) (es : list element) :
  v ∈ taskFilter_options ->
  taskList d = Some es ->
  exists shown,
    handleFilter v (mkBrowser w d) =
      (Return tt,
       mkBrowser w (mkPage (Some (createTaskElement <$> shown))
                      (body d) (alerts d) (resets d))) /\
    LegacyUI.handleFilter v (mkBrowser w d) = handleFilter v (mkBrowser w d) /\
    sublist shown (tasks w) /\
    (forall task, task ∈ shown <-> task ∈ tasks w /\ option_selects v task).
Proof.
  intros Hv Hes.
  assert (Hshow : forall (P : obj -> Prop) `{!forall x, Decision (P x)},
            filterTasks v w = (Return (filter P (tasks w)), w) ->
            Legacy.filterTasks v w = (Return (filter P (tasks w)), w) ->
            (forall task, P task <-> option_selects v task) ->
            exists shown,
              handleFilter v (mkBrowser w d) =
                (Return tt,
                 mkBrowser w (mkPage (Some (createTaskElement <$> shown))
                                (body d) (alerts d) (resets d))) /\
              LegacyUI.handleFilter v (mkBrowser w d) = handleFilter v (mkBrowser w d) /\
              sublist shown (tasks w) /\
              (forall task, task ∈ shown <-> task ∈ tasks w /\ option_selects v task)).
  { intros P HP Hnew Hold Hiff. exists (filter P (tasks w)).
    unfold handleFilter, LegacyUI.handleFilter, UI.bind, UI.call, renderTasks,
      LegacyUI.renderTasks, UI.replaceChildren.
    cbn [taskManager]. rewrite Hnew, Hold. simpl. rewrite Hes.
    split_and!; [done|done|apply sublist_filter|].
    intros task. rewrite list_elem_of_filter, Hiff. tauto. }
  destruct (filterTasks_recognized w) as (H1 & H2 & H3 & H4 & H5).
  unfold taskFilter_options in Hv.
  apply elem_of_cons in Hv as [->|Hv].
  { assert (Hall : filter (fun _ : obj => True) (tasks w) = tasks w)
      by (apply filter_all, Forall_forall; done).
    destruct (Hshow (fun _ => True) _) as (shown & Hshown).
    - by rewrite filterTasks_empty_type, Hall.
    - by rewrite Hall.
    - intros task. split; [by left|done].
    - eauto. }
  cases_in_list Hv.
  - eapply Hshow; [exact H1|done|]. intros task. unfold option_selects.
    split; [auto|]. intros [?|[[_ ?]|[[? _]|[[? _]|[[? _]|[? _]]]]]]; done.
  - eapply Hshow; [exact H2|done|]. intros task. unfold option_selects.
    split; [auto|]. intros [?|[[? _]|[[_ ?]|[[? _]|[[? _]|[? _]]]]]]; done.
  - eapply Hshow; [exact H3|done|]. intros task. unfold option_selects.
    split; [auto 6|]. intros [?|[[? _]|[[? _]|[[_ ?]|[[? _]|[? _]]]]]]; done.
  - eapply Hshow; [exact H4|done|]. intros task. unfold option_selects.
    split; [auto 7|]. intros [?|[[? _]|[[? _]|[[? _]|[[_ ?]|[? _]]]]]]; done.
  - eapply Hshow; [exact H5|done|]. intros task. unfold option_selects.
    split; [auto 8|]. intros [?|[[? _]|[[? _]|[[? _]|[[? _]|[_ ?]]]]]]; done.
Qed.

(** X24. The search box, for text of code units below U+0100: on a store
    whose tasks have such text for title and description, [handleSearch]
    returns for every such text in the input, leaves the store alone and
    shows, in list order, exactly the tasks whose title or description
    contains the text up to the case of letters; with the input cleared
    it shows every task. The handler of the older page does the same.
    (Text beyond Latin-1 does not fit the strings of the store; there
    the search compares the lower-case forms that [toLowerCase] gives,
    which is not containment up to case.) *)
Theorem handleSearch_shows_matches (term : string) (w : world) (d : page)
    (es : list element) :
  Forall has_text (tasks w) ->
  taskList d = Some es ->
  handleSearch term (mkBrowser w d) =
    (Return tt,
     mkBrowser w (mkPage (Some (createTaskElement <$> filter (matches term) (tasks w)))
                    (body d) (alerts d) (resets d)))
  /\ LegacyUI.handleSearch term (mkBrowser w d) = handleSearch term (mkBrowser w d)
  /\ (forall task, task ∈ filter (matches term) (tasks w) <->
                   task ∈ tasks w /\
                   (ci_substring term (text_of (get task "title")) \/
                    ci_substring term (text_of (get task "description"))))
  /\ (term = "" -> filter (matches term) (tasks w) = tasks w).
Proof.
  intros Htext Hes.
  assert (Hrun : searchTasks (VStr term) w = (Return (filter (matches term) (tasks w)), w)).
  { unfold searchTasks, bind, get_tasks, lift. simpl. by rewrite Array_filter_search. }
  split_and!.
  - unfold handleSearch, UI.bind, UI.call, renderTasks, UI.replaceChildren.
    cbn [taskManager]. rewrite Hrun. simpl. by rewrite Hes.
  - unfold handleSearch, LegacyUI.handleSearch, UI.bind, UI.call, renderTasks,
      LegacyUI.renderTasks, UI.replaceChildren.
    cbn [taskManager].
    change (Legacy.searchTasks (VStr term) w) with (searchTasks (VStr term) w).
    rewrite Hrun. simpl. by rewrite Hes.
  - intros task. rewrite list_elem_of_filter. unfold matches. tauto.
  - intros ->. apply filter_all, Forall_forall. intros t _. apply matches_empty.
Qed.

Lemma call_trim_inside (v : value) : call_trim v <> Outside.
Proof. by destruct v. Qed.

Lemma optional_trim_inside (v : value) : optional_trim v <> Outside.
Proof. by destruct v. Qed.

Lemma renderTasks_shows (w : world) (d : page) (es : list element) :
  taskList d = Some es ->
  renderTasks None (mkBrowser w d) =
    (Return tt,
     mkBrowser w (mkPage (Some (createTaskElement <$> tasks w))
                    (body d) (alerts d) (resets d))).
Proof. intros Hes. unfold renderTasks, UI.replaceChildren. simpl. by rewrite Hes. Qed.

(** X25. With a storage that takes writes the page keeps up with the
    store: if the task list of the page shows the list of the store
    before [handleAddTask], [handleTaskActions] or [handleSubmit] (for a
    dialog that is in the body), it does so afterwards, whatever the
    event carries and whether or not an alert was shown; the handler
    returns, and the storage still takes writes. With a storage that
    refuses writes, [handleAddTask] with a proper title leaves a task in
    the store that the page does not show. *)
Theorem page_follows_store (b : browser) :
  shows_tasks b ->
  (writable (localStorage (taskManager b)) = true ->
   (forall now createdAt taskData,
      exists b',
        handleAddTask JSON_stringify now createdAt taskData b = (Return tt, b') /\
        shows_tasks b' /\ writable (localStorage (taskManager b')) = true)
   /\ (forall t,
         exists b',
           handleTaskActions JSON_stringify t b = (Return tt, b') /\
           shows_tasks b' /\ writable (localStorage (taskManager b')) = true)
   /\ (forall taskId modal title description priority,
         (modal < length (body (document b)))%nat ->
         exists b',
           handleSubmit JSON_stringify taskId modal title description priority b =
             (Return tt, b') /\
           shows_tasks b' /\ writable (localStorage (taskManager b')) = true))
  /\ (writable (localStorage (taskManager b)) = false ->
      forall now createdAt taskData s,
        get taskData "title" = VStr s -> JSString.trim s <> "" ->
        is_Some (trimmed_or_empty (get taskData "description")) ->
        exists b',
          handleAddTask JSON_stringify now createdAt taskData b = (Return tt, b') /\
          length (tasks (taskManager b')) = S (length (tasks (taskManager b))) /\
          taskList (document b') = taskList (document b) /\
          ~ shows_tasks b').
Proof.
  destruct b as [w d]. unfold shows_tasks. cbn [taskManager document]. intros Hshow.
  split.
  - intros Hw. split_and!.
    + intros now createdAt taskData.
      unfold handleAddTask, UI.try_catch, UI.bind, UI.call, UI.reset, UI.alert.
      cbn [taskManager]. rewrite addTask_run.
      destruct (optional_trim (get taskData "title")) as [t|e|] eqn:Ht;
        [|by eexists; split; [reflexivity|]|by apply optional_trim_inside in Ht].
      destruct (negb (truthy t)); [by eexists; split; [reflexivity|]|].
      destruct (call_trim (get taskData "title")) as [title'|e|] eqn:Ht';
        [|by eexists; split; [reflexivity|]|by apply call_trim_inside in Ht'].
      destruct (optional_trim (get taskData "description")) as [dd|e|] eqn:Hd;
        [|by eexists; split; [reflexivity|]|by apply optional_trim_inside in Hd].
      cbv zeta. rewrite Hw.
      ui_norm.
      erewrite renderTasks_shows by exact Hshow.
      eexists. split; [reflexivity|]. by split.
    + intros t. unfold handleTaskActions.
      destruct (data_id t) as [s|]; [|by eexists; split; [reflexivity|]].
      destruct (negb (truthy (VStr s))); [by eexists; split; [reflexivity|]|].
      unfold UI.try_catch, UI.bind, UI.call, UI.alert, UI.ret, showEditModal, UI.appendChild.
      destruct (bool_decide ("complete-btn" ∈ target_classList t)).
      { cbn [taskManager]. rewrite toggleTaskCompletion_run.
        destruct (list_find _ _) as [[i task]|];
          [|by eexists; split; [reflexivity|]].
        cbv zeta. rewrite Hw.
        ui_norm.
        erewrite renderTasks_shows by exact Hshow.
        eexists. split; [reflexivity|]. by split. }
      destruct (bool_decide ("delete-btn" ∈ target_classList t)).
      { cbn [taskManager]. rewrite deleteTask_run.
        destruct (list_find _ _) as [[i task]|]; cbv zeta; rewrite ?Hw;
          ui_norm;
          (erewrite renderTasks_shows by exact Hshow);
          eexists; (split; [reflexivity|]); by split. }
      destruct (bool_decide ("edit-btn" ∈ target_classList t)).
      { cbn [taskManager].
        destruct (list_find _ _) as [[i task]|];
          ui_norm;
          (erewrite renderTasks_shows by exact Hshow);
          eexists; (split; [reflexivity|]); by split. }
      erewrite renderTasks_shows by exact Hshow.
      eexists. split; [reflexivity|]. by split.
    + intros taskId modal title description priority Hm.
      unfold handleSubmit, UI.try_catch, UI.bind, UI.call, UI.alert, UI.removeChild.
      cbn [taskManager]. rewrite updateTask_run.
      destruct (list_find _ _) as [[i task]|];
        [|by eexists; split; [reflexivity|]].
      cbv zeta. rewrite Hw.
      ui_norm.
      rewrite decide_True by exact Hm.
      erewrite renderTasks_shows by exact Hshow.
      eexists. split; [reflexivity|]. by split.
  - intros Hw now createdAt taskData s Ht Hs [dtext Hd].
    unfold handleAddTask, UI.try_catch, UI.bind, UI.call, UI.alert.
    cbn [taskManager]. rewrite Ht, (addTask_text_title _ _ _ dtext) by done.
    cbv zeta. rewrite Hw.
    eexists. split; [reflexivity|].
    cbn [with_taskManager with_document taskManager document body taskList alerts resets
         tasks with_log save_failed with_tasks].
    split_and!.
    + rewrite List.length_app. simpl. lia.
    + done.
    + rewrite Hshow. intros [= Heq]. apply (f_equal length) in Heq.
      rewrite !length_fmap, List.length_app in Heq. simpl in Heq. lia.
Qed.

(** X27. With identifiers that are text the buttons of the newer page
    act. For a non-empty [data-id] that a task carries as its
    identifier, on a storage that takes the write: a click on the
    Complete button runs [toggleTaskCompletion] and a click on the Delete
    button runs [deleteTask] on that identifier, and a click on the Edit
    button appends one dialog filled from the first task with the
    identifier; each is followed by a rendering of the whole list, and
    no alert is shown. *)
Theorem task_buttons_act_on_text_ids (t : target) (s : string) (w : world) (d : page)
    (es : list element) :
  taskList d = Some es ->
  data_id t = Some s -> s <> "" ->
  VStr s ∈ ids (tasks w) ->
  writable (localStorage w) = true ->
  (target_classList t = ["complete-btn"] ->
   exists task' w',
     toggleTaskCompletion JSON_stringify (VStr s) w = (Return task', w') /\
     handleTaskActions JSON_stringify t (mkBrowser w d) =
       (Return tt,
        mkBrowser w' (mkPage (Some (createTaskElement <$> tasks w'))
                        (body d) (alerts d) (resets d))))
  /\ (target_classList t = ["delete-btn"] ->
      exists w',
        deleteTask JSON_stringify (VStr s) w = (Return true, w') /\
        handleTaskActions JSON_stringify t (mkBrowser w d) =
          (Return tt,
           mkBrowser w' (mkPage (Some (createTaskElement <$> tasks w'))
                           (body d) (alerts d) (resets d))))
  /\ (target_classList t = ["edit-btn"] ->
      exists i first,
        list_find (has_id (VStr s)) (tasks w) = Some (i, first) /\
        handleTaskActions JSON_stringify t (mkBrowser w d) =
          (Return tt,
           mkBrowser w
             (mkPage (Some (createTaskElement <$> tasks w))
                (body d ++
                   [mkModal (ToString (get first "title"))
                      (ToString (get first "description"))
                      (filter (fun priority => get first "priority" = VStr priority)
                         editTaskPriority_options)])
                (alerts d) (resets d)))).
Proof.
  intros Hes Hs Hne Hin Hw.
  destruct (list_find (has_id (VStr s)) (tasks w)) as [[i first]|] eqn:Hf;
    [|by apply list_find_has_id_None in Hf].
  assert (Htruthy : negb (truthy (VStr s)) = false).
  { simpl. by rewrite bool_decide_eq_false_2. }
  split_and!.
  - intros Hc.
    pose proof (toggleTaskCompletion_run JSON_stringify (VStr s) w) as Hrun.
    rewrite Hf in Hrun. cbv zeta in Hrun. rewrite Hw in Hrun.
    eexists _, _. split; [exact Hrun|].
    unfold handleTaskActions. rewrite Hs, Htruthy, Hc.
    rewrite bool_decide_eq_true_2 by in_list.
    unfold UI.try_catch, UI.bind, UI.call, UI.ret. cbn [taskManager]. rewrite Hrun.
    ui_norm. by erewrite renderTasks_shows by exact Hes.
  - intros Hc.
    pose proof (deleteTask_run JSON_stringify (VStr s) w) as Hrun.
    rewrite Hf in Hrun. cbv zeta in Hrun. rewrite Hw in Hrun.
    eexists. split; [exact Hrun|].
    unfold handleTaskActions. rewrite Hs, Htruthy, Hc.
    rewrite bool_decide_eq_false_2 by (apply (bool_decide_unpack _); by vm_compute).
    rewrite bool_decide_eq_true_2 by in_list.
    unfold UI.try_catch, UI.bind, UI.call, UI.ret. cbn [taskManager]. rewrite Hrun.
    ui_norm. by erewrite renderTasks_shows by exact Hes.
  - intros Hc. exists i, first. split; [done|].
    unfold handleTaskActions. rewrite Hs, Htruthy, Hc.
    rewrite !bool_decide_eq_false_2 by (apply (bool_decide_unpack _); by vm_compute).
    rewrite bool_decide_eq_true_2 by in_list.
    unfold UI.try_catch, UI.bind, showEditModal, UI.appendChild. cbn [taskManager].
    rewrite Hf. ui_norm. by erewrite renderTasks_shows by exact Hes.
Qed.

(** X28. Saving the edit dialog of the older page never shows an alert
    and always closes the dialog: the promise of [updateTask] is dropped.
    For a dialog that is in the body, the handler returns, the dialog is
    removed and the page renders the list of the store, which is the one
    [updateTask] left; when no task has the identifier that list, and
    the whole store, is as before. *)
Theorem Legacy_handleSubmit_silent (taskId : value) (modal : nat)
    (title description priority : string) (w : world) (d : page) (es : list element) :
  taskList d = Some es ->
  (modal < length (body d))%nat ->
  let w' := (Legacy.updateTask JSON_stringify taskId
               {[ "title" := VStr title; "description" := VStr description;
                  "priority" := VStr priority ]} w).2 in
  LegacyUI.handleSubmit JSON_stringify taskId modal title description priority
    (mkBrowser w d) =
    (Return tt,
     mkBrowser w' (mkPage (Some (createTaskElement <$> tasks w'))
                     (delete modal (body d)) (alerts d) (resets d)))
  /\ (taskId ∉ ids (tasks w) -> w' = w).
Proof.
  intros Hes Hm. cbv zeta. split.
  - unfold LegacyUI.handleSubmit, UI.bind, UI.detached, UI.removeChild,
      LegacyUI.renderTasks, UI.replaceChildren.
    cbn [taskManager]. rewrite Legacy_updateTask_run.
    destruct (list_find _ _) as [[i task]|].
    + rewrite assign_defined_plain
        by exact (get_edit_record title description priority "__proto__").
      cbv zeta. destruct (writable (localStorage w)); ui_norm;
        (rewrite decide_True by exact Hm); ui_norm; by rewrite Hes.
    + ui_norm. rewrite decide_True by exact Hm. ui_norm. by rewrite Hes.
  - intros Hnot%list_find_has_id_None. by rewrite Legacy_updateTask_run, Hnot.
Qed.

End Handlers.

Section PageLoad.

Variable JSON_parse : string -> parsed.

Lemma startup_effect (w : world) :
  loadable JSON_parse (localStorage w) ->
  exists w',
    startup JSON_parse w = (Return tt, w') /\
    tasks w' = stored_list JSON_parse (localStorage w) /\
    localStorage w' = localStorage w.
Proof.
  intros Hload.
  unfold startup, constructor, bind, set_tasks.
  destruct (init_effect JSON_parse (with_tasks [] w) Hload) as (w1 & Hinit1 & Ht1 & Hl1).
  assert (Hload1 : loadable JSON_parse (localStorage w1)) by (by rewrite Hl1).
  destruct (init_effect JSON_parse w1 Hload1) as (w2 & Hinit2 & Ht2 & Hl2).
  exists w2. rewrite Hinit1, Hinit2. split_and!; [done|..].
  - by rewrite Ht2, Hl1.
  - by rewrite Hl2, Hl1.
Qed.

(** X26. Loading the page. For stored text that is JSON for a task list
    or not JSON at all (and for a storage that cannot be read or holds
    nothing under the key) the listener of the newer file returns and
    leaves a page that shows the list the storage holds, with the
    storage as it was. The listener of the older file throws when the
    storage cannot be read or the stored text is not JSON, and then the
    page is as it was before: no task is rendered. Where the older
    constructor returns, the older page shows the loaded list; for
    stored JSON of a falsy value ([null], [false], [0], the empty
    string), which the newer file keeps as its task list, that is the
    empty list. *)
Theorem page_load_shows_stored_tasks (b : browser) (es : list element) :
  taskList (document b) = Some es ->
  (loadable JSON_parse (localStorage (taskManager b)) ->
   exists b',
     DOMContentLoaded JSON_parse b = (Return tt, b') /\
     tasks (taskManager b') = stored_list JSON_parse (localStorage (taskManager b)) /\
     localStorage (taskManager b') = localStorage (taskManager b) /\
     shows_tasks b')
  /\ (forall e w', Legacy.constructor JSON_parse (taskManager b) = (Throw e, w') ->
        LegacyUI.DOMContentLoaded JSON_parse b = (Throw e, b))
  /\ (forall w', Legacy.constructor JSON_parse (taskManager b) = (Return tt, w') ->
        exists b',
          LegacyUI.DOMContentLoaded JSON_parse b = (Return tt, b') /\
          taskManager b' = w' /\ shows_tasks b')
  /\ (readable (localStorage (taskManager b)) = false \/
      (exists blob, items (localStorage (taskManager b)) !! "tasks" = Some blob /\
                    JSON_parse blob = SyntaxErr) ->
      exists e, LegacyUI.DOMContentLoaded JSON_parse b = (Throw e, b))
  /\ (forall blob,
        readable (localStorage (taskManager b)) = true ->
        items (localStorage (taskManager b)) !! "tasks" = Some blob ->
        JSON_parse blob = Falsy ->
        exists b',
          LegacyUI.DOMContentLoaded JSON_parse b = (Return tt, b') /\
          tasks (taskManager b') = [] /\
          taskList (document b') = Some []).
Proof.
  destruct b as [w d]. cbn [taskManager document]. intros Hes.
  assert (Hthrow : forall e w', Legacy.constructor JSON_parse w = (Throw e, w') ->
            LegacyUI.DOMContentLoaded JSON_parse (mkBrowser w d) = (Throw e, mkBrowser w d)).
  { intros e w' Hc. unfold LegacyUI.DOMContentLoaded, UI.bind, UI.call.
    cbn [taskManager]. rewrite Hc.
    assert (w' = w) as ->; [|done].
    rewrite Legacy_constructor_run in Hc.
    destruct (readable (localStorage w)); [|by injection Hc].
    destruct (items (localStorage w) !! "tasks") as [blob|]; [|done].
    destruct (JSON_parse blob); [done|by injection Hc|done..]. }
  split_and!.
  - intros Hload. destruct (startup_effect w Hload) as (w' & Hrun & Ht & Hl).
    unfold DOMContentLoaded, TaskManagerUI_init, UI.bind, UI.call.
    cbn [taskManager]. rewrite Hrun.
    ui_norm.
    erewrite renderTasks_shows by exact Hes.
    eexists. split; [reflexivity|]. unfold shows_tasks. by split_and!.
  - exact Hthrow.
  - intros w' Hc.
    unfold LegacyUI.DOMContentLoaded, LegacyUI.TaskManagerUI_constructor,
      LegacyUI.renderTasks, UI.replaceChildren, UI.bind, UI.call.
    cbn [taskManager]. rewrite Hc. simpl. rewrite Hes.
    eexists. split; [reflexivity|]. by split.
  - intros [Hr|(blob & Hblob & Hcorrupt)].
    + eexists. eapply Hthrow. by rewrite Legacy_constructor_run, Hr.
    + destruct (readable (localStorage w)) eqn:Hr.
      * eexists. eapply Hthrow.
        by rewrite Legacy_constructor_run, Hr, Hblob, Hcorrupt.
      * eexists. eapply Hthrow. by rewrite Legacy_constructor_run, Hr.
  - intros blob Hr Hblob Hfalsy.
    unfold LegacyUI.DOMContentLoaded, LegacyUI.TaskManagerUI_constructor,
      LegacyUI.renderTasks, UI.replaceChildren, UI.bind, UI.call.
    cbn [taskManager]. rewrite Legacy_constructor_run, Hr, Hblob, Hfalsy.
    simpl. rewrite Hes. by eexists.
Qed.

End PageLoad.


(** ** The further properties at concrete stores and pages *)

Lemma stored_list_is_current_witness :
  in_sync JSONText.stringify (run JSONText.stringify session empty_world).
Proof.
  destruct (stored_list_is_current JSONText.stringify session empty_world) as [[H _]|H].
  - reflexivity.
  - by vm_compute in H.
  - exact H.
Defined.

Lemma refused_storage_diverges_witness :
  localStorage (run JSONText.stringify session full_world) = localStorage full_world.
Proof.
  apply (refused_storage_diverges JSONText.stringify session full_world). reflexivity.
Defined.

Lemma reload_shows_current_list_witness :
  exists w2,
    constructor JSONText.JSON_parse
      (fresh_instance (run JSONText.stringify session empty_world)) = (Return tt, w2) /\
    Forall2 same_fields (tasks w2) (tasks (run JSONText.stringify session empty_world)).
Proof.
  apply (reload_shows_current_list JSONText.stringify JSONText.JSON_parse session empty_world).
  - apply stringify_nonempty.
  - apply JSON_parse_stringify.
  - by split.
  - reflexivity.
  - reflexivity.
Defined.

Lemma updateTask_merges_witness :
  exists task' w',
    updateTask JSONText.stringify (VNum 1700000000000)
      {[ "title" := VStr "Buy oat milk"; "priority" := VUndef ]} milk_world =
      (Return task', w') /\
    get task' "title" = VStr "Buy oat milk" /\ get task' "priority" = VStr "low" /\
    tasks w' !! 0%nat = Some task'.
Proof.
  destruct (updateTask_merges JSONText.stringify (VNum 1700000000000)
              {[ "title" := VStr "Buy oat milk"; "priority" := VUndef ]} milk_world)
    as (i & task & task' & w' & Hf & Hrun & Hget & Hi & _);
    [by in_list|reflexivity|].
  exists task', w'. injection Hf as <- <-.
  split; [exact Hrun|]. split; [by rewrite Hget|]. split; [by rewrite Hget|exact Hi].
Defined.

Lemma toggle_twice_restores_witness :
  exists task1 w1 w2,
    toggleTaskCompletion JSONText.stringify (VNum 1700000000000) milk_world =
      (Return task1, w1) /\
    get task1 "completed" = VBool true /\
    toggleTaskCompletion JSONText.stringify (VNum 1700000000000) w1 = (Return milk, w2) /\
    tasks w2 = [milk].
Proof.
  destruct (toggle_twice_restores JSONText.stringify (VNum 1700000000000) milk_world)
    as (task & task1 & w1 & w2 & Hin & _ & Hrun1 & Hflag & Hrun2 & Hts & _).
  - by in_list.
  - reflexivity.
  - apply NoDup_singleton.
  - intros task Ht. apply list_elem_of_singleton in Ht as ->. by exists false.
  - apply list_elem_of_singleton in Hin as ->. by exists task1, w1, w2.
Defined.

Lemma well_typed_from_empty_witness :
  Forall well_typed (tasks (run JSONText.stringify session empty_world)).
Proof.
  apply (well_typed_from_empty JSONText.stringify session empty_world).
  - reflexivity.
  - repeat constructor.
Defined.

Lemma classes_agree_on_unique_ids_witness :
  Legacy.deleteTask JSONText.stringify (VStr "1700000060000") old_two_world =
    deleteTask JSONText.stringify (VStr "1700000060000") old_two_world
  /\ Legacy.updateTask JSONText.stringify (VStr "1700000060000")
       {[ "title" := VStr "Call mum"; "priority" := VUndef ]} old_two_world =
     updateTask JSONText.stringify (VStr "1700000060000")
       {[ "title" := VStr "Call mum"; "priority" := VUndef ]} old_two_world
  /\ Legacy.toggleTaskCompletion JSONText.stringify (VStr "1700000060000") old_two_world =
     toggleTaskCompletion JSONText.stringify (VStr "1700000060000") old_two_world.
Proof.
  destruct (classes_agree_on_unique_ids JSONText.stringify (VStr "1700000060000")
              {[ "title" := VStr "Call mum"; "priority" := VUndef ]}
              old_two_world) as [Hdelete Hrest].
  - apply (bool_decide_unpack _). by vm_compute.
  - reflexivity.
  - split; [exact Hdelete|].
    destruct Hrest as [Hupdate Htoggle]; [apply (bool_decide_unpack _); by vm_compute|].
    split; [apply Hupdate; reflexivity|exact Htoggle].
Defined.

Lemma startup_loads_from_storage_witness :
  exists w2,
    startup JSONText.JSON_parse saved_milk_world = (Return tt, w2) /\
    tasks w2 = defined_entries <$> [milk] /\
    localStorage w2 = localStorage saved_milk_world.
Proof.
  destruct (startup_loads_from_storage JSONText.JSON_parse saved_milk_world)
    as (w1 & w2 & _ & Hrun & _ & Hts & _ & Hst & _).
  - intros _ s Hs _. right. exists (defined_entries <$> [milk]).
    vm_compute in Hs. injection Hs as <-. by vm_compute.
  - exists w2. split; [exact Hrun|]. split; [|exact Hst].
    rewrite Hts. by vm_compute.
Defined.

Lemma constructors_agree_witness :
  (exists w',
     Legacy.constructor JSONText.JSON_parse saved_milk_world = (Return tt, w') /\
     constructor JSONText.JSON_parse saved_milk_world = (Return tt, w') /\
     tasks w' = defined_entries <$> [milk])
  /\ Legacy.constructor JSONText.JSON_parse null_world = (Return tt, null_world).
Proof.
  split.
  - destruct (constructors_agree JSONText.JSON_parse saved_milk_world) as [Hload _].
    { intros H. by vm_compute in H. }
    destruct Hload as [Hreturn _].
    { intros _ s Hs _. right. exists (defined_entries <$> [milk]).
      vm_compute in Hs. injection Hs as <-. by vm_compute. }
    exists (with_tasks (defined_entries <$> [milk]) saved_milk_world).
    assert (Hleg : Legacy.constructor JSONText.JSON_parse saved_milk_world =
                     (Return tt, with_tasks (defined_entries <$> [milk]) saved_milk_world))
      by (by vm_compute).
    split; [exact Hleg|]. split; [exact (Hreturn _ Hleg)|reflexivity].
  - destruct (constructors_agree JSONText.JSON_parse null_world) as [_ Hfalsy].
    { intros H. by vm_compute in H. }
    apply (Hfalsy "null"); reflexivity.
Defined.

Lemma classes_share_storage_witness :
  exists w1 w2,
    Legacy.saveTasks JSONText.stringify old_milk_world = (Return tt, w1) /\
    constructor JSONText.JSON_parse (fresh_instance w1) = (Return tt, w2) /\
    Forall2 same_fields (tasks w2) [old_milk].
Proof.
  destruct (classes_share_storage old_milk_world)
    as (w1 & w2 & _ & Hsave & Hload & _ & Hsame & _); [reflexivity|reflexivity|].
  by exists w1, w2.
Defined.

Lemma task_buttons_miss_numeric_ids_witness :
  exists w' d',
    handleTaskActions JSONText.stringify (mkTarget ["complete-btn"] (Some "1700000060000"))
      (mkBrowser (run JSONText.stringify session empty_world) blank_page) =
      (Return tt, mkBrowser w' d') /\
    tasks w' = tasks (run JSONText.stringify session empty_world) /\
    alerts d' = [Error "Failed to toggle task completion"].
Proof.
  destruct (task_buttons_miss_numeric_ids JSONText.stringify session empty_world
              (mkTarget ["complete-btn"] (Some "1700000060000")) blank_page)
    as (w' & d' & Hrun & Hts & _ & _ & _ & Halert & _).
  - reflexivity.
  - repeat constructor.
  - exists w', d'. split; [exact Hrun|]. split; [exact Hts|].
    apply (Halert "1700000060000").
    + reflexivity.
    + discriminate.
    + simpl. by in_list.
Defined.

Lemma Legacy_handleAddTask_silent_witness :
  exists d',
    LegacyUI.handleAddTask JSONText.stringify 1700000000000 "2023-11-14T22:13:20.000Z"
      "   " "" "low" (mkBrowser empty_world blank_page) =
      (Return tt, mkBrowser empty_world d') /\
    alerts d' = [] /\ resets d' = 1%nat.
Proof.
  destruct (Legacy_handleAddTask_silent JSONText.stringify 1700000000000
              "2023-11-14T22:13:20.000Z" "   " "" "low" empty_world blank_page [])
    as (w' & d' & Hrun & Halerts & Hresets & _ & _ & Hblank & _); [reflexivity|].
  exists d'. rewrite (Hblank eq_refl) in Hrun.
  split; [exact Hrun|]. split; [exact Halerts|exact Hresets].
Defined.

Lemma Legacy_task_buttons_act_witness :
  exists task' w',
    Legacy.toggleTaskCompletion JSONText.stringify (VStr "1700000000000") old_milk_world =
      (Return task', w') /\
    LegacyUI.handleTaskActions JSONText.stringify
      (mkTarget ["complete-btn"] (Some "1700000000000"))
      (mkBrowser old_milk_world blank_page) =
      (Return tt,
       mkBrowser w' (mkPage (Some (createTaskElement <$> tasks w')) [] [] 0)).
Proof.
  destruct (Legacy_task_buttons_act JSONText.stringify
              (mkTarget ["complete-btn"] (Some "1700000000000")) "1700000000000"
              old_milk_world blank_page []) as [Hfound _]; [reflexivity|reflexivity|].
  destruct (Hfound old_milk) as (_ & Hcomplete & _); [by in_list|by vm_compute|].
  by apply Hcomplete.
Defined.

Lemma handleFilter_options_witness :
  handleFilter "completed" (mkBrowser milk_world blank_page) =
    (Return tt, mkBrowser milk_world blank_page).
Proof.
  destruct (handleFilter_options "completed" milk_world blank_page [])
    as (shown & Hrun & _ & _ & Hshown); [by in_list|reflexivity|].
  rewrite Hrun. destruct shown as [|task shown]; [done|].
  destruct (Hshown task) as [Htask _].
  destruct Htask as [Hin Hsel]; [by left|].
  apply list_elem_of_singleton in Hin as ->.
  destruct Hsel as [?|[[_ ?]|[[? _]|[[? _]|[[? _]|[? _]]]]]]; done.
Defined.

Lemma handleSearch_shows_matches_witness :
  handleSearch "MILK" (mkBrowser milk_world blank_page) =
    (Return tt,
     mkBrowser milk_world (mkPage (Some [createTaskElement milk]) [] [] 0)).
Proof.
  destruct (handleSearch_shows_matches "MILK" milk_world blank_page []) as [Hrun _].
  - repeat constructor; eexists; reflexivity.
  - reflexivity.
  - rewrite Hrun. by vm_compute.
Defined.

Lemma page_follows_store_witness :
  exists b',
    handleAddTask JSONText.stringify 1700000000000 "2023-11-14T22:13:20.000Z"
      {[ "title" := VStr "Buy milk"; "description" := VStr ""; "priority" := VStr "low" ]}
      (mkBrowser empty_world blank_page) = (Return tt, b') /\
    shows_tasks b'.
Proof.
  destruct (page_follows_store JSONText.stringify (mkBrowser empty_world blank_page))
    as [Hwritable _]; [reflexivity|].
  destruct (Hwritable eq_refl) as (Hadd & _).
  destruct (Hadd 1700000000000 "2023-11-14T22:13:20.000Z"
              ({[ "title" := VStr "Buy milk"; "description" := VStr "";
                  "priority" := VStr "low" ]} : obj)) as (b' & Hrun & Hshows & _).
  by exists b'.
Defined.

Lemma page_load_shows_stored_tasks_witness :
  (exists b',
     DOMContentLoaded JSONText.JSON_parse (mkBrowser saved_milk_world blank_page) =
       (Return tt, b') /\
     tasks (taskManager b') = defined_entries <$> [milk] /\ shows_tasks b')
  /\ (exists b',
        LegacyUI.DOMContentLoaded JSONText.JSON_parse (mkBrowser null_world blank_page) =
          (Return tt, b') /\
        tasks (taskManager b') = [] /\ taskList (document b') = Some []).
Proof.
  split.
  - destruct (page_load_shows_stored_tasks JSONText.JSON_parse
                (mkBrowser saved_milk_world blank_page) [])
      as (Hnew & _); [reflexivity|].
    destruct Hnew as (b' & Hrun & Hts & _ & Hshows).
    { intros _ s Hs _. right. exists (defined_entries <$> [milk]).
      vm_compute in Hs. injection Hs as <-. by vm_compute. }
    exists b'. split; [exact Hrun|]. split; [|exact Hshows].
    rewrite Hts. by vm_compute.
  - destruct (page_load_shows_stored_tasks JSONText.JSON_parse
                (mkBrowser null_world blank_page) [])
      as (_ & _ & _ & _ & Hfalsy); [reflexivity|].
    apply (Hfalsy "null"); reflexivity.
Defined.

Lemma task_buttons_act_on_text_ids_witness :
  exists w',
    deleteTask JSONText.stringify (VStr "1700000000000") old_milk_world =
      (Return true, w') /\
    handleTaskActions JSONText.stringify (mkTarget ["delete-btn"] (Some "1700000000000"))
      (mkBrowser old_milk_world blank_page) =
      (Return tt,
       mkBrowser w' (mkPage (Some (createTaskElement <$> tasks w')) [] [] 0)).
Proof.
  destruct (task_buttons_act_on_text_ids JSONText.stringify
              (mkTarget ["delete-btn"] (Some "1700000000000")) "1700000000000"
              old_milk_world blank_page [])
    as (_ & Hdelete & _);
    [reflexivity|reflexivity|done|by vm_compute; in_list|reflexivity|].
  by apply Hdelete.
Defined.

Lemma Legacy_handleSubmit_silent_witness :
  LegacyUI.handleSubmit JSONText.stringify (VStr "7") 0 "Buy oat milk" "" "low"
    (mkBrowser old_milk_world (mkPage (Some []) [mkModal "Buy milk" "" ["low"]] [] 0)) =
    (Return tt,
     mkBrowser old_milk_world (mkPage (Some [createTaskElement old_milk]) [] [] 0)).
Proof.
  destruct (Legacy_handleSubmit_silent JSONText.stringify (VStr "7") 0
              "Buy oat milk" "" "low" old_milk_world
              (mkPage (Some []) [mkModal "Buy milk" "" ["low"]] [] 0) [])
    as [Hrun Hsame]; [reflexivity|simpl; lia|].
  rewrite Hrun, Hsame; [reflexivity|].
  apply (bool_decide_unpack _). by vm_compute.
Defined.


Lemma saveTasks_effect_witness :
  (exists w', saveTasks JSONText.stringify milk_world = (Return tt, w') /\
              in_sync JSONText.stringify w' /\ tasks w' = [milk])
  /\ (exists w', saveTasks JSONText.stringify full_world =
                   (Throw (Error "Failed to save tasks"), w') /\
                 localStorage w' = localStorage full_world).
Proof.
  split.
  - destruct (saveTasks_effect JSONText.stringify milk_world) as [Hsaved _].
    destruct (Hsaved eq_refl) as (w' & Hrun & Hsync & _ & Hts & _).
    exists w'. split; [exact Hrun|]. split; [exact Hsync|exact Hts].
  - destruct (saveTasks_effect JSONText.stringify full_world) as [_ Hrefused].
    destruct (Hrefused eq_refl) as (w' & Hrun & Hst & _).
    exists w'. split; [exact Hrun|exact Hst].
Defined.

Lemma filterTasks_agrees_with_switch_witness :
  filterTasks "high-priority" milk_world = Legacy.filterTasks "high-priority" milk_world
  /\ filterTasks "valueOf" empty_world = Legacy.filterTasks "valueOf" empty_world.
Proof.
  split.
  - destruct (filterTasks_agrees_with_switch "high-priority" milk_world) as [Hsame _].
    apply Hsame. apply (bool_decide_unpack _). by vm_compute.
  - destruct (filterTasks_agrees_with_switch "valueOf" empty_world) as [_ Hempty].
    apply Hempty; [discriminate|reflexivity].
Defined.

Lemma title_checked_on_add_only_witness :
  exists task' w',
    updateTask JSONText.stringify (VNum 1700000000000) {[ "title" := VStr "  " ]}
      milk_world = (Return task', w') /\
    get task' "title" = VStr "  ".
Proof.
  destruct (title_checked_on_add_only JSONText.stringify milk_world) as [_ Hupdate].
  destruct (Hupdate (VNum 1700000000000) "  ") as (task' & w' & Hrun & Htitle & _);
    [by in_list|reflexivity|].
  exists task', w'. split; [exact Hrun|exact Htitle].
Defined.

Lemma Legacy_addTask_spec_witness :
  Legacy.addTask JSONText.stringify 1700000000000 "2023-11-14T22:13:20.000Z"
    (VStr "   ") (VStr "") (VStr "low") empty_world =
    (Throw (Error "Task title cannot be empty"), empty_world)
  /\ (exists w',
        Legacy.addTask JSONText.stringify 1700000000000 "2023-11-14T22:13:20.000Z"
          (VStr " Buy milk ") (VStr "") (VStr "low") empty_world = (Return old_milk, w')
        /\ tasks w' = [old_milk])
  /\ (exists message,
        Legacy.addTask JSONText.stringify 1700000000000 "2023-11-14T22:13:20.000Z"
          (VStr "Buy milk") VUndef (VStr "low") empty_world =
          (Throw (TypeError message), empty_world)).
Proof.
  split_and!.
  - apply (Legacy_addTask_spec JSONText.stringify 1700000000000
             "2023-11-14T22:13:20.000Z" (VStr "   ") (VStr "") (VStr "low") empty_world).
    right. by exists "   ".
  - destruct (Legacy_addTask_spec JSONText.stringify 1700000000000
                "2023-11-14T22:13:20.000Z" (VStr " Buy milk ") (VStr "") (VStr "low")
                empty_world) as [_ Hadd].
    destruct (Hadd " Buy milk ") as [Htext _]; [reflexivity|by vm_compute|].
    destruct (Htext "" eq_refl) as [Hwritten _].
    destruct (Hwritten eq_refl) as (w' & Hrun & Hts & _).
    exists w'. split; [exact Hrun|exact Hts].
  - destruct (Legacy_addTask_spec JSONText.stringify 1700000000000
                "2023-11-14T22:13:20.000Z" (VStr "Buy milk") VUndef (VStr "low")
                empty_world) as [_ Hadd].
    destruct (Hadd "Buy milk") as [_ Hmissing]; [reflexivity|by vm_compute|].
    apply Hmissing. by left.
Defined.

Lemma Legacy_deleteTask_removes_first_witness :
  (exists w',
     Legacy.deleteTask JSONText.stringify (VStr "1700000000000")
       (mkWorld [old_milk; old_milk] (mkStorage ∅ true true) []) = (Return true, w') /\
     tasks w' = [old_milk])
  /\ Legacy.deleteTask JSONText.stringify (VNum 1700000000000) old_milk_world =
     (Return false, old_milk_world).
Proof.
  split.
  - destruct (Legacy_deleteTask_removes_first JSONText.stringify (VStr "1700000000000")
                (mkWorld [old_milk; old_milk] (mkStorage ∅ true true) [])) as [Hfound _].
    destruct Hfound as (i & task & w' & Hrun & Hi & _ & Hfirst & Hts & _);
      [by vm_compute; in_list|reflexivity|].
    exists w'. split; [exact Hrun|]. rewrite Hts.
    destruct i as [|i]; [reflexivity|].
    destruct (Hfirst 0%nat old_milk); [lia|reflexivity|by vm_compute].
  - apply (Legacy_deleteTask_removes_first JSONText.stringify (VNum 1700000000000)
             old_milk_world).
    apply (bool_decide_unpack _). by vm_compute.
Defined.

Lemma Legacy_updateTask_first_match_witness :
  Legacy.updateTask JSONText.stringify (VNum 1700000000000)
    {[ "title" := VStr "Buy oat milk" ]} old_milk_world =
    (Throw (Error "Task not found"), old_milk_world)
  /\ (exists task' w',
        Legacy.updateTask JSONText.stringify (VStr "1700000000000")
          {[ "title" := VStr "Buy oat milk" ]} old_milk_world = (Return task', w') /\
        get task' "title" = VStr "Buy oat milk" /\ get task' "priority" = VStr "low")
  /\ (exists task' w',
        Legacy.updateTask JSONText.stringify (VStr "1700000000000")
          {[ "__proto__" := VStr "x"; "title" := VStr "Buy oat milk" ]} old_milk_world =
          (Return task', w') /\
        get task' "title" = VStr "Buy oat milk" /\ task' !! "__proto__" = None).
Proof.
  split_and!.
  - apply (Legacy_updateTask_first_match JSONText.stringify (VNum 1700000000000)
             {[ "title" := VStr "Buy oat milk" ]} old_milk_world).
    apply (bool_decide_unpack _). by vm_compute.
  - destruct (Legacy_updateTask_first_match JSONText.stringify (VStr "1700000000000")
                {[ "title" := VStr "Buy oat milk" ]} old_milk_world) as [Hfound _].
    destruct Hfound as (i & task & task' & w' & Hrun & Hi & _ & _ & Hget & _);
      [by vm_compute; in_list|reflexivity|reflexivity|].
    exists task', w'. split; [exact Hrun|].
    destruct i as [|i]; [|by destruct i].
    injection Hi as <-. split; by rewrite Hget.
  - destruct (Legacy_updateTask_first_match JSONText.stringify (VStr "1700000000000")
                {[ "__proto__" := VStr "x"; "title" := VStr "Buy oat milk" ]}
                old_milk_world) as (_ & Hproto & _).
    destruct Hproto as (i & task & task' & w' & Hrun & Hi & _ & Hget & Hnone & _).
    + by vm_compute; in_list.
    + reflexivity.
    + by vm_compute.
    + by vm_compute.
    + intros task Ht _. apply list_elem_of_singleton in Ht as ->. by vm_compute.
    + exists task', w'. split; [exact Hrun|]. split; [|exact Hnone].
      destruct i as [|i]; [|by destruct i].
      injection Hi as <-. by rewrite Hget.
Defined.

Lemma Legacy_toggle_twice_witness :
  exists task1 w1 w2,
    Legacy.toggleTaskCompletion JSONText.stringify (VStr "1700000000000") old_milk_world =
      (Return task1, w1) /\
    get task1 "completed" = VBool true /\
    Legacy.toggleTaskCompletion JSONText.stringify (VStr "1700000000000") w1 =
      (Return old_milk, w2) /\
    tasks w2 = [old_milk].
Proof.
  destruct (Legacy_toggle_twice JSONText.stringify (VStr "1700000000000") old_milk_world)
    as [Hfound _].
  destruct Hfound as (i & task & task1 & w1 & Hrun1 & Hi & _ & Hget & _ & _ & _ & Hback);
    [by vm_compute; in_list|reflexivity|].
  destruct i as [|i]; [|by destruct i]. injection Hi as <-.
  destruct (Hback false eq_refl) as (w2 & Hrun2 & Hts & _).
  exists task1, w1, w2. split; [exact Hrun1|]. split; [by rewrite Hget|].
  split; [exact Hrun2|exact Hts].
Defined.

Lemma handleAddTask_spec_witness :
  handleAddTask JSONText.stringify 1700000000000 "2023-11-14T22:13:20.000Z"
    {[ "title" := VStr "   "; "description" := VStr ""; "priority" := VStr "low" ]}
    (mkBrowser empty_world blank_page) =
    (Return tt,
     mkBrowser empty_world
       (mkPage (Some []) [] [Error "Task title cannot be empty"] 0))
  /\ exists w' d',
       handleAddTask JSONText.stringify 1700000000000 "2023-11-14T22:13:20.000Z"
         {[ "title" := VStr "Buy milk"; "description" := VStr "";
            "priority" := VStr "low" ]}
         (mkBrowser empty_world blank_page) = (Return tt, mkBrowser w' d') /\
       tasks w' = [milk] /\ alerts d' = [] /\ resets d' = 1%nat.
Proof.
  split.
  - apply (handleAddTask_spec JSONText.stringify 1700000000000 "2023-11-14T22:13:20.000Z"
             {[ "title" := VStr "   "; "description" := VStr "";
                "priority" := VStr "low" ]} empty_world blank_page).
    reflexivity.
  - destruct (handleAddTask_spec JSONText.stringify 1700000000000
                "2023-11-14T22:13:20.000Z"
                {[ "title" := VStr "Buy milk"; "description" := VStr "";
                   "priority" := VStr "low" ]} empty_world blank_page) as [_ Hadd].
    destruct (Hadd "Buy milk" "") as (w' & d' & Hrun & Hts & _ & Hwritten & _);
      [reflexivity|by vm_compute|reflexivity|].
    destruct (Hwritten eq_refl) as (_ & Halerts & Hresets & _).
    exists w', d'. split; [exact Hrun|]. split; [exact Hts|].
    split; [exact Halerts|exact Hresets].
Defined.

Lemma handleSubmit_spec_witness :
  (exists w' d',
     handleSubmit JSONText.stringify (VStr "1700000000000") 0 "Buy oat milk" "" "high"
       (mkBrowser old_milk_world (mkPage (Some []) [mkModal "Buy milk" "" ["low"]] [] 0)) =
       (Return tt, mkBrowser w' d') /\
     ids (tasks w') = [VStr "1700000000000"] /\ body d' = [] /\ alerts d' = [])
  /\ (exists w',
        handleSubmit JSONText.stringify (VNum 1700000000000) 0 "Buy oat milk" "" "high"
          (mkBrowser old_milk_world
             (mkPage (Some []) [mkModal "Buy milk" "" ["low"]] [] 0)) =
          (Return tt,
           mkBrowser w'
             (mkPage (Some []) [mkModal "Buy milk" "" ["low"]]
                [Error "Failed to update task"] 0)) /\
        tasks w' = [old_milk]).
Proof.
  split.
  - destruct (handleSubmit_spec JSONText.stringify (VStr "1700000000000") 0
                "Buy oat milk" "" "high" old_milk_world
                (mkPage (Some []) [mkModal "Buy milk" "" ["low"]] [] 0)) as [Hfound _].
    destruct Hfound
      as (i & task & task' & w' & d' & Hrun & _ & _ & _ & _ & _ & _ & Hids & _ & Hbody
          & Halerts & _);
      [by vm_compute; in_list|reflexivity|simpl; lia|].
    exists w', d'. split; [exact Hrun|]. split; [exact Hids|].
    split; [exact Hbody|exact Halerts].
  - destruct (handleSubmit_spec JSONText.stringify (VNum 1700000000000) 0
                "Buy oat milk" "" "high" old_milk_world
                (mkPage (Some []) [mkModal "Buy milk" "" ["low"]] [] 0)) as [_ Hmissing].
    destruct Hmissing as (w' & Hrun & Hts & _).
    + apply (bool_decide_unpack _). by vm_compute.
    + exists w'. split; [exact Hrun|exact Hts].
Defined.
